(** * Secure PII ingestion: a shallow embedding of the notebook pipeline

    The development follows [notebooks/01_autoloader_encrypt_pii.py]:
    the policy table, [encrypt_value], [apply_pii_policy], [decrypt_value]
    and the two SQL views.  The library calls the notebook makes (UTF-8
    codec, url-safe base64, SHA-256, HMAC, AES-128-CBC with PKCS7, Fernet,
    and the Spark column functions [sha2], [substr], [concat], [cast]) are
    embedded as executable functions so that every statement can be
    evaluated on concrete inputs. *)

From Stdlib Require Import ZArith List String Ascii Bool Lia DecimalString Btauto.
From stdpp Require Import base option list strings.
Import ListNotations.
Local Open Scope Z_scope.

(** ** Exceptions and the error monad *)

(** The Python and Spark exceptions the modelled code can raise. *)
Inductive exn : Type :=
| InvalidToken          (* cryptography.fernet.InvalidToken *)
| ValueError            (* Fernet(key) on a malformed key; the placeholder guard *)
| UnicodeEncodeError    (* str.encode("utf-8") on a lone surrogate *)
| UnicodeDecodeError    (* bytes.decode("utf-8") on ill-formed input *)
| AttributeError        (* value.encode on a value that is not a str *)
| OverflowError         (* int.to_bytes out of range *)
| BinasciiError         (* binascii.Error: malformed base64 *)
| AnalysisException.    (* Spark: unresolved column in a view *)

Inductive result (A : Type) : Type :=
| Ok (a : A)
| Raise (e : exn).
Arguments Ok {A} a.
Arguments Raise {A} e.

#[global] Instance result_ret : MRet result := fun _ a => Ok a.
#[global] Instance result_bind : MBind result := fun _ _ f m =>
  match m with
  | Ok a => f a
  | Raise e => Raise e
  end.

Definition is_ok {A} (r : result A) : bool :=
  match r with Ok _ => true | Raise _ => false end.

(** ** Bytes and Python strings *)

(** A byte is an integer in [0, 256).  A Python [str] is its sequence of
    code points. *)
Abbreviation bytes := (list Z).
Abbreviation str := (list Z).

Definition is_byte (b : Z) : bool := (0 <=? b) && (b <? 256).
Definition bytes_ok (l : bytes) : bool := forallb is_byte l.

(** A block of sixteen bytes: an AES state, round key or IV. *)
Definition block_ok (s : bytes) : bool :=
  (List.length s =? 16)%nat && bytes_ok s.

(** Seven-bit characters only. *)
Definition is_ascii (l : bytes) : bool :=
  forallb (fun c => (0 <=? c) && (c <? 0x80)) l.

(** A lower-case hexadecimal digit. *)
Definition is_hex_digit (c : Z) : bool :=
  ((48 <=? c) && (c <=? 57)) || ((97 <=? c) && (c <=? 102)).

(** A Unicode scalar value: a code point that is not a surrogate. *)
Definition is_scalar (c : Z) : bool :=
  (0 <=? c) && (c <? 0x110000) && negb ((0xD800 <=? c) && (c <=? 0xDFFF)).
Definition unicode_text (s : str) : bool := forallb is_scalar s.

(** The code points of an ASCII literal. *)
Definition py (s : string) : str :=
  map (fun a => Z.of_nat (nat_of_ascii a)) (list_ascii_of_string s).

(** Python slicing [l[i:j]] for [0 <= i], [0 <= j]. *)
Definition slice {A} (i j : nat) (l : list A) : list A :=
  firstn (j - i) (skipn i l).
(** [l[:-n]] and [l[-n:]] for [n > 0]. *)
Definition drop_last {A} (n : nat) (l : list A) : list A :=
  firstn (length l - n) l.
Definition take_last {A} (n : nat) (l : list A) : list A :=
  skipn (length l - n) l.

Definition bytes_eqb (a b : bytes) : bool := bool_decide (a = b).

(** ** UTF-8: [str.encode("utf-8")] and [bytes.decode("utf-8")] *)
Module Utf8.

Definition encode_char (c : Z) : result bytes :=
  if c <? 0 then Raise UnicodeEncodeError
  else if c <? 0x80 then Ok [c]
  else if c <? 0x800 then Ok [0xC0 + c / 0x40; 0x80 + c mod 0x40]
  else if (0xD800 <=? c) && (c <=? 0xDFFF) then Raise UnicodeEncodeError
  else if c <? 0x10000 then
    Ok [0xE0 + c / 0x1000; 0x80 + (c / 0x40) mod 0x40; 0x80 + c mod 0x40]
  else if c <? 0x110000 then
    Ok [0xF0 + c / 0x40000; 0x80 + (c / 0x1000) mod 0x40;
        0x80 + (c / 0x40) mod 0x40; 0x80 + c mod 0x40]
  else Raise UnicodeEncodeError.

Fixpoint encode (s : str) : result bytes :=
  match s with
  | [] => Ok []
  | c :: s' => b ← encode_char c; r ← encode s'; Ok (b ++ r)
  end.

Definition cont (b : Z) : bool := (0x80 <=? b) && (b <=? 0xBF).

(** The strict decoder: shortest form only, no surrogates, at most
    U+10FFFF. *)
Fixpoint decode (b : bytes) : result str :=
  match b with
  | [] => Ok []
  | b1 :: r1 =>
    if (0 <=? b1) && (b1 <? 0x80) then s ← decode r1; Ok (b1 :: s)
    else if (0xC2 <=? b1) && (b1 <=? 0xDF) then
      match r1 with
      | b2 :: r2 =>
        if cont b2
        then s ← decode r2; Ok ((b1 - 0xC0) * 0x40 + (b2 - 0x80) :: s)
        else Raise UnicodeDecodeError
      | _ => Raise UnicodeDecodeError
      end
    else if (0xE0 <=? b1) && (b1 <=? 0xEF) then
      match r1 with
      | b2 :: b3 :: r3 =>
        let c := (b1 - 0xE0) * 0x1000 + (b2 - 0x80) * 0x40 + (b3 - 0x80) in
        if cont b2 && cont b3 && (0x800 <=? c)
           && negb ((0xD800 <=? c) && (c <=? 0xDFFF))
        then s ← decode r3; Ok (c :: s)
        else Raise UnicodeDecodeError
      | _ => Raise UnicodeDecodeError
      end
    else if (0xF0 <=? b1) && (b1 <=? 0xF4) then
      match r1 with
      | b2 :: b3 :: b4 :: r4 =>
        let c := (b1 - 0xF0) * 0x40000 + (b2 - 0x80) * 0x1000
                 + (b3 - 0x80) * 0x40 + (b4 - 0x80) in
        if cont b2 && cont b3 && cont b4 && (0x10000 <=? c) && (c <? 0x110000)
        then s ← decode r4; Ok (c :: s)
        else Raise UnicodeDecodeError
      | _ => Raise UnicodeDecodeError
      end
    else Raise UnicodeDecodeError
  end.

End Utf8.

(** ** Base64: [base64.urlsafe_b64encode] and [base64.urlsafe_b64decode] *)
Module Base64.

Definition alphabet : str :=
  py "ABCDEFGHIJKLMNOPQRSTUVWXYZabcdefghijklmnopqrstuvwxyz0123456789-_".

(** The character of a sextet, in the url-safe alphabet. *)
Definition b2a (n : Z) : Z := nth (Z.to_nat n) alphabet 0.

Definition PAD : Z := 61.

Fixpoint urlsafe_b64encode (l : bytes) : bytes :=
  match l with
  | [] => []
  | [b1] => [b2a (b1 / 4); b2a (b1 mod 4 * 16); PAD; PAD]
  | [b1; b2] =>
    [b2a (b1 / 4); b2a (b1 mod 4 * 16 + b2 / 16); b2a (b2 mod 16 * 4); PAD]
  | b1 :: b2 :: b3 :: r =>
    b2a (b1 / 4) :: b2a (b1 mod 4 * 16 + b2 / 16)
      :: b2a (b2 mod 16 * 4 + b3 / 64) :: b2a (b3 mod 64)
      :: urlsafe_b64encode r
  end.

(** [urlsafe_b64decode] first maps '-' to '+' and '_' to '/'. *)
Definition translate (c : Z) : Z :=
  if c =? 45 then 43 else if c =? 95 then 47 else c.

(** binascii's table for the standard alphabet. *)
Definition table_a2b (c : Z) : option Z :=
  if (65 <=? c) && (c <=? 90) then Some (c - 65)
  else if (97 <=? c) && (c <=? 122) then Some (c - 97 + 26)
  else if (48 <=? c) && (c <=? 57) then Some (c - 48 + 52)
  else if c =? 43 then Some 62
  else if c =? 47 then Some 63
  else None.

(** The decoding loop of [binascii.a2b_base64] outside strict mode:
    characters outside the alphabet are skipped, a pad sequence that
    completes a quad ends the input, and leftover sextets are an error. *)
Fixpoint a2b_loop (quad_pos leftchar pads : Z) (out : bytes) (l : bytes)
  : result bytes :=
  match l with
  | [] => if quad_pos =? 0 then Ok out else Raise BinasciiError
  | c :: r =>
    if c =? PAD then
      if (2 <=? quad_pos) && (4 <=? quad_pos + (pads + 1)) then Ok out
      else a2b_loop quad_pos leftchar
             (if 2 <=? quad_pos then pads + 1 else pads) out r
    else
      match table_a2b c with
      | None => a2b_loop quad_pos leftchar pads out r
      | Some v =>
        match quad_pos with
        | 0 => a2b_loop 1 v 0 out r
        | 1 => a2b_loop 2 (v mod 16) 0 (out ++ [leftchar * 4 + v / 16]) r
        | 2 => a2b_loop 3 (v mod 4) 0 (out ++ [leftchar * 16 + v / 4]) r
        | _ => a2b_loop 0 0 0 (out ++ [leftchar * 64 + v]) r
        end
      end
  end.

Definition urlsafe_b64decode (l : bytes) : result bytes :=
  a2b_loop 0 0 0 [] (map translate l).

End Base64.

(** ** SHA-256 (FIPS 180-4) over 32-bit words *)
Module SHA256.

Definition add32 (a b : Z) : Z := (a + b) mod 2 ^ 32.
Definition shr (n x : Z) : Z := Z.shiftr x n.
Definition rotr (n x : Z) : Z :=
  Z.lor (Z.shiftr x n) (Z.shiftl x (32 - n)) mod 2 ^ 32.
Definition not32 (x : Z) : Z := Z.lxor x 0xFFFFFFFF.

Definition Ch (x y z : Z) : Z := Z.lxor (Z.land x y) (Z.land (not32 x) z).
Definition Maj (x y z : Z) : Z :=
  Z.lxor (Z.lxor (Z.land x y) (Z.land x z)) (Z.land y z).
Definition Sigma0 (x : Z) : Z := Z.lxor (Z.lxor (rotr 2 x) (rotr 13 x)) (rotr 22 x).
Definition Sigma1 (x : Z) : Z := Z.lxor (Z.lxor (rotr 6 x) (rotr 11 x)) (rotr 25 x).
Definition sigma0 (x : Z) : Z := Z.lxor (Z.lxor (rotr 7 x) (rotr 18 x)) (shr 3 x).
Definition sigma1 (x : Z) : Z := Z.lxor (Z.lxor (rotr 17 x) (rotr 19 x)) (shr 10 x).

(** The round constants of FIPS 180-4, section 4.2.2: the first 32 bits of
    the fractional parts of the cube roots of the first 64 primes. *)
Definition is_prime (n : nat) : bool :=
  forallb (fun d => negb (n mod d =? 0)%nat) (seq 2 (n - 2)).

Definition primes64 : list nat := filter (fun n => is_prime n = true) (seq 2 310).

(** The integer cube root below 2 ^ bits, one bit at a time. *)
Fixpoint cube_root (bits : nat) (n r : Z) : Z :=
  match bits with
  | O => r
  | S b =>
    let r' := r + 2 ^ Z.of_nat b in
    cube_root b n (if r' * r' * r' <=? n then r' else r)
  end.

Definition cube_root_bits (p : nat) : Z :=
  cube_root 36 (Z.of_nat p * 2 ^ 96) 0 mod 2 ^ 32.

Definition K : list Z := Eval vm_compute in map cube_root_bits primes64.

(** The eight working variables, and the hash value between blocks. *)
Record regs : Type := Regs { ra : Z; rb : Z; rc : Z; rd : Z;
                             re : Z; rf : Z; rg : Z; rh : Z }.

Definition H0 : regs :=
  Regs 0x6a09e667 0xbb67ae85 0x3c6ef372 0xa54ff53a
       0x510e527f 0x9b05688c 0x1f83d9ab 0x5be0cd19.

(** Big-endian bytes of an integer, [n] of them. *)
Fixpoint be_bytes (n : nat) (x : Z) : bytes :=
  match n with
  | O => []
  | S n' => (x / 256 ^ Z.of_nat n') mod 256 :: be_bytes n' x
  end.

Definition padding (len : nat) : bytes :=
  0x80 :: repeat 0 (Z.to_nat ((55 - Z.of_nat len) mod 64))
    ++ be_bytes 8 (8 * Z.of_nat len).

Fixpoint words (l : bytes) : list Z :=
  match l with
  | b0 :: b1 :: b2 :: b3 :: r =>
    (b0 * 2 ^ 24 + b1 * 2 ^ 16 + b2 * 2 ^ 8 + b3) :: words r
  | _ => []
  end.

Fixpoint blocks (fuel : nat) (l : bytes) : list bytes :=
  match fuel, l with
  | S f, _ :: _ => firstn 64 l :: blocks f (skipn 64 l)
  | _, _ => []
  end.

(** The message schedule: sixteen words of the block, extended to 64. *)
Fixpoint extend (n : nat) (w : list Z) : list Z :=
  match n with
  | O => w
  | S n' =>
    let t := length w in
    let at_ i := nth (t - i) w 0 in
    extend n' (w ++ [add32 (add32 (sigma1 (at_ 2%nat)) (at_ 7%nat))
                           (add32 (sigma0 (at_ 15%nat)) (at_ 16%nat))])
  end.

Definition schedule (block : bytes) : list Z := extend 48 (words block).

Definition round (r : regs) (kw : Z * Z) : regs :=
  let '(k, w) := kw in
  let t1 := add32 (add32 (add32 (add32 (rh r) (Sigma1 (re r)))
                                (Ch (re r) (rf r) (rg r))) k) w in
  let t2 := add32 (Sigma0 (ra r)) (Maj (ra r) (rb r) (rc r)) in
  Regs (add32 t1 t2) (ra r) (rb r) (rc r) (add32 (rd r) t1) (re r) (rf r) (rg r).

Definition compress (h : regs) (block : bytes) : regs :=
  let r := fold_left round (combine K (schedule block)) h in
  Regs (add32 (ra h) (ra r)) (add32 (rb h) (rb r)) (add32 (rc h) (rc r))
       (add32 (rd h) (rd r)) (add32 (re h) (re r)) (add32 (rf h) (rf r))
       (add32 (rg h) (rg r)) (add32 (rh h) (rh r)).

Definition digest_of (h : regs) : bytes :=
  be_bytes 4 (ra h) ++ be_bytes 4 (rb h) ++ be_bytes 4 (rc h)
    ++ be_bytes 4 (rd h) ++ be_bytes 4 (re h) ++ be_bytes 4 (rf h)
    ++ be_bytes 4 (rg h) ++ be_bytes 4 (rh h).

Definition sha256 (msg : bytes) : bytes :=
  let padded := msg ++ padding (length msg) in
  digest_of (fold_left compress (blocks (length padded) padded) H0).

Definition hex_digit (n : Z) : Z := nth (Z.to_nat n) (py "0123456789abcdef") 0.

Fixpoint hex (l : bytes) : str :=
  match l with
  | [] => []
  | b :: r => hex_digit (b / 16) :: hex_digit (b mod 16) :: hex r
  end.

End SHA256.

(** ** HMAC-SHA256 (RFC 2104) *)
Module HMAC.

Definition block_size : nat := 64.

Definition xor_with (c : Z) (l : bytes) : bytes := map (Z.lxor c) l.

Definition hmac_sha256 (key msg : bytes) : bytes :=
  let k0 := if (block_size <? length key)%nat then SHA256.sha256 key else key in
  let k := k0 ++ repeat 0 (block_size - length k0) in
  SHA256.sha256 (xor_with 0x5c k ++ SHA256.sha256 (xor_with 0x36 k ++ msg)).

End HMAC.

(** ** AES-128 (FIPS 197) on a state of sixteen bytes, column by column *)
Module AES.

Definition SBOX : list Z :=
  [ 0x63; 0x7c; 0x77; 0x7b; 0xf2; 0x6b; 0x6f; 0xc5; 0x30; 0x01; 0x67; 0x2b;
   0xfe; 0xd7; 0xab; 0x76; 0xca; 0x82; 0xc9; 0x7d; 0xfa; 0x59; 0x47; 0xf0;
   0xad; 0xd4; 0xa2; 0xaf; 0x9c; 0xa4; 0x72; 0xc0; 0xb7; 0xfd; 0x93; 0x26;
   0x36; 0x3f; 0xf7; 0xcc; 0x34; 0xa5; 0xe5; 0xf1; 0x71; 0xd8; 0x31; 0x15;
   0x04; 0xc7; 0x23; 0xc3; 0x18; 0x96; 0x05; 0x9a; 0x07; 0x12; 0x80; 0xe2;
   0xeb; 0x27; 0xb2; 0x75; 0x09; 0x83; 0x2c; 0x1a; 0x1b; 0x6e; 0x5a; 0xa0;
   0x52; 0x3b; 0xd6; 0xb3; 0x29; 0xe3; 0x2f; 0x84; 0x53; 0xd1; 0x00; 0xed;
   0x20; 0xfc; 0xb1; 0x5b; 0x6a; 0xcb; 0xbe; 0x39; 0x4a; 0x4c; 0x58; 0xcf;
   0xd0; 0xef; 0xaa; 0xfb; 0x43; 0x4d; 0x33; 0x85; 0x45; 0xf9; 0x02; 0x7f;
   0x50; 0x3c; 0x9f; 0xa8; 0x51; 0xa3; 0x40; 0x8f; 0x92; 0x9d; 0x38; 0xf5;
   0xbc; 0xb6; 0xda; 0x21; 0x10; 0xff; 0xf3; 0xd2; 0xcd; 0x0c; 0x13; 0xec;
   0x5f; 0x97; 0x44; 0x17; 0xc4; 0xa7; 0x7e; 0x3d; 0x64; 0x5d; 0x19; 0x73;
   0x60; 0x81; 0x4f; 0xdc; 0x22; 0x2a; 0x90; 0x88; 0x46; 0xee; 0xb8; 0x14;
   0xde; 0x5e; 0x0b; 0xdb; 0xe0; 0x32; 0x3a; 0x0a; 0x49; 0x06; 0x24; 0x5c;
   0xc2; 0xd3; 0xac; 0x62; 0x91; 0x95; 0xe4; 0x79; 0xe7; 0xc8; 0x37; 0x6d;
   0x8d; 0xd5; 0x4e; 0xa9; 0x6c; 0x56; 0xf4; 0xea; 0x65; 0x7a; 0xae; 0x08;
   0xba; 0x78; 0x25; 0x2e; 0x1c; 0xa6; 0xb4; 0xc6; 0xe8; 0xdd; 0x74; 0x1f;
   0x4b; 0xbd; 0x8b; 0x8a; 0x70; 0x3e; 0xb5; 0x66; 0x48; 0x03; 0xf6; 0x0e;
   0x61; 0x35; 0x57; 0xb9; 0x86; 0xc1; 0x1d; 0x9e; 0xe1; 0xf8; 0x98; 0x11;
   0x69; 0xd9; 0x8e; 0x94; 0x9b; 0x1e; 0x87; 0xe9; 0xce; 0x55; 0x28; 0xdf;
   0x8c; 0xa1; 0x89; 0x0d; 0xbf; 0xe6; 0x42; 0x68; 0x41; 0x99; 0x2d; 0x0f;
   0xb0; 0x54; 0xbb; 0x16].

Definition INV_SBOX : list Z :=
  [ 0x52; 0x09; 0x6a; 0xd5; 0x30; 0x36; 0xa5; 0x38; 0xbf; 0x40; 0xa3; 0x9e;
   0x81; 0xf3; 0xd7; 0xfb; 0x7c; 0xe3; 0x39; 0x82; 0x9b; 0x2f; 0xff; 0x87;
   0x34; 0x8e; 0x43; 0x44; 0xc4; 0xde; 0xe9; 0xcb; 0x54; 0x7b; 0x94; 0x32;
   0xa6; 0xc2; 0x23; 0x3d; 0xee; 0x4c; 0x95; 0x0b; 0x42; 0xfa; 0xc3; 0x4e;
   0x08; 0x2e; 0xa1; 0x66; 0x28; 0xd9; 0x24; 0xb2; 0x76; 0x5b; 0xa2; 0x49;
   0x6d; 0x8b; 0xd1; 0x25; 0x72; 0xf8; 0xf6; 0x64; 0x86; 0x68; 0x98; 0x16;
   0xd4; 0xa4; 0x5c; 0xcc; 0x5d; 0x65; 0xb6; 0x92; 0x6c; 0x70; 0x48; 0x50;
   0xfd; 0xed; 0xb9; 0xda; 0x5e; 0x15; 0x46; 0x57; 0xa7; 0x8d; 0x9d; 0x84;
   0x90; 0xd8; 0xab; 0x00; 0x8c; 0xbc; 0xd3; 0x0a; 0xf7; 0xe4; 0x58; 0x05;
   0xb8; 0xb3; 0x45; 0x06; 0xd0; 0x2c; 0x1e; 0x8f; 0xca; 0x3f; 0x0f; 0x02;
   0xc1; 0xaf; 0xbd; 0x03; 0x01; 0x13; 0x8a; 0x6b; 0x3a; 0x91; 0x11; 0x41;
   0x4f; 0x67; 0xdc; 0xea; 0x97; 0xf2; 0xcf; 0xce; 0xf0; 0xb4; 0xe6; 0x73;
   0x96; 0xac; 0x74; 0x22; 0xe7; 0xad; 0x35; 0x85; 0xe2; 0xf9; 0x37; 0xe8;
   0x1c; 0x75; 0xdf; 0x6e; 0x47; 0xf1; 0x1a; 0x71; 0x1d; 0x29; 0xc5; 0x89;
   0x6f; 0xb7; 0x62; 0x0e; 0xaa; 0x18; 0xbe; 0x1b; 0xfc; 0x56; 0x3e; 0x4b;
   0xc6; 0xd2; 0x79; 0x20; 0x9a; 0xdb; 0xc0; 0xfe; 0x78; 0xcd; 0x5a; 0xf4;
   0x1f; 0xdd; 0xa8; 0x33; 0x88; 0x07; 0xc7; 0x31; 0xb1; 0x12; 0x10; 0x59;
   0x27; 0x80; 0xec; 0x5f; 0x60; 0x51; 0x7f; 0xa9; 0x19; 0xb5; 0x4a; 0x0d;
   0x2d; 0xe5; 0x7a; 0x9f; 0x93; 0xc9; 0x9c; 0xef; 0xa0; 0xe0; 0x3b; 0x4d;
   0xae; 0x2a; 0xf5; 0xb0; 0xc8; 0xeb; 0xbb; 0x3c; 0x83; 0x53; 0x99; 0x61;
   0x17; 0x2b; 0x04; 0x7e; 0xba; 0x77; 0xd6; 0x26; 0xe1; 0x69; 0x14; 0x63;
   0x55; 0x21; 0x0c; 0x7d].

Definition sub_byte (b : Z) : Z := nth (Z.to_nat b) SBOX 0.
Definition inv_sub_byte (b : Z) : Z := nth (Z.to_nat b) INV_SBOX 0.

Definition sub_bytes (s : bytes) : bytes := map sub_byte s.
Definition inv_sub_bytes (s : bytes) : bytes := map inv_sub_byte s.

Definition shift_rows (s : bytes) : bytes :=
  match s with
  | [s0; s1; s2; s3; s4; s5; s6; s7; s8; s9; s10; s11; s12; s13; s14; s15] =>
    [s0; s5; s10; s15; s4; s9; s14; s3; s8; s13; s2; s7; s12; s1; s6; s11]
  | _ => s
  end.

Definition inv_shift_rows (s : bytes) : bytes :=
  match s with
  | [s0; s1; s2; s3; s4; s5; s6; s7; s8; s9; s10; s11; s12; s13; s14; s15] =>
    [s0; s13; s10; s7; s4; s1; s14; s11; s8; s5; s2; s15; s12; s9; s6; s3]
  | _ => s
  end.

(** Multiplication by x in GF(2^8) modulo x^8 + x^4 + x^3 + x + 1. *)
Definition xtime (b : Z) : Z :=
  if 2 * b <? 256 then 2 * b else Z.lxor (2 * b) 0x11b.

Definition mul3 (b : Z) : Z := Z.lxor (xtime b) b.
Definition mul9 (b : Z) : Z := Z.lxor (xtime (xtime (xtime b))) b.
Definition mul11 (b : Z) : Z :=
  Z.lxor (Z.lxor (xtime (xtime (xtime b))) (xtime b)) b.
Definition mul13 (b : Z) : Z :=
  Z.lxor (Z.lxor (xtime (xtime (xtime b))) (xtime (xtime b))) b.
Definition mul14 (b : Z) : Z :=
  Z.lxor (Z.lxor (xtime (xtime (xtime b))) (xtime (xtime b))) (xtime b).

Definition xor4 (a b c d : Z) : Z := Z.lxor (Z.lxor (Z.lxor a b) c) d.

Definition mix_column (a0 a1 a2 a3 : Z) : bytes :=
  [xor4 (xtime a0) (mul3 a1) a2 a3;
   xor4 a0 (xtime a1) (mul3 a2) a3;
   xor4 a0 a1 (xtime a2) (mul3 a3);
   xor4 (mul3 a0) a1 a2 (xtime a3)].

Definition inv_mix_column (a0 a1 a2 a3 : Z) : bytes :=
  [xor4 (mul14 a0) (mul11 a1) (mul13 a2) (mul9 a3);
   xor4 (mul9 a0) (mul14 a1) (mul11 a2) (mul13 a3);
   xor4 (mul13 a0) (mul9 a1) (mul14 a2) (mul11 a3);
   xor4 (mul11 a0) (mul13 a1) (mul9 a2) (mul14 a3)].

Fixpoint mix_columns (s : bytes) : bytes :=
  match s with
  | a0 :: a1 :: a2 :: a3 :: r => mix_column a0 a1 a2 a3 ++ mix_columns r
  | _ => s
  end.

Fixpoint inv_mix_columns (s : bytes) : bytes :=
  match s with
  | a0 :: a1 :: a2 :: a3 :: r => inv_mix_column a0 a1 a2 a3 ++ inv_mix_columns r
  | _ => s
  end.

Fixpoint xor_bytes (a b : bytes) : bytes :=
  match a, b with
  | x :: a', y :: b' => Z.lxor x y :: xor_bytes a' b'
  | _, _ => []
  end.

Definition add_round_key (s k : bytes) : bytes := xor_bytes s k.

Definition RCON : list Z := [0x01; 0x02; 0x04; 0x08; 0x10; 0x20; 0x40; 0x80; 0x1b; 0x36].

(** The next round key of AES-128: the four words of the previous one,
    the first xored with SubWord(RotWord(w3)) and the round constant. *)
Definition next_key (k : bytes) (rc : Z) : bytes :=
  match k with
  | [k0; k1; k2; k3; k4; k5; k6; k7; k8; k9; k10; k11; k12; k13; k14; k15] =>
    let a0 := Z.lxor k0 (Z.lxor (sub_byte k13) rc) in
    let a1 := Z.lxor k1 (sub_byte k14) in
    let a2 := Z.lxor k2 (sub_byte k15) in
    let a3 := Z.lxor k3 (sub_byte k12) in
    let b0 := Z.lxor k4 a0 in
    let b1 := Z.lxor k5 a1 in
    let b2 := Z.lxor k6 a2 in
    let b3 := Z.lxor k7 a3 in
    let c0 := Z.lxor k8 b0 in
    let c1 := Z.lxor k9 b1 in
    let c2 := Z.lxor k10 b2 in
    let c3 := Z.lxor k11 b3 in
    [a0; a1; a2; a3; b0; b1; b2; b3; c0; c1; c2; c3;
     Z.lxor k12 c0; Z.lxor k13 c1; Z.lxor k14 c2; Z.lxor k15 c3]
  | _ => k
  end.

Fixpoint expand (k : bytes) (rcs : list Z) : list bytes :=
  match rcs with
  | [] => []
  | rc :: rcs' => let k' := next_key k rc in k' :: expand k' rcs'
  end.

Definition enc_round (k s : bytes) : bytes :=
  add_round_key (mix_columns (shift_rows (sub_bytes s))) k.
Definition enc_final (k s : bytes) : bytes :=
  add_round_key (shift_rows (sub_bytes s)) k.

Fixpoint enc_rounds (s : bytes) (ks : list bytes) : bytes :=
  match ks with
  | [] => s
  | [k] => enc_final k s
  | k :: ks' => enc_rounds (enc_round k s) ks'
  end.

Definition encrypt_block (key block : bytes) : bytes :=
  enc_rounds (add_round_key block key) (expand key RCON).

Definition dec_round (k s : bytes) : bytes :=
  inv_sub_bytes (inv_shift_rows (inv_mix_columns (add_round_key s k))).
Definition dec_final (k s : bytes) : bytes :=
  inv_sub_bytes (inv_shift_rows (add_round_key s k)).

(** The inverse cipher undoes the rounds last to first. *)
Fixpoint dec_rounds (ks : list bytes) (s : bytes) : bytes :=
  match ks with
  | [] => s
  | [k] => dec_final k s
  | k :: ks' => dec_round k (dec_rounds ks' s)
  end.

Definition decrypt_block (key block : bytes) : bytes :=
  add_round_key (dec_rounds (expand key RCON) block) key.

End AES.

(** ** CBC mode and PKCS7 padding, as [cryptography] applies them *)
Module CBC.

Definition block_len : nat := 16.

Definition pad (data : bytes) : bytes :=
  let n := (block_len - length data mod block_len)%nat in
  data ++ repeat (Z.of_nat n) n.

(** [unpadder.finalize()]: a ValueError becomes [None]. *)
Definition unpad (data : bytes) : option bytes :=
  if (length data =? 0)%nat || negb (length data mod block_len =? 0)%nat
  then None
  else
    let n := List.last data 0 in
    if (1 <=? n) && (n <=? Z.of_nat block_len)
       && forallb (Z.eqb n) (take_last (Z.to_nat n) data)
    then Some (drop_last (Z.to_nat n) data)
    else None.

Fixpoint encrypt (fuel : nat) (key prev data : bytes) : bytes :=
  match fuel, data with
  | S f, _ :: _ =>
    let c := AES.encrypt_block key (AES.xor_bytes (firstn block_len data) prev) in
    c ++ encrypt f key c (skipn block_len data)
  | _, _ => []
  end.

Fixpoint decrypt (fuel : nat) (key prev data : bytes) : bytes :=
  match fuel, data with
  | S f, _ :: _ =>
    let c := firstn block_len data in
    AES.xor_bytes (AES.decrypt_block key c) prev
      ++ decrypt f key c (skipn block_len data)
  | _, _ => []
  end.

End CBC.

(** ** Fernet, as [cryptography.fernet.Fernet] implements it *)
Module Fernet.

Record t : Type := Make { signing_key : bytes; encryption_key : bytes }.

(** [Fernet(key)]: the key is 32 url-safe base64-encoded bytes. *)
Definition new (key : bytes) : result t :=
  match Base64.urlsafe_b64decode key with
  | Raise _ => Raise ValueError
  | Ok k =>
    if (length k =? 32)%nat then Ok (Make (firstn 16 k) (skipn 16 k))
    else Raise ValueError
  end.

(** [current_time.to_bytes(length=8, byteorder="big")]. *)
Definition to_bytes8 (n : Z) : result bytes :=
  if (0 <=? n) && (n <? 2 ^ 64) then Ok (SHA256.be_bytes 8 n)
  else Raise OverflowError.

(** [int.from_bytes(b, byteorder="big")], by which
    [_get_unverified_token_data] reads the timestamp [data[1:9]]. *)
Definition from_bytes (b : bytes) : Z :=
  fold_left (fun acc x => acc * 256 + x) b 0.

(** [_encrypt_from_parts(data, current_time, iv)]. *)
Definition encrypt_from_parts (f : t) (data : bytes) (current_time : Z)
    (iv : bytes) : result bytes :=
  let padded_data := CBC.pad data in
  if negb (length iv =? 16)%nat then Raise ValueError else
  let ciphertext :=
    CBC.encrypt (length padded_data) (encryption_key f) iv padded_data in
  ts ← to_bytes8 current_time;
  let basic_parts := 0x80 :: ts ++ iv ++ ciphertext in
  let hmac := HMAC.hmac_sha256 (signing_key f) basic_parts in
  Ok (Base64.urlsafe_b64encode (basic_parts ++ hmac)).

(** [_get_unverified_token_data], without the timestamp nobody reads when
    [ttl] is [None]. *)
Definition get_unverified_token_data (token : bytes) : result bytes :=
  match Base64.urlsafe_b64decode token with
  | Raise _ => Raise InvalidToken
  | Ok data =>
    match data with
    | [] => Raise InvalidToken
    | v :: _ =>
      if negb (v =? 0x80) then Raise InvalidToken
      else if (length data <? 9)%nat then Raise InvalidToken
      else Ok data
    end
  end.

Definition verify_signature (f : t) (data : bytes) : bool :=
  bytes_eqb (HMAC.hmac_sha256 (signing_key f) (drop_last 32 data))
            (take_last 32 data).

(** [_decrypt_data(data, timestamp, None)]. *)
Definition decrypt_data (f : t) (data : bytes) : result bytes :=
  if negb (verify_signature f data) then Raise InvalidToken else
  let iv := slice 9 25 data in
  let ciphertext := skipn 25 (drop_last 32 data) in
  if negb (length iv =? 16)%nat then Raise ValueError else
  if negb (length ciphertext mod 16 =? 0)%nat then Raise InvalidToken else
  let plaintext_padded :=
    CBC.decrypt (length ciphertext) (encryption_key f) iv ciphertext in
  match CBC.unpad plaintext_padded with
  | None => Raise InvalidToken
  | Some unpadded => Ok unpadded
  end.

(** [decrypt(token)] with [ttl=None]. *)
Definition decrypt (f : t) (token : bytes) : result bytes :=
  data ← get_unverified_token_data token;
  decrypt_data f data.

End Fernet.

(** ** Spark: column values, DataFrames and the column functions used *)
Module Spark.

(** A cell of a DataFrame read from CSV with inferred column types: null,
    a string, an integral number or a boolean. *)
Inductive value : Type :=
| VNull
| VStr (s : str)
| VInt (n : Z)
| VBool (b : bool).

#[global] Instance value_eq_dec : EqDecision value.
Proof. solve_decision. Defined.

Record DataFrame : Type := { columns : list string; rows : list (list value) }.

(** [col.cast("string")]. *)
Definition cast_string (v : value) : value :=
  match v with
  | VNull => VNull
  | VStr s => VStr s
  | VInt n => VStr (py (NilEmpty.string_of_int (Z.to_int n)))
  | VBool b => VStr (py (if b then "true" else "false"))
  end.

(** [sha2(col, 256)]: the lower-case hexadecimal SHA-256 of the UTF-8
    bytes of a string; null for null. *)
Definition sha2_256 (v : value) : result value :=
  match cast_string v with
  | VStr s => b ← Utf8.encode s; Ok (VStr (SHA256.hex (SHA256.sha256 b)))
  | _ => Ok VNull
  end.

(** [UTF8String.substring(start, until)] in characters. *)
Definition substring (s : str) (start until : Z) : str :=
  if until <=? start then []
  else firstn (Z.to_nat (until - Z.max start 0)) (skipn (Z.to_nat (Z.max start 0)) s).

(** [UTF8String.substringSQL(pos, length)]: positions count from one and a
    negative position counts from the end.  The clamp of [start + length]
    to 32 bits is left out: it is only reached by sums no string length
    gives. *)
Definition substringSQL (s : str) (pos length : Z) : str :=
  let len := Z.of_nat (List.length s) in
  let start := if 0 <? pos then pos - 1 else if pos <? 0 then len + pos else 0 in
  substring s start (start + length).

(** SQL [substr(str, pos, len)]. *)
Definition substr (v : value) (pos len : Z) : value :=
  match cast_string v with
  | VStr s => VStr (substringSQL s pos len)
  | _ => VNull
  end.

(** SQL [concat(a, b)]: null as soon as one argument is null. *)
Definition concat (a b : value) : value :=
  match cast_string a, cast_string b with
  | VStr x, VStr y => VStr (x ++ y)
  | _, _ => VNull
  end.

(** Names that differ at most in the case of their letters: what Spark
    SQL takes for the same identifier unless [spark.sql.caseSensitive] is
    set. *)
Definition lower (a : ascii) : ascii :=
  let n := nat_of_ascii a in
  if (65 <=? n)%nat && (n <=? 90)%nat then ascii_of_nat (n + 32) else a.

Fixpoint lower_name (s : string) : string :=
  match s with
  | EmptyString => EmptyString
  | String a s' => String (lower a) (lower_name s')
  end.

Definition same_name (a b : string) : bool :=
  String.eqb (lower_name a) (lower_name b).

(** Names of seven-bit characters, on which the comparison above is the
    whole of Spark's. *)
Definition plain_name (s : string) : bool :=
  forallb (fun a => (nat_of_ascii a <? 128)%nat) (list_ascii_of_string s).

(** The cells of the column [name], row by row; the analyzer rejects a
    name the relation does not have. *)
Fixpoint cell (name : string) (cols : list string) (row : list value) : value :=
  match cols, row with
  | c :: cols', v :: row' => if String.eqb c name then v else cell name cols' row'
  | _, _ => VNull
  end.

(** [col] finds a column by its name as written, which is how
    [name in result.columns] compares names.  A SQL statement also accepts
    a name that differs in the case of its letters: what is stated about
    a view on a table that lacks a column asks that no column has the name
    in any case ([same_name]). *)
Definition col (name : string) (df : DataFrame) : result (list value) :=
  if bool_decide (name ∈ columns df)
  then Ok (map (cell name (columns df)) (rows df))
  else Raise AnalysisException.

(** Rows from the series of a select list. *)
Definition select (names : list string) (series : list (list value)) (n : nat)
  : DataFrame :=
  {| columns := names;
     rows := map (fun i => map (fun c => nth i c VNull) series) (seq 0 n) |}.

(** [df.drop(name)]. *)
Fixpoint drop_cells (name : string) (cols : list string) (row : list value)
  : list value :=
  match cols, row with
  | c :: cols', v :: row' =>
    if String.eqb c name then drop_cells name cols' row'
    else v :: drop_cells name cols' row'
  | _, _ => row
  end.

Definition drop (name : string) (df : DataFrame) : DataFrame :=
  {| columns := filter (fun c => c ≠ name) (columns df);
     rows := map (drop_cells name (columns df)) (rows df) |}.

End Spark.
Export Spark.

(** ** The notebook *)

(** [int(time.time())] and [os.urandom(16)], as the n-th call returns
    them.  The state threaded through the pipeline is the number of calls
    made so far. *)
Record World : Type := { clock : nat → Z; urandom : nat → bytes }.

Definition world_ok (w : World) : Prop :=
  ∀ n, 0 <= clock w n < 2 ^ 64
       ∧ List.length (urandom w n) = 16%nat ∧ bytes_ok (urandom w n) = true.

Definition io (A : Type) : Type := nat → result (A * nat).

#[global] Instance io_ret : MRet io := fun _ a n => Ok (a, n).
#[global] Instance io_bind : MBind io := fun _ _ f m n =>
  match m n with
  | Ok (a, n') => f a n'
  | Raise e => Raise e
  end.

(** Lines 86-93: the placeholder guard and [Fernet(key.encode("utf-8"))]. *)
Definition make_FERNET (ENCRYPTION_KEY : str) : result Fernet.t :=
  if bool_decide (ENCRYPTION_KEY = py "CHANGE_ME_WITH_A_REAL_FERNET_KEY")
  then Raise ValueError
  else key ← Utf8.encode ENCRYPTION_KEY; Fernet.new key.

Definition ENCRYPT_COLUMNS : list string := ["full_name"; "email"; "phone"]%string.
Definition HASH_COLUMNS : list string := ["national_id"]%string.
Definition DROP_COLUMNS : list string := [].

(** [FERNET.encrypt(data)] at a given time and IV. *)
Definition encrypt_value_at (FERNET : Fernet.t) (now : Z) (iv : bytes)
    (value : Spark.value) : result Spark.value :=
  match value with
  | VNull => Ok VNull
  | VStr s =>
    data ← Utf8.encode s;
    token ← Fernet.encrypt_from_parts FERNET data now iv;
    t ← Utf8.decode token;
    Ok (VStr t)
  | _ => Raise AttributeError
  end.

(** [encrypt_value]: the clock and the random source are read once per
    non-null value. *)
Definition encrypt_value (FERNET : Fernet.t) (w : World) (value : Spark.value)
  : io Spark.value :=
  fun n =>
    match value with
    | VNull => Ok (VNull, n)
    | _ =>
      match encrypt_value_at FERNET (clock w n) (urandom w n) value with
      | Ok v => Ok (v, S n)
      | Raise e => Raise e
      end
    end.

(** [result.withColumn(name, f(col(name)))] for a column the frame has:
    the cells of that column are replaced in place, row after row. *)
Fixpoint update_row (name : string) (f : value → io value)
    (cols : list string) (row : list value) : io (list value) :=
  match cols, row with
  | c :: cols', v :: row' =>
    v' ← (if String.eqb c name then f v else mret v);
    r ← update_row name f cols' row';
    mret (v' :: r)
  | _, _ => mret row
  end.

Definition with_column (name : string) (f : value → io value) (df : DataFrame)
  : io DataFrame :=
  rows' ← mapM (update_row name f (columns df)) (rows df);
  mret {| columns := columns df; rows := rows' |}.

Definition encrypt_step (FERNET : Fernet.t) (w : World) (df : DataFrame)
    (name : string) : io DataFrame :=
  if bool_decide (name ∈ columns df)
  then with_column name (encrypt_value FERNET w) df
  else mret df.

(** [sha2(col(name).cast("string"), 256)] on one cell. *)
Definition hash_value (v : value) : result value := sha2_256 (cast_string v).

Definition hash_step (df : DataFrame) (name : string) : io DataFrame :=
  if bool_decide (name ∈ columns df)
  then with_column name (fun v n => v' ← hash_value v; Ok (v', n)) df
  else mret df.

Definition drop_step (df : DataFrame) (name : string) : io DataFrame :=
  if bool_decide (name ∈ columns df)
  then mret (drop name df)
  else mret df.

Fixpoint for_each {A} (step : DataFrame → A → io DataFrame) (names : list A)
    (df : DataFrame) : io DataFrame :=
  match names with
  | [] => mret df
  | name :: names' => r ← step df name; for_each step names' r
  end.

(** [apply_pii_policy] over explicit column lists. *)
Definition apply_pii_policy_with (encrypt_cols hash_cols drop_cols : list string)
    (FERNET : Fernet.t) (w : World) (df : DataFrame) : io DataFrame :=
  r1 ← for_each (encrypt_step FERNET w) encrypt_cols df;
  r2 ← for_each hash_step hash_cols r1;
  for_each drop_step drop_cols r2.

Definition apply_pii_policy : Fernet.t → World → DataFrame → io DataFrame :=
  apply_pii_policy_with ENCRYPT_COLUMNS HASH_COLUMNS DROP_COLUMNS.

(** Cells [encrypt_value] accepts (null or text) and cells [sha2] of the
    string cast accepts (anything but ill-formed text), and the frames
    whose encrypt and hash columns hold only such cells. *)
Definition encryptable (v : value) : bool :=
  match v with
  | VNull => true
  | VStr s => unicode_text s
  | _ => false
  end.

Definition hashable (v : value) : bool :=
  match v with
  | VStr s => unicode_text s
  | _ => true
  end.

Definition cell_ready (enc hash : list string) (c : string) (v : value) : bool :=
  (if bool_decide (c ∈ enc) then encryptable v else true)
  && (if bool_decide (c ∈ hash) then hashable v else true).

Fixpoint row_ready (enc hash : list string) (cols : list string) (row : list value)
  : bool :=
  match cols, row with
  | c :: cols', v :: row' => cell_ready enc hash c v && row_ready enc hash cols' row'
  | _, _ => true
  end.

Definition frame_ready (enc hash : list string) (df : DataFrame) : bool :=
  forallb (row_ready enc hash (columns df)) (rows df).

(** [_decrypt_one]. *)
Definition decrypt_one (FERNET : Fernet.t) (value : Spark.value)
  : result Spark.value :=
  match value with
  | VNull => Ok VNull
  | VStr s =>
    token ← Utf8.encode s;
    data ← Fernet.decrypt FERNET token;
    t ← Utf8.decode data;
    Ok (VStr t)
  | _ => Raise AttributeError
  end.

(** [decrypt_value]: [col_series.apply(_decrypt_one)]; an exception in one
    element is the exception of the call. *)
Definition decrypt_value (FERNET : Fernet.t) (col_series : list value)
  : result (list value) :=
  mapM (decrypt_one FERNET) col_series.

(** Lines 188-193: [outputMode("append")]. A batch of the stream adds its
    rows after the rows the table holds. *)
Definition append_batch (table batch : DataFrame) : DataFrame :=
  {| columns := columns table; rows := rows table ++ rows batch |}.

(** Lines 186-193, for one micro-batch of [query]: the rows read from the
    files of the batch pass through [apply_pii_policy] and the result is
    appended to the table.  The notebook has no other write, and nothing
    in it records which files a write has covered: that is left to the
    checkpoint the stream is started with. *)
Definition query (FERNET : Fernet.t) (w : World)
    (customers_bronze source_df : DataFrame) : io DataFrame :=
  pii_safe_df ← apply_pii_policy FERNET w source_df;
  mret (append_batch customers_bronze pii_safe_df).

(** The rows of one source file reaching [query] [k] times. *)
Fixpoint attempts (FERNET : Fernet.t) (w : World) (k : nat)
    (customers_bronze source_df : DataFrame) : io DataFrame :=
  match k with
  | O => mret customers_bronze
  | S k' =>
    table ← query FERNET w customers_bronze source_df;
    attempts FERNET w k' table source_df
  end.



Definition MARKER : value := VStr (py "***").

(** [v_customers_clear]. *)
Definition v_customers_clear (FERNET : Fernet.t) (customers_bronze : DataFrame)
  : result DataFrame :=
  customer_id ← col "customer_id" customers_bronze;
  full_name ← col "full_name" customers_bronze;
  email ← col "email" customers_bronze;
  phone ← col "phone" customers_bronze;
  national_id ← col "national_id" customers_bronze;
  city ← col "city" customers_bronze;
  full_name' ← decrypt_value FERNET full_name;
  email' ← decrypt_value FERNET email;
  phone' ← decrypt_value FERNET phone;
  Ok (select ["customer_id"; "full_name"; "email"; "phone"; "national_id"; "city"]%string
        [customer_id; full_name'; email'; phone'; national_id; city]
        (List.length (rows customers_bronze))).

Definition full_name_masked (v : value) : value := concat (substr v 1 1) MARKER.
Definition email_masked (v : value) : value := concat MARKER (substr v (-10) 10).
Definition phone_masked (v : value) : value := concat MARKER (substr v (-4) 4).

(** [v_customers_masked]. *)
Definition v_customers_masked (FERNET : Fernet.t) (customers_bronze : DataFrame)
  : result DataFrame :=
  customer_id ← col "customer_id" customers_bronze;
  full_name ← col "full_name" customers_bronze;
  email ← col "email" customers_bronze;
  phone ← col "phone" customers_bronze;
  national_id ← col "national_id" customers_bronze;
  city ← col "city" customers_bronze;
  full_name' ← decrypt_value FERNET full_name;
  email' ← decrypt_value FERNET email;
  phone' ← decrypt_value FERNET phone;
  Ok (select ["customer_id"; "full_name_masked"; "email_masked"; "phone_masked";
              "national_id"; "city"]%string
        [customer_id; map full_name_masked full_name'; map email_masked email';
         map phone_masked phone'; national_id; city]
        (List.length (rows customers_bronze))).

(** ** Sample data

    The key of the Fernet specification's test vectors, a fixed clock and
    random source, and the record of the end-to-end scenario. *)
Module Sample.

Definition key : bytes := py "cw_0x689RpI-jtRR7oE8h_eQsKImvJapLeSbXpwF4e4=".

Definition other_key : bytes := py "AAAAAAAAAAAAAAAAAAAAAAAAAAAAAAAAAAAAAAAAAAA=".

Definition fernet_of (k : bytes) : Fernet.t :=
  match Fernet.new k with
  | Ok f => f
  | Raise _ => Fernet.Make [] []
  end.

Definition FERNET : Fernet.t := Eval vm_compute in fernet_of key.
Definition OTHER : Fernet.t := Eval vm_compute in fernet_of other_key.

(** A key that keeps the signing half of [key] and replaces its AES half. *)
Definition resigned_key : bytes :=
  Eval vm_compute in
    Base64.urlsafe_b64encode (Fernet.signing_key FERNET ++ Fernet.encryption_key OTHER).
Definition RESIGNED : Fernet.t := Eval vm_compute in fernet_of resigned_key.

Definition iv : bytes := [0; 1; 2; 3; 4; 5; 6; 7; 8; 9; 10; 11; 12; 13; 14; 15].

Definition world : World :=
  {| clock := fun _ => 499162800; urandom := fun _ => iv |}.

(** A random source whose draws differ from one call to the next. *)
Definition counting_world : World :=
  {| clock := fun _ => 499162800;
     urandom := fun n => repeat (Z.of_nat n mod 256) 16 |}.

Definition source_df : DataFrame :=
  {| columns := ["customer_id"; "full_name"; "email"; "phone"; "national_id"; "city"]%string;
     rows := [[VInt 1; VStr (py "Alice Smith"); VStr (py "alice@x.com");
               VStr (py "555-1234"); VStr (py "123-45-6789"); VStr (py "Paris")]] |}.

(** The table before the first batch. *)
Definition empty_table : DataFrame := {| columns := columns source_df; rows := [] |}.

(** The stored form of [source_df]. *)
Definition bronze_of (df : DataFrame) : DataFrame :=
  match apply_pii_policy FERNET world df 0%nat with
  | Ok (d, _) => d
  | Raise _ => {| columns := []; rows := [] |}
  end.

Definition customers_bronze : DataFrame := Eval vm_compute in bronze_of source_df.

(** The stored token of the scenario's [full_name], the same token with
    one character of its ciphertext changed, and a table that holds both. *)
Definition good_token : str :=
  Eval vm_compute in
    match cell "full_name" (columns customers_bronze) (hd [] (rows customers_bronze)) with
    | VStr t => t
    | _ => []
    end.

Definition tampered_token : str := Eval vm_compute in <[40%nat := 66]> good_token.

Definition corrupt_bronze : DataFrame :=
  {| columns := columns customers_bronze;
     rows := rows customers_bronze
               ++ [[VInt 2; VStr tampered_token; VNull; VNull; VNull; VNull]] |}.

Definition view_of (r : result DataFrame) : DataFrame :=
  match r with
  | Ok d => d
  | Raise _ => {| columns := []; rows := [] |}
  end.

Definition clear_view : DataFrame :=
  Eval vm_compute in view_of (v_customers_clear FERNET customers_bronze).
Definition masked_view : DataFrame :=
  Eval vm_compute in view_of (v_customers_masked FERNET customers_bronze).




(** The scenario record under a policy that names [email] in both the
    encrypt and the hash list. *)
Definition hashed_tokens : DataFrame :=
  Eval vm_compute in
    match apply_pii_policy_with ["full_name"; "email"; "phone"]%string
            ["national_id"; "email"]%string [] FERNET world source_df 0%nat with
    | Ok (d, _) => d
    | Raise _ => empty_table
    end.

End Sample.

(** * Facts *)

(** ** Arithmetic helpers *)

Ltac zlia := Z.div_mod_to_equations; lia.

(** Decide the comparisons of the goal by arithmetic. *)
Ltac ztest :=
  repeat match goal with
  | |- context [Z.ltb ?a ?b] =>
    first [ replace (Z.ltb a b) with true by (symmetry; apply Z.ltb_lt; zlia)
          | replace (Z.ltb a b) with false by (symmetry; apply Z.ltb_ge; zlia) ]
  | |- context [Z.leb ?a ?b] =>
    first [ replace (Z.leb a b) with true by (symmetry; apply Z.leb_le; zlia)
          | replace (Z.leb a b) with false by (symmetry; apply Z.leb_gt; zlia) ]
  | |- context [Z.eqb ?a ?b] =>
    first [ replace (Z.eqb a b) with true by (symmetry; apply Z.eqb_eq; zlia)
          | replace (Z.eqb a b) with false by (symmetry; apply Z.eqb_neq; zlia) ]
  end.

Lemma is_byte_range (b : Z) : is_byte b = true ↔ 0 <= b < 256.
Proof. unfold is_byte. rewrite andb_true_iff, Z.leb_le, Z.ltb_lt. tauto. Qed.

Lemma bytes_ok_app (a b : bytes) :
  bytes_ok (a ++ b) = bytes_ok a && bytes_ok b.
Proof. apply forallb_app. Qed.

Lemma bytes_ok_cons (x : Z) (l : bytes) :
  bytes_ok (x :: l) = is_byte x && bytes_ok l.
Proof. reflexivity. Qed.

(** A property checked on [0, n) holds on [0, n). *)
Lemma below_forallb (n : nat) (P : Z → bool) :
  forallb P (map Z.of_nat (seq 0 n)) = true →
  ∀ z, 0 <= z < Z.of_nat n → P z = true.
Proof.
  intros H z Hz. rewrite forallb_forall in H. apply H.
  apply in_map_iff. exists (Z.to_nat z). split; [lia|].
  apply in_seq. lia.
Qed.

Lemma result_bind_ok {A B} (m : result A) (f : A → result B) (b : B) :
  (m ≫= f) = Ok b → ∃ a, m = Ok a ∧ f a = Ok b.
Proof. destruct m as [a|e]; [eauto | discriminate]. Qed.

(** ** UTF-8 *)

Lemma decode_cons (b1 : Z) (r1 : bytes) :
  Utf8.decode (b1 :: r1) =
    if (0 <=? b1) && (b1 <? 0x80) then s ← Utf8.decode r1; Ok (b1 :: s)
    else if (0xC2 <=? b1) && (b1 <=? 0xDF) then
      match r1 with
      | b2 :: r2 =>
        if Utf8.cont b2
        then s ← Utf8.decode r2; Ok ((b1 - 0xC0) * 0x40 + (b2 - 0x80) :: s)
        else Raise UnicodeDecodeError
      | _ => Raise UnicodeDecodeError
      end
    else if (0xE0 <=? b1) && (b1 <=? 0xEF) then
      match r1 with
      | b2 :: b3 :: r3 =>
        let c := (b1 - 0xE0) * 0x1000 + (b2 - 0x80) * 0x40 + (b3 - 0x80) in
        if Utf8.cont b2 && Utf8.cont b3 && (0x800 <=? c)
           && negb ((0xD800 <=? c) && (c <=? 0xDFFF))
        then s ← Utf8.decode r3; Ok (c :: s)
        else Raise UnicodeDecodeError
      | _ => Raise UnicodeDecodeError
      end
    else if (0xF0 <=? b1) && (b1 <=? 0xF4) then
      match r1 with
      | b2 :: b3 :: b4 :: r4 =>
        let c := (b1 - 0xF0) * 0x40000 + (b2 - 0x80) * 0x1000
                 + (b3 - 0x80) * 0x40 + (b4 - 0x80) in
        if Utf8.cont b2 && Utf8.cont b3 && Utf8.cont b4
           && (0x10000 <=? c) && (c <? 0x110000)
        then s ← Utf8.decode r4; Ok (c :: s)
        else Raise UnicodeDecodeError
      | _ => Raise UnicodeDecodeError
      end
    else Raise UnicodeDecodeError.
Proof. reflexivity. Qed.

Lemma is_scalar_range (c : Z) :
  is_scalar c = true ↔ 0 <= c < 0x110000 ∧ ¬ (0xD800 <= c <= 0xDFFF).
Proof.
  unfold is_scalar.
  rewrite !andb_true_iff, negb_true_iff, andb_false_iff,
    Z.leb_le, Z.ltb_lt, !Z.leb_gt. lia.
Qed.

(** One scalar value encodes to bytes that decode back to it, whatever
    follows. *)
Lemma encode_char_decode (c : Z) :
  is_scalar c = true →
  ∃ b, Utf8.encode_char c = Ok b ∧ bytes_ok b = true ∧
       ∀ r, Utf8.decode (b ++ r) = (s ← Utf8.decode r; Ok (c :: s)).
Proof.
  intros Hc. apply is_scalar_range in Hc. unfold Utf8.encode_char.
  destruct (Z.ltb_spec c 0x80); [|destruct (Z.ltb_spec c 0x800);
    [|destruct (Z.ltb_spec c 0x10000)]].
  - eexists. ztest. split; [reflexivity|]. split.
    + unfold bytes_ok, is_byte. cbn [forallb]. ztest. reflexivity.
    + intros r. cbn [app]. rewrite decode_cons. ztest. reflexivity.
  - eexists. ztest. split; [reflexivity|]. split.
    + unfold bytes_ok, is_byte. cbn [forallb]. ztest. reflexivity.
    + intros r. cbn [app]. rewrite decode_cons. unfold Utf8.cont. ztest.
      cbn [andb].
      replace ((192 + c / 64 - 192) * 64 + (128 + c mod 64 - 128)) with c by zlia.
      reflexivity.
  - assert (c < 0xD800 ∨ 0xDFFF < c) as Hs by lia.
    eexists. destruct Hs; ztest; cbn [andb]; ztest;
    (split; [reflexivity|]; split;
     [ unfold bytes_ok, is_byte; cbn [forallb]; ztest; reflexivity |]);
    intros r; cbn [app]; rewrite decode_cons; unfold Utf8.cont; ztest;
      cbn [andb negb]; cbv zeta;
      replace ((224 + c / 4096 - 224) * 4096 + (128 + c / 64 mod 64 - 128) * 64
               + (128 + c mod 64 - 128)) with c by zlia;
      ztest; reflexivity.
  - eexists. ztest. cbn [andb]. ztest. split; [reflexivity|]. split.
    + unfold bytes_ok, is_byte. cbn [forallb]. ztest. reflexivity.
    + intros r. cbn [app]. rewrite decode_cons. unfold Utf8.cont. ztest.
      cbn [andb negb]. cbv zeta.
      replace ((240 + c / 262144 - 240) * 262144
               + (128 + c / 4096 mod 64 - 128) * 4096
               + (128 + c / 64 mod 64 - 128) * 64 + (128 + c mod 64 - 128))
        with c by zlia.
      ztest. reflexivity.
Qed.

Lemma utf8_roundtrip (s : str) :
  unicode_text s = true →
  ∃ b, Utf8.encode s = Ok b ∧ bytes_ok b = true ∧ Utf8.decode b = Ok s.
Proof.
  induction s as [|c s IH]; intros Hs.
  - exists []. auto.
  - cbn [unicode_text forallb] in Hs. apply andb_true_iff in Hs as [Hc Hs].
    destruct (encode_char_decode c Hc) as (b & Hb & Hok & Hdec).
    destruct (IH Hs) as (r & Hr & Hrok & Hrdec).
    exists (b ++ r). cbn [Utf8.encode]. rewrite Hb, Hr. split; [reflexivity|].
    rewrite bytes_ok_app, Hok, Hrok, Hdec, Hrdec. auto.
Qed.

Lemma ascii_decode (l : bytes) : is_ascii l = true → Utf8.decode l = Ok l.
Proof.
  induction l as [|c l IH]; intros H; [reflexivity|].
  cbn [is_ascii forallb] in H. apply andb_true_iff in H as [Hc Hl].
  rewrite decode_cons, Hc, (IH Hl). reflexivity.
Qed.

Lemma ascii_encode (l : bytes) : is_ascii l = true → Utf8.encode l = Ok l.
Proof.
  induction l as [|c l IH]; intros H; [reflexivity|].
  cbn [is_ascii forallb] in H. apply andb_true_iff in H as [Hc Hl].
  apply andb_true_iff in Hc as [H0 H1]. apply Z.leb_le in H0. apply Z.ltb_lt in H1.
  cbn [Utf8.encode]. rewrite (IH Hl). unfold Utf8.encode_char. ztest. reflexivity.
Qed.

(** ** Base64 *)

Lemma list_ind3 {A} (P : list A → Prop) :
  P [] → (∀ a, P [a]) → (∀ a b, P [a; b]) →
  (∀ a b c l, P l → P (a :: b :: c :: l)) → ∀ l, P l.
Proof.
  intros H0 H1 H2 H3.
  fix IH 1. intros [|a [|b [|c l]]];
    [apply H0 | apply H1 | apply H2 | apply H3, IH].
Qed.

(** Every sextet has a seven-bit character that is not the pad and that
    the decoder's table maps back. *)
Lemma b2a_spec (n : Z) :
  0 <= n < 64 →
  Base64.b2a n ≠ Base64.PAD ∧ 0 <= Base64.b2a n < 128 ∧
  Base64.table_a2b (Base64.translate (Base64.b2a n)) = Some n.
Proof.
  intros Hn.
  pose (P := fun n => negb (Base64.b2a n =? Base64.PAD)
      && (0 <=? Base64.b2a n) && (Base64.b2a n <? 128)
      && bool_decide (Base64.table_a2b (Base64.translate (Base64.b2a n)) = Some n)).
  assert (P n = true) as HP.
  { apply (below_forallb 64); [vm_compute; reflexivity | lia]. }
  unfold P in HP. rewrite !andb_true_iff, negb_true_iff, bool_decide_eq_true in HP.
  destruct HP as [[[H1 H2] H3] H4].
  apply Z.eqb_neq in H1. apply Z.leb_le in H2. apply Z.ltb_lt in H3. auto.
Qed.

Lemma translate_pad : Base64.translate Base64.PAD = Base64.PAD.
Proof. reflexivity. Qed.

Lemma translate_not_pad (c : Z) : c ≠ Base64.PAD → Base64.translate c ≠ Base64.PAD.
Proof. unfold Base64.translate, Base64.PAD. intros. repeat case_match; lia. Qed.

(** The loop on the character of a sextet. *)
Lemma a2b_loop_sextet (q lc p : Z) (out : bytes) (n : Z) (r : bytes) :
  0 <= n < 64 →
  Base64.a2b_loop q lc p out (Base64.translate (Base64.b2a n) :: r) =
    match q with
    | 0 => Base64.a2b_loop 1 n 0 out r
    | 1 => Base64.a2b_loop 2 (n mod 16) 0 (out ++ [lc * 4 + n / 16]) r
    | 2 => Base64.a2b_loop 3 (n mod 4) 0 (out ++ [lc * 16 + n / 4]) r
    | _ => Base64.a2b_loop 0 0 0 (out ++ [lc * 64 + n]) r
    end.
Proof.
  intros Hn. destruct (b2a_spec n Hn) as (Hp & _ & Ht).
  apply translate_not_pad in Hp. apply Z.eqb_neq in Hp.
  cbn [Base64.a2b_loop]. rewrite Hp, Ht. reflexivity.
Qed.

Lemma a2b_loop_pad (q lc p : Z) (out : bytes) (r : bytes) :
  Base64.a2b_loop q lc p out (Base64.PAD :: r) =
    if (2 <=? q) && (4 <=? q + (p + 1)) then Ok out
    else Base64.a2b_loop q lc (if 2 <=? q then p + 1 else p) out r.
Proof. reflexivity. Qed.

Lemma b64_loop_roundtrip (data : bytes) :
  bytes_ok data = true →
  ∀ out, Base64.a2b_loop 0 0 0 out
           (map Base64.translate (Base64.urlsafe_b64encode data))
         = Ok (out ++ data).
Proof.
  induction data as [|a|a b|a b c l IH] using list_ind3; intros Hok out.
  - cbn. rewrite app_nil_r. reflexivity.
  - rewrite bytes_ok_cons, andb_true_iff, is_byte_range in Hok. destruct Hok as [Ha _].
    cbn [Base64.urlsafe_b64encode map]. rewrite !translate_pad.
    rewrite !a2b_loop_sextet by zlia. rewrite !a2b_loop_pad. cbn.
    do 2 f_equal. f_equal. zlia.
  - rewrite !bytes_ok_cons, !andb_true_iff, !is_byte_range in Hok.
    destruct Hok as (Ha & Hb & _).
    cbn [Base64.urlsafe_b64encode map]. rewrite !translate_pad.
    rewrite !a2b_loop_sextet by zlia. rewrite !a2b_loop_pad. cbn.
    rewrite <- app_assoc. cbn [app]. do 2 f_equal. f_equal; [zlia|]. f_equal. zlia.
  - rewrite !bytes_ok_cons, !andb_true_iff, !is_byte_range in Hok.
    destruct Hok as (Ha & Hb & Hc & Hl).
    cbn [Base64.urlsafe_b64encode map].
    rewrite !a2b_loop_sextet by zlia. rewrite (IH Hl).
    rewrite <- !app_assoc. cbn [app]. do 2 f_equal. f_equal; [zlia|].
    f_equal; [zlia|]. f_equal. zlia.
Qed.

Lemma b64_roundtrip (data : bytes) :
  bytes_ok data = true →
  Base64.urlsafe_b64decode (Base64.urlsafe_b64encode data) = Ok data.
Proof. intros H. unfold Base64.urlsafe_b64decode. apply (b64_loop_roundtrip data H []). Qed.

Lemma b64encode_ascii (data : bytes) :
  bytes_ok data = true → is_ascii (Base64.urlsafe_b64encode data) = true.
Proof.
  assert (∀ n, 0 <= n < 64 →
            (0 <=? Base64.b2a n) && (Base64.b2a n <? 128) = true) as Hs.
  { intros n Hn. destruct (b2a_spec n Hn) as (_ & H & _).
    apply andb_true_iff. rewrite Z.leb_le, Z.ltb_lt. lia. }
  induction data as [|a|a b|a b c l IH] using list_ind3; intros Hok.
  - reflexivity.
  - rewrite bytes_ok_cons, andb_true_iff, is_byte_range in Hok. destruct Hok as [Ha _].
    cbn [Base64.urlsafe_b64encode is_ascii forallb].
    rewrite !Hs by zlia. reflexivity.
  - rewrite !bytes_ok_cons, !andb_true_iff, !is_byte_range in Hok.
    destruct Hok as (Ha & Hb & _).
    cbn [Base64.urlsafe_b64encode is_ascii forallb].
    rewrite !Hs by zlia. reflexivity.
  - rewrite !bytes_ok_cons, !andb_true_iff, !is_byte_range in Hok.
    destruct Hok as (Ha & Hb & Hc & Hl).
    cbn [Base64.urlsafe_b64encode is_ascii forallb].
    rewrite !Hs by zlia. apply (IH Hl).
Qed.

(** ** SHA-256 and HMAC: shape of the digest *)

Lemma be_bytes_length (n : nat) (x : Z) : List.length (SHA256.be_bytes n x) = n.
Proof. induction n; cbn [SHA256.be_bytes List.length]; congruence. Qed.

Lemma be_bytes_ok (n : nat) (x : Z) : bytes_ok (SHA256.be_bytes n x) = true.
Proof.
  induction n as [|n IH]; [reflexivity|].
  cbn [SHA256.be_bytes]. rewrite bytes_ok_cons, IH, andb_true_r.
  apply is_byte_range. apply Z.mod_pos_bound. lia.
Qed.

Lemma sha256_length (msg : bytes) : List.length (SHA256.sha256 msg) = 32%nat.
Proof.
  unfold SHA256.sha256, SHA256.digest_of.
  rewrite !length_app, !be_bytes_length. reflexivity.
Qed.

Lemma sha256_ok (msg : bytes) : bytes_ok (SHA256.sha256 msg) = true.
Proof.
  unfold SHA256.sha256, SHA256.digest_of.
  rewrite !bytes_ok_app, !be_bytes_ok. reflexivity.
Qed.

Lemma hmac_length (key msg : bytes) :
  List.length (HMAC.hmac_sha256 key msg) = 32%nat.
Proof. apply sha256_length. Qed.

Lemma hmac_ok (key msg : bytes) : bytes_ok (HMAC.hmac_sha256 key msg) = true.
Proof. apply sha256_ok. Qed.

Lemma hex_length (l : bytes) : List.length (SHA256.hex l) = (2 * List.length l)%nat.
Proof. induction l as [|b l IH]; cbn [SHA256.hex List.length]; lia. Qed.

Lemma hex_digit_spec (n : Z) :
  0 <= n < 16 → is_hex_digit (SHA256.hex_digit n) = true.
Proof.
  apply (below_forallb 16 (fun n => is_hex_digit (SHA256.hex_digit n))).
  vm_compute. reflexivity.
Qed.

Lemma hex_digits (l : bytes) :
  bytes_ok l = true → forallb is_hex_digit (SHA256.hex l) = true.
Proof.
  induction l as [|b l IH]; intros H; [reflexivity|].
  rewrite bytes_ok_cons, andb_true_iff, is_byte_range in H. destruct H as [Hb Hl].
  cbn [SHA256.hex forallb]. rewrite !hex_digit_spec by zlia. auto.
Qed.

(** ** AES: the inverse cipher inverts the cipher *)

Lemma byte_forall (P : Z → bool) :
  forallb P (map Z.of_nat (seq 0 256)) = true →
  ∀ b, is_byte b = true → P b = true.
Proof. intros H b Hb. apply (below_forallb 256 P H). apply is_byte_range in Hb. lia. Qed.

Lemma byte_forall_eq (f g : Z → Z) :
  forallb (fun a => f a =? g a) (map Z.of_nat (seq 0 256)) = true →
  ∀ a, is_byte a = true → f a = g a.
Proof. intros H a Ha. apply Z.eqb_eq. apply (byte_forall _ H a Ha). Qed.

Lemma byte_forall2 (P : Z → Z → bool) :
  forallb (fun a => forallb (P a) (map Z.of_nat (seq 0 256)))
          (map Z.of_nat (seq 0 256)) = true →
  ∀ a b, is_byte a = true → is_byte b = true → P a b = true.
Proof.
  intros H a b Ha Hb.
  apply (byte_forall (P a)); [|exact Hb].
  apply (byte_forall (fun a => forallb (P a) (map Z.of_nat (seq 0 256))) H a Ha).
Qed.

(** Prove an equation between bytes in one byte variable by enumeration. *)
Ltac brute a Ha :=
  match goal with
  | |- ?l = ?r =>
    let f := eval pattern a in l in
    let g := eval pattern a in r in
    match f with
    | ?F a =>
      match g with
      | ?G a => exact (byte_forall_eq F G ltac:(vm_compute; reflexivity) a Ha)
      end
    end
  end.

Lemma lxor_byte (a b : Z) :
  is_byte a = true → is_byte b = true → is_byte (Z.lxor a b) = true.
Proof.
  apply (byte_forall2 (fun a b => is_byte (Z.lxor a b))). vm_compute. reflexivity.
Qed.

Lemma lxor_cancel (a b : Z) : Z.lxor (Z.lxor a b) b = a.
Proof. rewrite Z.lxor_assoc, Z.lxor_nilpotent, Z.lxor_0_r. reflexivity. Qed.

Lemma sub_byte_ok (b : Z) : is_byte b = true → is_byte (AES.sub_byte b) = true.
Proof. apply (byte_forall (fun b => is_byte (AES.sub_byte b))). vm_compute. reflexivity. Qed.

Lemma inv_sub_sub (b : Z) : is_byte b = true → AES.inv_sub_byte (AES.sub_byte b) = b.
Proof. intros Hb. brute b Hb. Qed.

Lemma xtime_ok (b : Z) : is_byte b = true → is_byte (AES.xtime b) = true.
Proof. apply (byte_forall (fun b => is_byte (AES.xtime b))). vm_compute. reflexivity. Qed.

Lemma mul3_ok (b : Z) : is_byte b = true → is_byte (AES.mul3 b) = true.
Proof. apply (byte_forall (fun b => is_byte (AES.mul3 b))). vm_compute. reflexivity. Qed.

Lemma xor4_ok (a b c d : Z) :
  is_byte a = true → is_byte b = true → is_byte c = true → is_byte d = true →
  is_byte (AES.xor4 a b c d) = true.
Proof. intros. unfold AES.xor4. auto using lxor_byte. Qed.

(** A map on bytes that commutes with xor commutes with [xor4]. *)
Lemma linear4 (m : Z → Z) :
  forallb (fun a => forallb (fun b => m (Z.lxor a b) =? Z.lxor (m a) (m b))
                      (map Z.of_nat (seq 0 256)))
          (map Z.of_nat (seq 0 256)) = true →
  ∀ a b c d,
    is_byte a = true → is_byte b = true → is_byte c = true → is_byte d = true →
    m (AES.xor4 a b c d) = AES.xor4 (m a) (m b) (m c) (m d).
Proof.
  intros H a b c d Ha Hb Hc Hd.
  assert (∀ x y, is_byte x = true → is_byte y = true →
                 m (Z.lxor x y) = Z.lxor (m x) (m y)) as L.
  { intros x y Hx Hy. apply Z.eqb_eq.
    apply (byte_forall2 (fun a b => m (Z.lxor a b) =? Z.lxor (m a) (m b)) H x y Hx Hy). }
  unfold AES.xor4. rewrite !L by auto using lxor_byte. reflexivity.
Qed.

Lemma mul9_linear4 (a b c d : Z) :
  is_byte a = true → is_byte b = true → is_byte c = true → is_byte d = true →
  AES.mul9 (AES.xor4 a b c d)
  = AES.xor4 (AES.mul9 a) (AES.mul9 b) (AES.mul9 c) (AES.mul9 d).
Proof. apply (linear4 AES.mul9). vm_compute. reflexivity. Qed.

Lemma mul11_linear4 (a b c d : Z) :
  is_byte a = true → is_byte b = true → is_byte c = true → is_byte d = true →
  AES.mul11 (AES.xor4 a b c d)
  = AES.xor4 (AES.mul11 a) (AES.mul11 b) (AES.mul11 c) (AES.mul11 d).
Proof. apply (linear4 AES.mul11). vm_compute. reflexivity. Qed.

Lemma mul13_linear4 (a b c d : Z) :
  is_byte a = true → is_byte b = true → is_byte c = true → is_byte d = true →
  AES.mul13 (AES.xor4 a b c d)
  = AES.xor4 (AES.mul13 a) (AES.mul13 b) (AES.mul13 c) (AES.mul13 d).
Proof. apply (linear4 AES.mul13). vm_compute. reflexivity. Qed.

Lemma mul14_linear4 (a b c d : Z) :
  is_byte a = true → is_byte b = true → is_byte c = true → is_byte d = true →
  AES.mul14 (AES.xor4 a b c d)
  = AES.xor4 (AES.mul14 a) (AES.mul14 b) (AES.mul14 c) (AES.mul14 d).
Proof. apply (linear4 AES.mul14). vm_compute. reflexivity. Qed.
Lemma xor4_transpose (a0 a1 a2 a3 b0 b1 b2 b3 c0 c1 c2 c3 d0 d1 d2 d3 : Z) :
  AES.xor4 (AES.xor4 a0 a1 a2 a3) (AES.xor4 b0 b1 b2 b3)
           (AES.xor4 c0 c1 c2 c3) (AES.xor4 d0 d1 d2 d3)
  = AES.xor4 (AES.xor4 a0 b0 c0 d0) (AES.xor4 a1 b1 c1 d1)
             (AES.xor4 a2 b2 c2 d2) (AES.xor4 a3 b3 c3 d3).
Proof.
  unfold AES.xor4. apply Z.bits_inj'. intros n _.
  rewrite !Z.lxor_spec. btauto.
Qed.

Lemma xor4_first (a : Z) : AES.xor4 a 0 0 0 = a.
Proof. unfold AES.xor4. rewrite !Z.lxor_0_r. reflexivity. Qed.
Lemma xor4_second (a : Z) : AES.xor4 0 a 0 0 = a.
Proof. unfold AES.xor4. rewrite !Z.lxor_0_r. reflexivity. Qed.
Lemma xor4_third (a : Z) : AES.xor4 0 0 a 0 = a.
Proof. unfold AES.xor4. rewrite !Z.lxor_0_r. reflexivity. Qed.
Lemma xor4_fourth (a : Z) : AES.xor4 0 0 0 a = a.
Proof. reflexivity. Qed.

(** InvMixColumns undoes MixColumns on one column. *)
Lemma inv_mix_column_mix (a0 a1 a2 a3 : Z) :
  is_byte a0 = true → is_byte a1 = true → is_byte a2 = true → is_byte a3 = true →
  AES.inv_mix_column
    (AES.xor4 (AES.xtime a0) (AES.mul3 a1) a2 a3)
    (AES.xor4 a0 (AES.xtime a1) (AES.mul3 a2) a3)
    (AES.xor4 a0 a1 (AES.xtime a2) (AES.mul3 a3))
    (AES.xor4 (AES.mul3 a0) a1 a2 (AES.xtime a3))
  = [a0; a1; a2; a3].
Proof.
  intros H0 H1 H2 H3. unfold AES.inv_mix_column.
  rewrite !mul9_linear4, !mul11_linear4, !mul13_linear4, !mul14_linear4
    by auto using xtime_ok, mul3_ok.
  f_equal; [|f_equal; [|f_equal; [|f_equal]]]; rewrite xor4_transpose.
  - transitivity (AES.xor4 a0 0 0 0); [|apply xor4_first].
    f_equal; [brute a0 H0 | brute a1 H1 | brute a2 H2 | brute a3 H3].
  - transitivity (AES.xor4 0 a1 0 0); [|apply xor4_second].
    f_equal; [brute a0 H0 | brute a1 H1 | brute a2 H2 | brute a3 H3].
  - transitivity (AES.xor4 0 0 a2 0); [|apply xor4_third].
    f_equal; [brute a0 H0 | brute a1 H1 | brute a2 H2 | brute a3 H3].
  - transitivity (AES.xor4 0 0 0 a3); [|apply xor4_fourth].
    f_equal; [brute a0 H0 | brute a1 H1 | brute a2 H2 | brute a3 H3].
Qed.

Ltac destruct_block s H :=
  let Hlen := fresh "Hlen" in
  let Hok := fresh "Hok" in
  unfold block_ok in H; apply andb_true_iff in H as [Hlen Hok];
  apply Nat.eqb_eq in Hlen;
  do 16 (destruct s as [|? s]; [discriminate Hlen|]);
  destruct s; [|discriminate Hlen];
  clear Hlen; cbn [bytes_ok forallb] in Hok; rewrite !andb_true_iff in Hok;
  decompose [and] Hok; clear Hok.

Ltac block_goal :=
  unfold block_ok; cbn [List.length Nat.eqb bytes_ok forallb andb];
  rewrite ?andb_true_iff; repeat split;
  repeat first [ assumption | apply lxor_byte | apply xor4_ok | apply xtime_ok
               | apply mul3_ok | apply sub_byte_ok ].

Lemma block_ok_length (s : bytes) : block_ok s = true → List.length s = 16%nat.
Proof. unfold block_ok. rewrite andb_true_iff, Nat.eqb_eq. tauto. Qed.

Lemma block_ok_bytes (s : bytes) : block_ok s = true → bytes_ok s = true.
Proof. unfold block_ok. rewrite andb_true_iff. tauto. Qed.

Lemma inv_sub_bytes_sub (s : bytes) :
  bytes_ok s = true → AES.inv_sub_bytes (AES.sub_bytes s) = s.
Proof.
  induction s as [|b s IH]; intros H; [reflexivity|].
  rewrite bytes_ok_cons, andb_true_iff in H. destruct H as [Hb Hs].
  unfold AES.inv_sub_bytes, AES.sub_bytes in *. cbn [map].
  rewrite inv_sub_sub, IH by assumption. reflexivity.
Qed.

Lemma sub_bytes_ok (s : bytes) :
  block_ok s = true → block_ok (AES.sub_bytes s) = true.
Proof. intros H. destruct_block s H. unfold AES.sub_bytes. cbn [map]. block_goal. Qed.

Lemma inv_shift_rows_shift (s : bytes) :
  block_ok s = true → AES.inv_shift_rows (AES.shift_rows s) = s.
Proof. intros H. destruct_block s H. reflexivity. Qed.

Lemma shift_rows_ok (s : bytes) :
  block_ok s = true → block_ok (AES.shift_rows s) = true.
Proof. intros H. destruct_block s H. cbn [AES.shift_rows]. block_goal. Qed.

Lemma inv_mix_columns_mix (s : bytes) :
  block_ok s = true → AES.inv_mix_columns (AES.mix_columns s) = s.
Proof.
  intros H. destruct_block s H.
  cbn [AES.mix_columns AES.mix_column app AES.inv_mix_columns].
  rewrite !inv_mix_column_mix by assumption. reflexivity.
Qed.

Lemma mix_columns_ok (s : bytes) :
  block_ok s = true → block_ok (AES.mix_columns s) = true.
Proof.
  intros H. destruct_block s H.
  cbn [AES.mix_columns AES.mix_column app]. block_goal.
Qed.

Lemma xor_bytes_cancel (s k : bytes) :
  (List.length s <= List.length k)%nat →
  AES.xor_bytes (AES.xor_bytes s k) k = s.
Proof.
  revert k. induction s as [|x s IH]; intros [|y k] H; cbn in *; try lia; auto.
  rewrite lxor_cancel, IH by lia. reflexivity.
Qed.

Lemma xor_bytes_length (s k : bytes) :
  List.length (AES.xor_bytes s k) = Nat.min (List.length s) (List.length k).
Proof.
  revert k. induction s as [|x s IH]; intros [|y k]; cbn [AES.xor_bytes List.length]; auto.
  rewrite IH. reflexivity.
Qed.

Lemma xor_bytes_bytes_ok (s k : bytes) :
  bytes_ok s = true → bytes_ok k = true → bytes_ok (AES.xor_bytes s k) = true.
Proof.
  revert k. induction s as [|x s IH]; intros [|y k] Hs Hk; cbn [AES.xor_bytes]; auto.
  rewrite bytes_ok_cons, andb_true_iff in *. destruct Hs, Hk.
  split; auto using lxor_byte.
Qed.

Lemma xor_bytes_ok (s k : bytes) :
  block_ok s = true → block_ok k = true → block_ok (AES.xor_bytes s k) = true.
Proof.
  intros Hs Hk. unfold block_ok.
  rewrite xor_bytes_length, (block_ok_length s Hs), (block_ok_length k Hk).
  apply xor_bytes_bytes_ok; auto using block_ok_bytes.
Qed.

Lemma next_key_ok (k : bytes) (rc : Z) :
  block_ok k = true → is_byte rc = true → block_ok (AES.next_key k rc) = true.
Proof. intros H Hrc. destruct_block k H. cbn [AES.next_key]. cbv zeta. block_goal. Qed.

Lemma expand_ok (rcs : list Z) :
  bytes_ok rcs = true →
  ∀ k, block_ok k = true → forallb block_ok (AES.expand k rcs) = true.
Proof.
  induction rcs as [|rc rcs IH]; intros Hr k Hk; [reflexivity|].
  rewrite bytes_ok_cons, andb_true_iff in Hr. destruct Hr as [Hrc Hr].
  cbn [AES.expand forallb]. cbv zeta.
  rewrite next_key_ok, IH by auto using next_key_ok. reflexivity.
Qed.

Lemma enc_round_ok (k s : bytes) :
  block_ok k = true → block_ok s = true → block_ok (AES.enc_round k s) = true.
Proof.
  intros Hk Hs. unfold AES.enc_round, AES.add_round_key.
  auto using xor_bytes_ok, mix_columns_ok, shift_rows_ok, sub_bytes_ok.
Qed.

Lemma enc_final_ok (k s : bytes) :
  block_ok k = true → block_ok s = true → block_ok (AES.enc_final k s) = true.
Proof.
  intros Hk Hs. unfold AES.enc_final, AES.add_round_key.
  auto using xor_bytes_ok, shift_rows_ok, sub_bytes_ok.
Qed.

Lemma dec_round_enc (k s : bytes) :
  block_ok k = true → block_ok s = true →
  AES.dec_round k (AES.enc_round k s) = s.
Proof.
  intros Hk Hs. unfold AES.dec_round, AES.enc_round, AES.add_round_key.
  assert (block_ok (AES.mix_columns (AES.shift_rows (AES.sub_bytes s))) = true) as Hm
    by auto using mix_columns_ok, shift_rows_ok, sub_bytes_ok.
  rewrite xor_bytes_cancel
    by (rewrite (block_ok_length _ Hm), (block_ok_length _ Hk); lia).
  rewrite inv_mix_columns_mix by auto using shift_rows_ok, sub_bytes_ok.
  rewrite inv_shift_rows_shift by auto using sub_bytes_ok.
  apply inv_sub_bytes_sub, block_ok_bytes, Hs.
Qed.

Lemma dec_final_enc (k s : bytes) :
  block_ok k = true → block_ok s = true →
  AES.dec_final k (AES.enc_final k s) = s.
Proof.
  intros Hk Hs. unfold AES.dec_final, AES.enc_final, AES.add_round_key.
  assert (block_ok (AES.shift_rows (AES.sub_bytes s)) = true) as Hm
    by auto using shift_rows_ok, sub_bytes_ok.
  rewrite xor_bytes_cancel
    by (rewrite (block_ok_length _ Hm), (block_ok_length _ Hk); lia).
  rewrite inv_shift_rows_shift by auto using sub_bytes_ok.
  apply inv_sub_bytes_sub, block_ok_bytes, Hs.
Qed.

Lemma enc_rounds_ok (ks : list bytes) :
  forallb block_ok ks = true →
  ∀ s, block_ok s = true → block_ok (AES.enc_rounds s ks) = true.
Proof.
  induction ks as [|k ks IH]; intros Hks s Hs; [exact Hs|].
  cbn [forallb] in Hks. apply andb_true_iff in Hks as [Hk Hks].
  destruct ks as [|k' ks'].
  - apply enc_final_ok; assumption.
  - change (block_ok (AES.enc_rounds (AES.enc_round k s) (k' :: ks')) = true).
    apply IH; auto using enc_round_ok.
Qed.

Lemma dec_rounds_enc (ks : list bytes) :
  forallb block_ok ks = true →
  ∀ s, block_ok s = true → AES.dec_rounds ks (AES.enc_rounds s ks) = s.
Proof.
  induction ks as [|k ks IH]; intros Hks s Hs; [reflexivity|].
  cbn [forallb] in Hks. apply andb_true_iff in Hks as [Hk Hks].
  destruct ks as [|k' ks'].
  - apply dec_final_enc; assumption.
  - change (AES.dec_round k
              (AES.dec_rounds (k' :: ks')
                 (AES.enc_rounds (AES.enc_round k s) (k' :: ks'))) = s).
    rewrite IH by auto using enc_round_ok. apply dec_round_enc; assumption.
Qed.

Lemma rcon_ok : bytes_ok AES.RCON = true.
Proof. reflexivity. Qed.

Lemma encrypt_block_ok (key block : bytes) :
  block_ok key = true → block_ok block = true →
  block_ok (AES.encrypt_block key block) = true.
Proof.
  intros Hk Hb. unfold AES.encrypt_block, AES.add_round_key.
  apply enc_rounds_ok; auto using expand_ok, rcon_ok, xor_bytes_ok.
Qed.

(** The AES-128 inverse cipher inverts the cipher on every block. *)
Lemma decrypt_block_encrypt (key block : bytes) :
  block_ok key = true → block_ok block = true →
  AES.decrypt_block key (AES.encrypt_block key block) = block.
Proof.
  intros Hk Hb. unfold AES.decrypt_block, AES.encrypt_block, AES.add_round_key.
  rewrite dec_rounds_enc by auto using expand_ok, rcon_ok, xor_bytes_ok.
  apply xor_bytes_cancel.
  rewrite (block_ok_length _ Hk), (block_ok_length _ Hb). lia.
Qed.

(** ** CBC mode and PKCS7 padding *)

Lemma bytes_ok_firstn (n : nat) (l : bytes) :
  bytes_ok l = true → bytes_ok (firstn n l) = true.
Proof.
  intros H. rewrite <- (take_drop n l), bytes_ok_app, andb_true_iff in H. tauto.
Qed.

Lemma bytes_ok_skipn (n : nat) (l : bytes) :
  bytes_ok l = true → bytes_ok (skipn n l) = true.
Proof.
  intros H. rewrite <- (take_drop n l), bytes_ok_app, andb_true_iff in H. tauto.
Qed.

Lemma bytes_ok_repeat (x : Z) (n : nat) :
  is_byte x = true → bytes_ok (repeat x n) = true.
Proof. intros H. induction n; cbn [repeat]; rewrite ?bytes_ok_cons, ?H; auto. Qed.

Lemma cbc_encrypt_step (f : nat) (key prev data : bytes) :
  data ≠ [] →
  CBC.encrypt (S f) key prev data =
    AES.encrypt_block key (AES.xor_bytes (firstn 16 data) prev)
      ++ CBC.encrypt f key
           (AES.encrypt_block key (AES.xor_bytes (firstn 16 data) prev))
           (skipn 16 data).
Proof. destruct data; [congruence | reflexivity]. Qed.

Lemma cbc_decrypt_step (f : nat) (key prev data : bytes) :
  data ≠ [] →
  CBC.decrypt (S f) key prev data =
    AES.xor_bytes (AES.decrypt_block key (firstn 16 data)) prev
      ++ CBC.decrypt f key (firstn 16 data) (skipn 16 data).
Proof. destruct data; [congruence | reflexivity]. Qed.

Lemma cbc_nil (f : nat) (key prev : bytes) :
  CBC.encrypt f key prev [] = [] ∧ CBC.decrypt f key prev [] = [].
Proof. destruct f; auto. Qed.

(** CBC decryption inverts CBC encryption on whole blocks, given fuel for
    each block on both sides. *)
Lemma cbc_roundtrip (key : bytes) (n : nat) :
  block_ok key = true →
  ∀ (data prev : bytes) (f f' : nat),
    List.length data = (16 * n)%nat → bytes_ok data = true →
    block_ok prev = true → (n <= f)%nat → (n <= f')%nat →
    CBC.decrypt f' key prev (CBC.encrypt f key prev data) = data
    ∧ List.length (CBC.encrypt f key prev data) = List.length data
    ∧ bytes_ok (CBC.encrypt f key prev data) = true.
Proof.
  intros Hk. induction n as [|n IH]; intros data prev f f' Hlen Hok Hp Hf Hf'.
  - destruct data; [|discriminate].
    destruct (cbc_nil f key prev) as [-> _].
    destruct (cbc_nil f' key prev) as [_ ->]. auto.
  - destruct f as [|f]; [lia|]. destruct f' as [|f']; [lia|].
    assert (data ≠ []) as Hne by (intros ->; discriminate).
    rewrite cbc_encrypt_step by assumption.
    set (p := AES.xor_bytes (firstn 16 data) prev).
    assert (block_ok (firstn 16 data) = true) as Hfst.
    { unfold block_ok. rewrite length_take, Hlen, bytes_ok_firstn by assumption.
      replace (16 `min` (16 * S n))%nat with 16%nat by lia. reflexivity. }
    assert (block_ok p = true) as Hpok by (apply xor_bytes_ok; assumption).
    set (c := AES.encrypt_block key p).
    assert (block_ok c = true) as Hc by (apply encrypt_block_ok; assumption).
    pose proof (block_ok_length c Hc) as Hclen.
    destruct (IH (skipn 16 data) c f f') as (Hd & Hl & Hb);
      [rewrite length_drop; lia | apply bytes_ok_skipn; assumption
      | assumption | lia | lia |].
    assert (c ++ CBC.encrypt f key c (skipn 16 data) ≠ []) as Hne'.
    { destruct c; [discriminate Hclen | discriminate]. }
    rewrite cbc_decrypt_step by assumption.
    pose proof (take_app_length c (CBC.encrypt f key c (skipn 16 data))) as Ht.
    pose proof (drop_app_length c (CBC.encrypt f key c (skipn 16 data))) as Hdr.
    rewrite Hclen in Ht, Hdr. rewrite Ht, Hdr, Hd.
    unfold c at 1. rewrite decrypt_block_encrypt by assumption.
    unfold p. rewrite xor_bytes_cancel
      by (rewrite (block_ok_length _ Hfst), (block_ok_length _ Hp); lia).
    rewrite take_drop. split; [reflexivity|]. split.
    + rewrite length_app, Hl, Hclen, length_drop. lia.
    + rewrite bytes_ok_app, Hb, (block_ok_bytes c Hc). reflexivity.
Qed.

Lemma pad_length (data : bytes) :
  ∃ n, List.length (CBC.pad data) = (16 * S n)%nat.
Proof.
  unfold CBC.pad, CBC.block_len. rewrite length_app, repeat_length.
  exists (List.length data / 16)%nat.
  pose proof (Nat.div_mod_eq (List.length data) 16).
  pose proof (Nat.mod_upper_bound (List.length data) 16). lia.
Qed.

Lemma pad_ok (data : bytes) : bytes_ok data = true → bytes_ok (CBC.pad data) = true.
Proof.
  intros H. unfold CBC.pad, CBC.block_len. rewrite bytes_ok_app, H.
  apply bytes_ok_repeat, is_byte_range.
  pose proof (Nat.mod_upper_bound (List.length data) 16). lia.
Qed.

Lemma last_repeat (x : Z) (n : nat) (l : bytes) :
  (0 < n)%nat → List.last (l ++ repeat x n) 0 = x.
Proof.
  intros Hn. destruct n as [|n]; [lia|].
  cbn [repeat]. rewrite repeat_cons, app_assoc. apply last_last.
Qed.

Lemma forallb_repeat (x : Z) (n : nat) : forallb (Z.eqb x) (repeat x n) = true.
Proof. induction n; cbn [repeat forallb]; rewrite ?Z.eqb_refl; auto. Qed.

(** Unpadding removes what padding added. *)
Lemma unpad_pad (data : bytes) : CBC.unpad (CBC.pad data) = Some data.
Proof.
  destruct (pad_length data) as [k Hk]. unfold CBC.unpad. rewrite Hk.
  unfold CBC.block_len.
  replace ((16 * S k) mod 16)%nat with 0%nat
    by (symmetry; rewrite Nat.mul_comm; apply Nat.Div0.mod_mul).
  cbn [Nat.eqb orb negb].
  replace (16 * S k =? 0)%nat with false by (symmetry; apply Nat.eqb_neq; lia).
  cbn [orb].
  unfold CBC.pad, CBC.block_len in *. set (n := (16 - List.length data mod 16)%nat) in *.
  assert (1 <= n <= 16)%nat as Hn.
  { pose proof (Nat.mod_upper_bound (List.length data) 16). lia. }
  rewrite last_repeat by lia.
  unfold take_last, drop_last.
  rewrite length_app, repeat_length, Nat2Z.id.
  replace (List.length data + n - n)%nat with (List.length data) by lia.
  rewrite drop_app_length, take_app_length, forallb_repeat.
  ztest. reflexivity.
Qed.

(** ** Fernet *)

Lemma table_a2b_range (c v : Z) : Base64.table_a2b c = Some v → 0 <= v < 64.
Proof.
  unfold Base64.table_a2b. intros H.
  repeat match type of H with
  | (if ?b then _ else _) = _ => destruct b eqn:?
  end; inversion H; subst;
  rewrite ?andb_true_iff, ?Z.leb_le, ?Z.eqb_eq in *; lia.
Qed.

(** The decoder only produces bytes. *)
Lemma a2b_loop_ok (l : bytes) :
  ∀ q lc p out res,
    bytes_ok out = true →
    q = 0 ∨ (q = 1 ∧ 0 <= lc < 64) ∨ (q = 2 ∧ 0 <= lc < 16) ∨ (q = 3 ∧ 0 <= lc < 4) →
    Base64.a2b_loop q lc p out l = Ok res → bytes_ok res = true.
Proof.
  induction l as [|c r IH]; intros q lc p out res Hout Hq H; cbn [Base64.a2b_loop] in H.
  - destruct (q =? 0); congruence.
  - destruct (c =? Base64.PAD).
    + destruct ((2 <=? q) && (4 <=? q + (p + 1))); [congruence|].
      eapply IH; eauto.
    + destruct (Base64.table_a2b c) as [v|] eqn:Hv; [|eapply IH; eauto].
      apply table_a2b_range in Hv.
      destruct Hq as [-> | [[-> Hlc] | [[-> Hlc] | [-> Hlc]]]];
        (eapply IH; [| |exact H]);
        rewrite ?bytes_ok_app, ?Hout; cbn [bytes_ok forallb andb];
        rewrite ?andb_true_r; try (apply is_byte_range; zlia);
        try (right; left; split; [reflexivity|zlia]);
        try (right; right; left; split; [reflexivity|zlia]);
        try (right; right; right; split; [reflexivity|zlia]); auto.
Qed.

Lemma b64decode_ok (l res : bytes) :
  Base64.urlsafe_b64decode l = Ok res → bytes_ok res = true.
Proof. apply a2b_loop_ok; auto. Qed.

(** A Fernet built by [Fernet(key)] holds two keys of sixteen bytes. *)
Lemma fernet_new_ok (key : bytes) (f : Fernet.t) :
  Fernet.new key = Ok f →
  block_ok (Fernet.signing_key f) = true ∧ block_ok (Fernet.encryption_key f) = true.
Proof.
  unfold Fernet.new. destruct (Base64.urlsafe_b64decode key) as [k|] eqn:Hk; [|discriminate].
  destruct (Nat.eqb_spec (List.length k) 32) as [Hlen|]; [|discriminate].
  intros [= <-]. cbn [Fernet.signing_key Fernet.encryption_key].
  apply b64decode_ok in Hk. unfold block_ok.
  rewrite length_take, length_drop, Hlen, bytes_ok_firstn, bytes_ok_skipn by assumption.
  split; reflexivity.
Qed.

Lemma get_unverified_ok (token data : bytes) :
  Base64.urlsafe_b64decode token = Ok (0x80 :: data) →
  (8 <= List.length data)%nat →
  Fernet.get_unverified_token_data token = Ok (0x80 :: data).
Proof.
  intros H Hl. unfold Fernet.get_unverified_token_data. rewrite H.
  cbn [Z.eqb Pos.eqb negb List.length].
  replace (S (List.length data) <? 9)%nat with false
    by (symmetry; apply Nat.ltb_ge; lia).
  reflexivity.
Qed.

(** [decrypt] recovers the data of a token made by [_encrypt_from_parts]
    under the same key, and the token is made of seven-bit characters. *)
Lemma fernet_roundtrip (f : Fernet.t) (data : bytes) (now : Z) (iv : bytes) :
  block_ok (Fernet.encryption_key f) = true →
  bytes_ok data = true → 0 <= now < 2 ^ 64 → block_ok iv = true →
  ∃ token, Fernet.encrypt_from_parts f data now iv = Ok token
           ∧ is_ascii token = true
           ∧ Fernet.decrypt f token = Ok data.
Proof.
  intros Hk Hd Hnow Hiv.
  pose proof (block_ok_length iv Hiv) as Hivlen.
  destruct (pad_length data) as [k Hpad].
  destruct (cbc_roundtrip (Fernet.encryption_key f) (S k) Hk (CBC.pad data) iv
              (List.length (CBC.pad data)) (List.length (CBC.pad data)))
    as (Hrt & Hctlen & Hctok);
    [assumption | apply pad_ok; assumption | assumption | lia | lia |].
  unfold Fernet.encrypt_from_parts, Fernet.to_bytes8.
  rewrite Hivlen. cbn [Nat.eqb negb]. ztest. cbn [andb mbind result_bind].
  set (ct := CBC.encrypt (List.length (CBC.pad data)) (Fernet.encryption_key f) iv
               (CBC.pad data)) in *.
  set (hd := 128 :: SHA256.be_bytes 8 now).
  change (128 :: SHA256.be_bytes 8 now ++ iv ++ ct) with (hd ++ iv ++ ct).
  set (basic := hd ++ iv ++ ct).
  set (h := HMAC.hmac_sha256 (Fernet.signing_key f) basic).
  assert (List.length hd = 9%nat) as Hhd.
  { unfold hd. cbn [List.length]. rewrite be_bytes_length. reflexivity. }
  assert (List.length h = 32%nat) as Hh by apply hmac_length.
  assert (bytes_ok (basic ++ h) = true) as Hok.
  { unfold basic, hd. rewrite !bytes_ok_app, bytes_ok_cons, be_bytes_ok, Hctok.
    rewrite (block_ok_bytes iv Hiv). unfold h. rewrite hmac_ok. reflexivity. }
  eexists. split; [reflexivity|]. split; [apply b64encode_ascii; assumption|].
  assert (Fernet.get_unverified_token_data
            (Base64.urlsafe_b64encode (basic ++ h)) = Ok (basic ++ h)) as Hg.
  { apply (get_unverified_ok _ ((SHA256.be_bytes 8 now ++ iv ++ ct) ++ h)).
    - exact (b64_roundtrip _ Hok).
    - rewrite !length_app, be_bytes_length. lia. }
  unfold Fernet.decrypt. rewrite Hg. cbn [mbind result_bind].
  unfold Fernet.decrypt_data, Fernet.verify_signature, drop_last, take_last.
  rewrite length_app, Hh.
  replace (List.length basic + 32 - 32)%nat with (List.length basic) by lia.
  rewrite take_app_length, drop_app_length.
  unfold bytes_eqb. rewrite bool_decide_eq_true_2 by reflexivity. cbn [negb].
  assert (slice 9 25 (basic ++ h) = iv) as ->.
  { unfold slice, basic. rewrite <- !app_assoc.
    pose proof (drop_app_length hd (iv ++ ct ++ h)) as Hdr. rewrite Hhd in Hdr.
    rewrite Hdr. change (25 - 9)%nat with 16%nat. rewrite <- Hivlen.
    apply take_app_length. }
  assert (skipn 25 basic = ct) as ->.
  { unfold basic. rewrite app_assoc.
    replace 25%nat with (List.length (hd ++ iv)) by (rewrite length_app; lia).
    apply drop_app_length. }
  rewrite Hivlen, Hctlen, Hpad. cbn [Nat.eqb negb].
  replace ((16 * S k) mod 16)%nat with 0%nat
    by (symmetry; rewrite Nat.mul_comm; apply Nat.Div0.mod_mul).
  cbn [Nat.eqb negb]. rewrite <- Hpad, Hrt, unpad_pad. reflexivity.
Qed.

(** ** Spark column functions *)

Lemma py_unicode (s : string) : unicode_text (py s) = true.
Proof.
  unfold py, unicode_text. rewrite forallb_forall. intros c Hc.
  apply in_map_iff in Hc as (a & <- & _).
  pose proof (nat_ascii_bounded a). apply is_scalar_range. lia.
Qed.

Lemma substr_prefix (s : str) (n : Z) :
  0 <= n → substr (VStr s) 1 n = VStr (firstn (Z.to_nat n) s).
Proof.
  intros Hn. unfold substr, substringSQL, substring. cbn [cast_string].
  ztest. destruct (Z.leb_spec (1 - 1 + n) (1 - 1)).
  - replace n with 0 by lia. reflexivity.
  - rewrite Z.max_id. cbn [Z.to_nat]. rewrite drop_0. do 2 f_equal. lia.
Qed.

Lemma substr_suffix (s : str) (n : Z) :
  0 < n → substr (VStr s) (- n) n = VStr (take_last (Z.to_nat n) s).
Proof.
  intros Hn. unfold substr, substringSQL, substring, take_last. cbn [cast_string].
  ztest. f_equal.
  destruct (Z.le_ge_cases (Z.of_nat (List.length s)) n) as [Hs|Hs].
  - rewrite Z.max_r by lia. cbn [Z.to_nat].
    replace (List.length s - Z.to_nat n)%nat with 0%nat by lia.
    rewrite !drop_0. apply firstn_all2. lia.
  - rewrite Z.max_l by lia.
    replace (Z.to_nat (Z.of_nat (List.length s) + - n))
      with (List.length s - Z.to_nat n)%nat by lia.
    apply firstn_all2. rewrite length_drop. lia.
Qed.

Lemma full_name_masked_str (s : str) :
  full_name_masked (VStr s) = VStr (firstn 1 s ++ py "***").
Proof. unfold full_name_masked. rewrite substr_prefix by lia. reflexivity. Qed.

Lemma email_masked_str (s : str) :
  email_masked (VStr s) = VStr (py "***" ++ take_last 10 s).
Proof.
  unfold email_masked.
  change (substr (VStr s) (-10) 10) with (substr (VStr s) (Z.opp 10) 10).
  rewrite (substr_suffix s 10) by lia. reflexivity.
Qed.

Lemma phone_masked_str (s : str) :
  phone_masked (VStr s) = VStr (py "***" ++ take_last 4 s).
Proof.
  unfold phone_masked.
  change (substr (VStr s) (-4) 4) with (substr (VStr s) (Z.opp 4) 4).
  rewrite (substr_suffix s 4) by lia. reflexivity.
Qed.

(** * The claims *)

(** C5. Null propagation: [encrypt_value], [decrypt_value] and the SHA-256
    of the string cast map null to null under every key, the digest of the
    four-letter string "null" is not null, and the masking expressions of
    the view ([concat] of [substr] with the marker) are null on null for
    every position and length. *)
Theorem C5_null_propagation (FERNET : Fernet.t) (w : World) (n : nat) (pos len : Z) :
  encrypt_value FERNET w VNull n = Ok (VNull, n)
  ∧ decrypt_one FERNET VNull = Ok VNull
  ∧ decrypt_value FERNET [VNull] = Ok [VNull]
  ∧ hash_value VNull = Ok VNull
  ∧ hash_value (VStr (py "null")) ≠ Ok VNull
  ∧ concat (substr VNull pos len) MARKER = VNull
  ∧ concat MARKER (substr VNull pos len) = VNull
  ∧ full_name_masked VNull = VNull
  ∧ email_masked VNull = VNull
  ∧ phone_masked VNull = VNull.
Proof.
  repeat split; try reflexivity.
  unfold hash_value, sha2_256. cbn [cast_string].
  destruct (Utf8.encode (py "null")); discriminate.
Qed.

(** C10. The stored digest is a function of the string cast of the cell:
    cells with equal string renderings, such as the number 123 and the
    string "123", have the same digest; a digest that is not null is the
    64-character lower-case hexadecimal SHA-256 of the UTF-8 bytes of the
    rendering; and the digest exists for every cell whose text is
    Unicode. *)
Theorem C10_hash_of_string_cast :
  (∀ v1 v2, cast_string v1 = cast_string v2 → hash_value v1 = hash_value v2)
  ∧ hash_value (VInt 123) = hash_value (VStr (py "123"))
  ∧ (∀ v d, hash_value v = Ok d → d ≠ VNull →
       ∃ s b, cast_string v = VStr s ∧ Utf8.encode s = Ok b
              ∧ d = VStr (SHA256.hex (SHA256.sha256 b))
              ∧ List.length (SHA256.hex (SHA256.sha256 b)) = 64%nat
              ∧ forallb is_hex_digit (SHA256.hex (SHA256.sha256 b)) = true)
  ∧ (∀ v, (∀ s, v = VStr s → unicode_text s = true) → is_ok (hash_value v) = true).
Proof.
  split; [|split; [|split]].
  - intros v1 v2 H. unfold hash_value, sha2_256.
    assert (∀ v, cast_string (cast_string v) = cast_string v) as Hi
      by (intros []; reflexivity).
    rewrite !Hi, H. reflexivity.
  - reflexivity.
  - intros v d H Hd. unfold hash_value, sha2_256 in H.
    assert (cast_string (cast_string v) = cast_string v) as Hi
      by (destruct v; reflexivity).
    rewrite Hi in H.
    destruct (cast_string v) as [|s| |] eqn:Hc; try (injection H as <-; congruence).
    destruct (Utf8.encode s) as [b|] eqn:Hb; [|discriminate].
    injection H as <-. exists s, b.
    split; [reflexivity|]. split; [assumption|]. split; [reflexivity|]. split.
    + rewrite hex_length, sha256_length. reflexivity.
    + apply hex_digits, sha256_ok.
  - intros v Hv. unfold hash_value, sha2_256.
    assert (∀ s, unicode_text s = true →
              is_ok (b ← Utf8.encode s; Ok (VStr (SHA256.hex (SHA256.sha256 b)))) = true) as He.
    { intros s Hs. destruct (utf8_roundtrip s Hs) as (b & -> & _). reflexivity. }
    destruct v as [|s|n|b]; cbn [cast_string]; auto using py_unicode.
Qed.

(** The premises of C10 at the number 123 and the string "123". *)
Lemma C10_witness :
  cast_string (VInt 123) = cast_string (VStr (py "123"))
  ∧ hash_value (VInt 123) = hash_value (VStr (py "123"))
  ∧ hash_value (VInt 123)
    = Ok (VStr (py "a665a45920422f9d417e4867efdc4fb8a04a1f3fff1fa07e998e86f7f7a27ae3")).
Proof.
  split; [reflexivity|]. split.
  - apply (proj1 C10_hash_of_string_cast (VInt 123) (VStr (py "123"))). reflexivity.
  - vm_compute. reflexivity.
Defined.

(** [mapM] in the error monad: element by element. *)
Lemma mapM_ok {A B} (f : A → result B) (l : list A) (l' : list B) :
  mapM f l = Ok l' →
  List.length l' = List.length l
  ∧ ∀ i x, l !! i = Some x → ∃ y, f x = Ok y ∧ l' !! i = Some y.
Proof.
  revert l'. induction l as [|a l IH]; intros l' H.
  - injection H as <-. split; [reflexivity|]. intros i x Hx. destruct i; discriminate.
  - cbn [mapM] in H. apply result_bind_ok in H as (y & Hy & H).
    apply result_bind_ok in H as (k & Hk & H). injection H as <-.
    destruct (IH k Hk) as [Hlen Hel]. split; [cbn; congruence|].
    intros [|i] x Hx; cbn in Hx.
    + injection Hx as <-. eauto.
    + apply Hel. exact Hx.
Qed.

Lemma mapM_raise {A B} (f : A → result B) (l : list A) (i : nat) (x : A) (e : exn) :
  l !! i = Some x → f x = Raise e → is_ok (mapM f l) = false.
Proof.
  intros Hx He. destruct (mapM f l) as [l'|] eqn:H; [|reflexivity].
  destruct (mapM_ok f l l' H) as [_ Hel].
  destruct (Hel i x Hx) as (y & Hy & _). congruence.
Qed.

Lemma col_ok (name : string) (df : DataFrame) (series : list value) :
  col name df = Ok series →
  name ∈ columns df ∧ series = map (cell name (columns df)) (rows df).
Proof.
  unfold col. case_bool_decide; [|discriminate]. intros [= <-]. auto.
Qed.

Lemma select_row (names : list string) (series : list (list value)) (n i : nat) :
  (i < n)%nat →
  rows (select names series n) !! i = Some (map (fun c => nth i c VNull) series).
Proof.
  intros Hi. unfold select. cbn [rows].
  rewrite list_lookup_fmap, lookup_seq_lt by assumption. reflexivity.
Qed.

Lemma nth_lookup_some {A} (l : list A) (i : nat) (x d : A) :
  l !! i = Some x → nth i l d = x.
Proof. revert i. induction l; intros [|i] H; cbn in *; try congruence; auto. Qed.

(** C6. The masked projection: on a string the three masking expressions
    give the first character followed by the marker, and the marker
    followed by the last ten, resp. four, characters (all of them when
    the string is shorter); "Alice Smith" gives "A***"; and when the view
    evaluates, every stored record appears in it with [customer_id],
    [national_id] and [city] as stored and the three encrypted columns
    decrypted, then masked. *)
Theorem C6_masked_projection :
  (∀ s, full_name_masked (VStr s) = VStr (firstn 1 s ++ py "***")
        ∧ email_masked (VStr s) = VStr (py "***" ++ take_last 10 s)
        ∧ phone_masked (VStr s) = VStr (py "***" ++ take_last 4 s))
  ∧ full_name_masked (VStr (py "Alice Smith")) = VStr (py "A***")
  ∧ (∀ FERNET customers_bronze view,
       v_customers_masked FERNET customers_bronze = Ok view →
       columns view = ["customer_id"; "full_name_masked"; "email_masked";
                       "phone_masked"; "national_id"; "city"]%string
       ∧ List.length (rows view) = List.length (rows customers_bronze)
       ∧ ∀ i r, rows customers_bronze !! i = Some r →
           let stored name := cell name (columns customers_bronze) r in
           ∃ full_name email phone,
             decrypt_one FERNET (stored "full_name"%string) = Ok full_name
             ∧ decrypt_one FERNET (stored "email"%string) = Ok email
             ∧ decrypt_one FERNET (stored "phone"%string) = Ok phone
             ∧ rows view !! i =
                 Some [stored "customer_id"%string; full_name_masked full_name;
                       email_masked email; phone_masked phone;
                       stored "national_id"%string; stored "city"%string]).
Proof.
  split; [|split].
  - intros s. auto using full_name_masked_str, email_masked_str, phone_masked_str.
  - reflexivity.
  - intros FERNET df view H. unfold v_customers_masked in H.
    apply result_bind_ok in H as (cid & Hcid & H).
    apply result_bind_ok in H as (fn & Hfn & H).
    apply result_bind_ok in H as (em & Hem & H).
    apply result_bind_ok in H as (ph & Hph & H).
    apply result_bind_ok in H as (nid & Hnid & H).
    apply result_bind_ok in H as (city & Hcity & H).
    apply result_bind_ok in H as (fn' & Hfn' & H).
    apply result_bind_ok in H as (em' & Hem' & H).
    apply result_bind_ok in H as (ph' & Hph' & H).
    injection H as <-.
    apply col_ok in Hcid as [_ ->]. apply col_ok in Hfn as [_ ->].
    apply col_ok in Hem as [_ ->]. apply col_ok in Hph as [_ ->].
    apply col_ok in Hnid as [_ ->]. apply col_ok in Hcity as [_ ->].
    apply mapM_ok in Hfn' as [_ Hfn']. apply mapM_ok in Hem' as [_ Hem'].
    apply mapM_ok in Hph' as [_ Hph'].
    split; [reflexivity|]. split.
    { unfold select. cbn [rows]. rewrite length_map, length_seq. reflexivity. }
    intros i r Hr stored.
    destruct (Hfn' i (stored "full_name"%string)) as (a & Ha & Ha');
      [rewrite list_lookup_fmap, Hr; reflexivity|].
    destruct (Hem' i (stored "email"%string)) as (b & Hb & Hb');
      [rewrite list_lookup_fmap, Hr; reflexivity|].
    destruct (Hph' i (stored "phone"%string)) as (c & Hc & Hc');
      [rewrite list_lookup_fmap, Hr; reflexivity|].
    exists a, b, c. split; [exact Ha|]. split; [exact Hb|]. split; [exact Hc|].
    rewrite select_row by (apply lookup_lt_Some in Hr; exact Hr).
    cbn [map]. f_equal.
    assert (∀ name, nth i (map (cell name (columns df)) (rows df)) VNull = stored name)
      as Hst.
    { intros name. apply nth_lookup_some. rewrite list_lookup_fmap, Hr. reflexivity. }
    assert (∀ (m : value → value) l x, l !! i = Some x → nth i (map m l) VNull = m x)
      as Hm.
    { intros m l x Hx. apply nth_lookup_some. rewrite list_lookup_fmap, Hx. reflexivity. }
    rewrite !Hst, (Hm _ _ _ Ha'), (Hm _ _ _ Hb'), (Hm _ _ _ Hc'). reflexivity.
Qed.

(** The view of C6 evaluated on the stored form of the scenario record. *)
Lemma C6_witness :
  v_customers_masked Sample.FERNET Sample.customers_bronze = Ok Sample.masked_view
  ∧ columns Sample.masked_view
    = ["customer_id"; "full_name_masked"; "email_masked";
       "phone_masked"; "national_id"; "city"]%string
  ∧ rows Sample.masked_view !! 0%nat =
      Some [VInt 1; VStr (py "A***"); VStr (py "***lice@x.com");
            VStr (py "***1234");
            VStr (py "01a54629efb952287e554eb23ef69c52097a75aecc0e3a93ca0855ab6d7a31a0");
            VStr (py "Paris")].
Proof.
  assert (v_customers_masked Sample.FERNET Sample.customers_bronze
          = Ok Sample.masked_view) as H by (vm_compute; reflexivity).
  split; [exact H|].
  destruct (proj2 (proj2 C6_masked_projection) _ _ _ H) as (Hc & _ & _).
  split; [exact Hc | reflexivity].
Defined.







(** ** [apply_pii_policy]: what the steps leave alone *)

Lemma io_bind_ok {A B} (m : io A) (k : A → io B) (n : nat) (r : B * nat) :
  (m ≫= k) n = Ok r → ∃ a n1, m n = Ok (a, n1) ∧ k a n1 = Ok r.
Proof.
  unfold mbind, io_bind. destruct (m n) as [[a n1]|e]; [eauto | discriminate].
Qed.

Lemma io_ret_ok {A} (a b : A) (n n' : nat) :
  (mret a : io A) n = Ok (b, n') → b = a ∧ n' = n.
Proof. intros [= -> ->]. auto. Qed.

(** The series of a column: its cells row by row. *)
Lemma update_row_frame (name : string) (f : value → io value) (cols : list string) :
  ∀ row n row' n',
    update_row name f cols row n = Ok (row', n') →
    List.length row' = List.length row
    ∧ ∀ name', name' ≠ name → cell name' cols row' = cell name' cols row.
Proof.
  induction cols as [|c cols IH]; intros row n row' n' H.
  - destruct row; apply io_ret_ok in H as [-> _]; auto.
  - destruct row as [|v row]; [apply io_ret_ok in H as [-> _]; auto|].
    cbn [update_row] in H.
    apply io_bind_ok in H as (v' & n1 & Hv & H).
    apply io_bind_ok in H as (r & n2 & Hr & H).
    apply io_ret_ok in H as [-> ->].
    destruct (IH _ _ _ _ Hr) as [Hlen Hcell]. split; [cbn; congruence|].
    intros name' Hne. cbn [cell].
    destruct (String.eqb_spec c name') as [Heq|Hc]; [subst c|auto].
    destruct (String.eqb_spec name' name) as [Heq|_]; [congruence|].
    apply io_ret_ok in Hv as [-> _]. reflexivity.
Qed.

Lemma mapM_io_ok {A B} (g : A → io B) (l : list A) :
  ∀ n l' n',
    mapM g l n = Ok (l', n') →
    List.length l' = List.length l
    ∧ ∀ i x, l !! i = Some x →
        ∃ y n1 n2, g x n1 = Ok (y, n2) ∧ l' !! i = Some y.
Proof.
  induction l as [|a l IH]; intros n l' n' H.
  - apply io_ret_ok in H as [-> _]. split; [reflexivity|].
    intros i x Hx. destruct i; discriminate.
  - cbn [mapM] in H. apply io_bind_ok in H as (y & n1 & Hy & H).
    apply io_bind_ok in H as (k & n2 & Hk & H). apply io_ret_ok in H as [-> ->].
    destruct (IH _ _ _ Hk) as [Hlen Hel]. split; [cbn; congruence|].
    intros [|i] x Hx; cbn in Hx.
    + injection Hx as <-. eauto.
    + apply Hel. exact Hx.
Qed.

Lemma map_ext_lookup {A B} (f g : A → B) (l l' : list A) :
  List.length l' = List.length l →
  (∀ i x, l !! i = Some x → ∃ y, l' !! i = Some y ∧ f y = g x) →
  map f l' = map g l.
Proof.
  revert l'. induction l as [|a l IH]; intros [|b l'] Hlen H; try discriminate.
  - reflexivity.
  - destruct (H 0%nat a eq_refl) as (y & [= <-] & Hy). cbn [map]. rewrite Hy.
    f_equal. apply IH; [cbn in Hlen; lia|].
    intros i x Hx. apply (H (S i) x Hx).
Qed.

Lemma with_column_frame (name : string) (f : value → io value) (df df' : DataFrame)
    (n n' : nat) :
  with_column name f df n = Ok (df', n') →
  columns df' = columns df
  ∧ List.length (rows df') = List.length (rows df)
  ∧ ∀ name', name' ≠ name →
      map (cell name' (columns df')) (rows df') = map (cell name' (columns df)) (rows df).
Proof.
  intros H. unfold with_column in H.
  apply io_bind_ok in H as (rows' & n1 & Hr & H). apply io_ret_ok in H as [-> ->].
  cbn [columns rows]. apply mapM_io_ok in Hr as [Hlen Hel].
  split; [reflexivity|]. split; [exact Hlen|].
  intros name' Hne. apply map_ext_lookup; [exact Hlen|].
  intros i x Hx. destruct (Hel i x Hx) as (y & n2 & n3 & Hy & Hy').
  exists y. split; [exact Hy'|].
  apply (update_row_frame _ _ _ _ _ _ _ Hy). exact Hne.
Qed.

(** A loop of [withColumn] steps over [names] keeps the columns, the
    number of rows and every column that is not in [names]. *)
Lemma for_each_with_column (f : string → value → io value) (names : list string) :
  ∀ df n df' n',
    for_each (fun d name =>
                if bool_decide (name ∈ columns d) then with_column name (f name) d
                else mret d) names df n = Ok (df', n') →
    columns df' = columns df
    ∧ List.length (rows df') = List.length (rows df)
    ∧ ∀ name', name' ∉ names →
        map (cell name' (columns df')) (rows df') = map (cell name' (columns df)) (rows df).
Proof.
  induction names as [|name names IH]; intros df n df' n' H.
  - apply io_ret_ok in H as [-> _]. auto.
  - cbn [for_each] in H. apply io_bind_ok in H as (d1 & n1 & H1 & H).
    destruct (IH _ _ _ _ H) as (Hc & Hl & Hs).
    assert (columns d1 = columns df
            ∧ List.length (rows d1) = List.length (rows df)
            ∧ ∀ name', name' ≠ name →
                map (cell name' (columns d1)) (rows d1)
                = map (cell name' (columns df)) (rows df)) as (Hc1 & Hl1 & Hs1).
    { case_bool_decide.
      - apply (with_column_frame _ _ _ _ _ _ H1).
      - apply io_ret_ok in H1 as [-> _]. auto. }
    split; [congruence|]. split; [congruence|].
    intros name' Hn. apply not_elem_of_cons in Hn as [Hne Hn].
    rewrite Hs, Hs1 by assumption. reflexivity.
Qed.

Lemma cell_no_row (name : string) (cols : list string) : cell name cols [] = VNull.
Proof. destruct cols; reflexivity. Qed.

Lemma drop_cells_frame (name name' : string) (cols : list string) :
  name' ≠ name →
  ∀ row, cell name' (filter (fun c => c ≠ name) cols) (drop_cells name cols row)
         = cell name' cols row.
Proof.
  intros Hne. induction cols as [|c cols IH]; intros row.
  - destruct row; reflexivity.
  - destruct row as [|v row].
    + cbn [drop_cells]. rewrite !cell_no_row. reflexivity.
    + cbn [drop_cells cell]. rewrite filter_cons.
      destruct (String.eqb_spec c name) as [Heq|Hc].
      * subst c. rewrite decide_False by auto.
        destruct (String.eqb_spec name name'); [congruence|]. apply IH.
      * rewrite decide_True by auto. cbn [cell].
        destruct (String.eqb c name'); [reflexivity|]. apply IH.
Qed.

Lemma drop_frame (name : string) (df : DataFrame) :
  columns (drop name df) = filter (fun c => c ≠ name) (columns df)
  ∧ List.length (rows (drop name df)) = List.length (rows df)
  ∧ ∀ name', name' ≠ name →
      map (cell name' (columns (drop name df))) (rows (drop name df))
      = map (cell name' (columns df)) (rows df).
Proof.
  unfold drop. cbn [columns rows]. split; [reflexivity|].
  split; [apply length_map|].
  intros name' Hne. rewrite map_map. apply map_ext. intros row.
  apply drop_cells_frame. exact Hne.
Qed.

Lemma filter_not_in_absent (name : string) (cols : list string) :
  name ∉ cols → filter (fun c => c ≠ name) cols = cols.
Proof.
  induction cols as [|c cols IH]; intros H; [reflexivity|].
  apply not_elem_of_cons in H as [Hne H].
  rewrite filter_cons, decide_True by auto. rewrite IH by assumption. reflexivity.
Qed.

Lemma for_each_drop (names : list string) :
  ∀ df n df' n',
    for_each drop_step names df n = Ok (df', n') →
    n' = n
    ∧ columns df' = filter (fun c => c ∉ names) (columns df)
    ∧ List.length (rows df') = List.length (rows df)
    ∧ ∀ name', name' ∉ names →
        map (cell name' (columns df')) (rows df') = map (cell name' (columns df)) (rows df).
Proof.
  induction names as [|name names IH]; intros df n df' n' H.
  - apply io_ret_ok in H as [-> ->]. split; [reflexivity|]. split; [|auto].
    induction (columns df) as [|c cols IHc]; [reflexivity|].
    rewrite filter_cons, decide_True by apply not_elem_of_nil. congruence.
  - cbn [for_each] in H. apply io_bind_ok in H as (d1 & n1 & H1 & H).
    destruct (IH _ _ _ _ H) as (-> & Hc & Hl & Hs).
    assert (n1 = n ∧ columns d1 = filter (fun c => c ≠ name) (columns df)
            ∧ List.length (rows d1) = List.length (rows df)
            ∧ ∀ name', name' ≠ name →
                map (cell name' (columns d1)) (rows d1)
                = map (cell name' (columns df)) (rows df)) as (-> & Hc1 & Hl1 & Hs1).
    { unfold drop_step in H1. case_bool_decide.
      - apply io_ret_ok in H1 as [-> ->]. split; [reflexivity|]. apply drop_frame.
      - apply io_ret_ok in H1 as [-> ->]. split; [reflexivity|].
        rewrite filter_not_in_absent by assumption. auto. }
    split; [reflexivity|]. split.
    { rewrite Hc, Hc1, list_filter_filter. apply list_filter_iff.
      intros c. rewrite not_elem_of_cons. tauto. }
    split; [congruence|].
    intros name' Hn. apply not_elem_of_cons in Hn as [Hne Hn].
    rewrite Hs, Hs1 by assumption. reflexivity.
Qed.

Lemma apply_with_frame (enc hash drops : list string) (FERNET : Fernet.t)
    (w : World) (df df' : DataFrame) (n n' : nat) :
  apply_pii_policy_with enc hash drops FERNET w df n = Ok (df', n') →
  columns df' = filter (fun c => c ∉ drops) (columns df)
  ∧ List.length (rows df') = List.length (rows df)
  ∧ ∀ name, name ∉ enc → name ∉ hash → name ∉ drops →
      map (cell name (columns df')) (rows df') = map (cell name (columns df)) (rows df).
Proof.
  intros H. unfold apply_pii_policy_with in H.
  apply io_bind_ok in H as (r1 & n1 & H1 & H).
  apply io_bind_ok in H as (r2 & n2 & H2 & H3).
  apply (for_each_with_column (fun _ => encrypt_value FERNET w)) in H1 as (Hc1 & Hl1 & Hs1).
  apply (for_each_with_column (fun _ v n => v' ← hash_value v; Ok (v', n))) in H2
    as (Hc2 & Hl2 & Hs2).
  apply for_each_drop in H3 as (_ & Hc3 & Hl3 & Hs3).
  split; [congruence|]. split; [congruence|].
  intros name He Hh Hd. rewrite Hs3, Hs2, Hs1 by assumption. reflexivity.
Qed.

Lemma col_frame (name : string) (df df' : DataFrame) :
  name ∈ columns df → name ∈ columns df' →
  map (cell name (columns df')) (rows df') = map (cell name (columns df)) (rows df) →
  col name df' = col name df.
Proof.
  intros H H' Hs. unfold col. rewrite !bool_decide_eq_true_2 by assumption.
  congruence.
Qed.

(** The columns, the row count and the untouched columns of the output. *)
Lemma frame_of_policy :
  (∀ enc hash drops FERNET w df n df' n',
     apply_pii_policy_with enc hash drops FERNET w df n = Ok (df', n') →
     columns df' = filter (fun c => c ∉ drops) (columns df)
     ∧ List.length (rows df') = List.length (rows df)
     ∧ ∀ name, name ∉ enc → name ∉ hash → name ∉ drops → name ∈ columns df →
         name ∈ columns df' ∧ col name df' = col name df)
  ∧ (∀ FERNET w df n df' n',
       apply_pii_policy FERNET w df n = Ok (df', n') →
       columns df' = columns df
       ∧ List.length (rows df') = List.length (rows df)
       ∧ ∀ name, name ∉ ENCRYPT_COLUMNS → name ∉ HASH_COLUMNS → name ∈ columns df →
           col name df' = col name df).
Proof.
  assert (∀ enc hash drops FERNET w df n df' n',
     apply_pii_policy_with enc hash drops FERNET w df n = Ok (df', n') →
     columns df' = filter (fun c => c ∉ drops) (columns df)
     ∧ List.length (rows df') = List.length (rows df)
     ∧ ∀ name, name ∉ enc → name ∉ hash → name ∉ drops → name ∈ columns df →
         name ∈ columns df' ∧ col name df' = col name df) as G.
  { intros enc hash drops FERNET w df n df' n' H.
    destruct (apply_with_frame _ _ _ _ _ _ _ _ _ H) as (Hc & Hl & Hs).
    split; [exact Hc|]. split; [exact Hl|].
    intros name He Hh Hd Hin.
    assert (name ∈ columns df') as Hin'.
    { rewrite Hc. apply list_elem_of_filter. auto. }
    split; [exact Hin'|]. apply col_frame; auto. }
  split; [exact G|].
  intros FERNET w df n df' n' H.
  destruct (G _ _ _ _ _ _ _ _ _ H) as (Hc & Hl & Hs).
  split.
  { rewrite Hc. unfold DROP_COLUMNS. clear.
    induction (columns df) as [|c cols IH]; [reflexivity|].
    rewrite filter_cons, decide_True by apply not_elem_of_nil. congruence. }
  split; [exact Hl|].
  intros name He Hh Hin. apply Hs; auto. apply not_elem_of_nil.
Qed.


Ltac decide_elem := apply (bool_decide_unpack _); vm_compute; exact I.

(** C8. Frame property of [apply_pii_policy], for the shipped policy and
    for every other choice of the three lists: when the transformation
    returns, its columns are the input columns in the input order without
    the dropped ones, it has as many rows, and every column in none of
    the three lists is in the output with the cells it had in the input. *)
Theorem C8_frame_of_policy :
  (∀ enc hash drops FERNET w df n df' n',
     apply_pii_policy_with enc hash drops FERNET w df n = Ok (df', n') →
     columns df' = filter (fun c => c ∉ drops) (columns df)
     ∧ List.length (rows df') = List.length (rows df)
     ∧ ∀ name, name ∉ enc → name ∉ hash → name ∉ drops → name ∈ columns df →
         name ∈ columns df' ∧ col name df' = col name df)
  ∧ (∀ FERNET w df n df' n',
       apply_pii_policy FERNET w df n = Ok (df', n') →
       columns df' = columns df
       ∧ List.length (rows df') = List.length (rows df)
       ∧ ∀ name, name ∉ ENCRYPT_COLUMNS → name ∉ HASH_COLUMNS → name ∈ columns df →
           col name df' = col name df).
Proof. exact frame_of_policy. Qed.

(** C8 on the scenario record: [customer_id] and [city] are stored as
    read. *)
Lemma C8_witness :
  apply_pii_policy Sample.FERNET Sample.world Sample.source_df 0%nat
  = Ok (Sample.customers_bronze, 3%nat)
  ∧ columns Sample.customers_bronze = columns Sample.source_df
  ∧ col "customer_id" Sample.customers_bronze = col "customer_id" Sample.source_df
  ∧ col "city" Sample.customers_bronze = col "city" Sample.source_df.
Proof.
  assert (apply_pii_policy Sample.FERNET Sample.world Sample.source_df 0%nat
          = Ok (Sample.customers_bronze, 3%nat)) as H by (vm_compute; reflexivity).
  split; [exact H|].
  destruct (proj2 C8_frame_of_policy _ _ _ _ _ _ H) as (Hc & _ & Hs).
  split; [exact Hc|].
  split; apply Hs; decide_elem.
Defined.

(** ** Failure of decryption *)

Lemma get_unverified_raises (token : bytes) (e : exn) :
  Fernet.get_unverified_token_data token = Raise e → e = InvalidToken.
Proof.
  unfold Fernet.get_unverified_token_data.
  destruct (Base64.urlsafe_b64decode token) as [[|v data]|]; try congruence.
  destruct (negb (v =? 128)); [congruence|].
  destruct (List.length (v :: data) <? 9)%nat; congruence.
Qed.

(** A token whose signature does not verify under the key is refused. *)
Lemma decrypt_unverified (FERNET : Fernet.t) (token data : bytes) :
  Fernet.get_unverified_token_data token = Ok data →
  Fernet.verify_signature FERNET data = false →
  Fernet.decrypt FERNET token = Raise InvalidToken.
Proof.
  intros Hg Hv. unfold Fernet.decrypt. rewrite Hg. cbn [mbind result_bind].
  unfold Fernet.decrypt_data. rewrite Hv. reflexivity.
Qed.

(** What [decrypt] returns is the whole unpadded plaintext of a token
    whose signature verifies. *)
Lemma decrypt_authentic (FERNET : Fernet.t) (token p : bytes) :
  Fernet.decrypt FERNET token = Ok p →
  ∃ data,
    Fernet.get_unverified_token_data token = Ok data
    ∧ Fernet.verify_signature FERNET data = true
    ∧ CBC.unpad
        (CBC.decrypt (List.length (skipn 25 (drop_last 32 data)))
           (Fernet.encryption_key FERNET) (slice 9 25 data)
           (skipn 25 (drop_last 32 data))) = Some p.
Proof.
  unfold Fernet.decrypt. intros H. apply result_bind_ok in H as (data & Hg & H).
  exists data. split; [exact Hg|]. unfold Fernet.decrypt_data in H.
  destruct (Fernet.verify_signature FERNET data); [|discriminate].
  split; [reflexivity|]. cbn [negb] in H.
  destruct (negb (List.length (slice 9 25 data) =? 16)%nat); [discriminate|].
  destruct (negb (List.length (skipn 25 (drop_last 32 data)) mod 16 =? 0)%nat);
    [discriminate|].
  destruct (CBC.unpad _) as [u|]; [|discriminate]. congruence.
Qed.

Lemma view_clear_raises (FERNET : Fernet.t) (df : DataFrame) (name : string)
    (i : nat) (r : list value) (e : exn) :
  name ∈ ["full_name"; "email"; "phone"]%string →
  rows df !! i = Some r →
  decrypt_one FERNET (cell name (columns df) r) = Raise e →
  is_ok (v_customers_clear FERNET df) = false.
Proof.
  intros Hn Hr He. unfold v_customers_clear.
  assert (∀ nm, is_ok (decrypt_value FERNET (map (cell nm (columns df)) (rows df))) = true →
                nm ≠ name) as Hd.
  { intros nm Hok ->. unfold decrypt_value in Hok.
    rewrite (mapM_raise _ _ i (cell name (columns df) r) e) in Hok;
      [discriminate | rewrite list_lookup_fmap, Hr; reflexivity | exact He]. }
  repeat match goal with
  | |- context [col ?nm df] =>
    let H := fresh "Hc" in
    destruct (col nm df) eqn:H; [apply col_ok in H as [_ ->] | reflexivity];
    cbn [mbind result_bind]
  end.
  destruct (decrypt_value _ (map (cell "full_name"%string _) _)) eqn:H1; [|reflexivity].
  destruct (decrypt_value _ (map (cell "email"%string _) _)) eqn:H2; [|reflexivity].
  destruct (decrypt_value _ (map (cell "phone"%string _) _)) eqn:H3; [|reflexivity].
  exfalso.
  pose proof (Hd "full_name"%string) as D1. rewrite H1 in D1.
  pose proof (Hd "email"%string) as D2. rewrite H2 in D2.
  pose proof (Hd "phone"%string) as D3. rewrite H3 in D3.
  specialize (D1 eq_refl). specialize (D2 eq_refl). specialize (D3 eq_refl).
  rewrite !elem_of_cons in Hn. destruct Hn as [|[|[|Hn]]]; try congruence.
  inversion Hn.
Qed.

(** C4 as stated fails: one tampered token among the stored values makes
    the whole [decrypt_value] call and the whole clear view raise; no
    field-level marker is produced and the intact row is not returned. *)
Lemma C4_counterexample :
  decrypt_one Sample.FERNET (VStr Sample.good_token) = Ok (VStr (py "Alice Smith"))
  ∧ decrypt_one Sample.FERNET (VStr Sample.tampered_token) = Raise InvalidToken
  ∧ decrypt_value Sample.FERNET [VStr Sample.good_token; VStr Sample.tampered_token]
    = Raise InvalidToken
  ∧ v_customers_clear Sample.FERNET Sample.corrupt_bronze = Raise InvalidToken.
Proof.
  split; [vm_compute; reflexivity|]. split; [vm_compute; reflexivity|].
  split; vm_compute; reflexivity.
Qed.

(** C4, amended. Decryption never returns partial data: what [decrypt]
    returns is the whole unpadded plaintext of a token whose signature
    verifies, and a malformed token or one whose signature does not verify
    raises [InvalidToken].  The exception is not caught: one failing
    element makes [decrypt_value] raise for the whole series, and one
    failing cell of an encrypted column makes the clear view raise. *)
Theorem C4_decrypt_failure_aborts :
  (∀ FERNET token p,
     Fernet.decrypt FERNET token = Ok p →
     ∃ data,
       Fernet.get_unverified_token_data token = Ok data
       ∧ Fernet.verify_signature FERNET data = true
       ∧ CBC.unpad
           (CBC.decrypt (List.length (skipn 25 (drop_last 32 data)))
              (Fernet.encryption_key FERNET) (slice 9 25 data)
              (skipn 25 (drop_last 32 data))) = Some p)
  ∧ (∀ token e, Fernet.get_unverified_token_data token = Raise e → e = InvalidToken)
  ∧ (∀ FERNET token data,
       Fernet.get_unverified_token_data token = Ok data →
       Fernet.verify_signature FERNET data = false →
       Fernet.decrypt FERNET token = Raise InvalidToken)
  ∧ (∀ FERNET col_series i v e,
       col_series !! i = Some v → decrypt_one FERNET v = Raise e →
       is_ok (decrypt_value FERNET col_series) = false)
  ∧ (∀ FERNET customers_bronze name i r e,
       name ∈ ["full_name"; "email"; "phone"]%string →
       rows customers_bronze !! i = Some r →
       decrypt_one FERNET (cell name (columns customers_bronze) r) = Raise e →
       is_ok (v_customers_clear FERNET customers_bronze) = false).
Proof.
  split; [exact decrypt_authentic|]. split; [exact get_unverified_raises|].
  split; [exact decrypt_unverified|]. split.
  - intros FERNET l i v e Hv He. exact (mapM_raise _ l i v e Hv He).
  - exact view_clear_raises.
Qed.

(** C4 on the table with one tampered token in its second row. *)
Lemma C4_witness :
  rows Sample.corrupt_bronze !! 1%nat
  = Some [VInt 2; VStr Sample.tampered_token; VNull; VNull; VNull; VNull]
  ∧ decrypt_one Sample.FERNET (VStr Sample.tampered_token) = Raise InvalidToken
  ∧ is_ok (v_customers_clear Sample.FERNET Sample.corrupt_bronze) = false.
Proof.
  assert (decrypt_one Sample.FERNET (VStr Sample.tampered_token) = Raise InvalidToken)
    as H by (vm_compute; reflexivity).
  split; [reflexivity|]. split; [exact H|].
  apply (proj2 (proj2 (proj2 (proj2 C4_decrypt_failure_aborts)))
           Sample.FERNET Sample.corrupt_bronze "full_name"%string 1%nat
           [VInt 2; VStr Sample.tampered_token; VNull; VNull; VNull; VNull]
           InvalidToken).
  - decide_elem.
  - reflexivity.
  - exact H.
Defined.

(** ** Round trip of a value *)

Lemma is_ascii_unicode (l : bytes) : is_ascii l = true → unicode_text l = true.
Proof.
  unfold is_ascii, unicode_text. rewrite !forallb_forall. intros H c Hc.
  specialize (H c Hc). apply andb_true_iff in H as [H0 H1].
  apply Z.leb_le in H0. apply Z.ltb_lt in H1. apply is_scalar_range. lia.
Qed.

(** Encrypting a string at a time and IV gives a token that
    [_decrypt_one] turns back into the string. *)
Lemma encrypt_at_decrypt (FERNET : Fernet.t) (now : Z) (iv : bytes) (s : str) :
  block_ok (Fernet.encryption_key FERNET) = true →
  0 <= now < 2 ^ 64 → block_ok iv = true → unicode_text s = true →
  ∃ token, encrypt_value_at FERNET now iv (VStr s) = Ok (VStr token)
           ∧ is_ascii token = true
           ∧ decrypt_one FERNET (VStr token) = Ok (VStr s).
Proof.
  intros Hk Hnow Hiv Hs.
  destruct (utf8_roundtrip s Hs) as (data & Henc & Hok & Hdec).
  destruct (fernet_roundtrip FERNET data now iv Hk Hok Hnow Hiv)
    as (token & Ht & Hascii & Hd).
  exists token. unfold encrypt_value_at, decrypt_one.
  rewrite Henc. cbn [mbind result_bind]. rewrite Ht. cbn [mbind result_bind].
  rewrite (ascii_decode token Hascii). cbn [mbind result_bind].
  split; [reflexivity|]. split; [exact Hascii|].
  rewrite (ascii_encode token Hascii). cbn [mbind result_bind].
  rewrite Hd. cbn [mbind result_bind]. rewrite Hdec. reflexivity.
Qed.

(** C2. Round trip: under a key that [Fernet(key)] accepts, with the
    clock and random source of the machine, [encrypt_value] of a string of
    Unicode scalar values (the empty string included) returns a token
    that [_decrypt_one], and [decrypt_value] on a series, turn back into
    exactly that string. *)
Theorem C2_roundtrip (key : bytes) (FERNET : Fernet.t) (w : World) (n : nat) (s : str) :
  Fernet.new key = Ok FERNET → world_ok w → unicode_text s = true →
  ∃ token,
    encrypt_value FERNET w (VStr s) n = Ok (VStr token, S n)
    ∧ decrypt_one FERNET (VStr token) = Ok (VStr s)
    ∧ decrypt_value FERNET [VStr token] = Ok [VStr s].
Proof.
  intros Hkey Hw Hs. apply fernet_new_ok in Hkey as [_ Hk].
  destruct (Hw n) as (Hnow & Hlen & Hok).
  assert (block_ok (urandom w n) = true) as Hiv.
  { unfold block_ok. rewrite Hlen, Hok. reflexivity. }
  destruct (encrypt_at_decrypt FERNET (clock w n) (urandom w n) s Hk Hnow Hiv Hs)
    as (token & He & _ & Hd).
  exists token. unfold encrypt_value. rewrite He. split; [reflexivity|].
  split; [exact Hd|]. unfold decrypt_value. cbn [mapM]. rewrite Hd. reflexivity.
Qed.

Lemma sample_world_ok : world_ok Sample.world.
Proof.
  intros n. cbn [Sample.world clock urandom]. split; [|split; reflexivity].
  split; [lia|]. reflexivity.
Qed.

(** C2 at the empty string, under the sample key. *)
Lemma C2_witness :
  Fernet.new Sample.key = Ok Sample.FERNET
  ∧ unicode_text [] = true
  ∧ ∃ token,
      encrypt_value Sample.FERNET Sample.world (VStr []) 0%nat = Ok (VStr token, 1%nat)
      ∧ decrypt_one Sample.FERNET (VStr token) = Ok (VStr [])
      ∧ decrypt_value Sample.FERNET [VStr token] = Ok [VStr []].
Proof.
  assert (Fernet.new Sample.key = Ok Sample.FERNET) as H by (vm_compute; reflexivity).
  split; [exact H|]. split; [reflexivity|].
  exact (C2_roundtrip Sample.key Sample.FERNET Sample.world 0%nat [] H
           sample_world_ok eq_refl).
Defined.

(** ** Keys and tokens *)

(** The first 32 characters of a token encode the version byte, the
    timestamp and fifteen bytes of the IV: they are the same under every
    key. *)
Lemma token_header (F F' : Fernet.t) (data data' : bytes) (now : Z) (iv : bytes)
    (t t' : bytes) :
  Fernet.encrypt_from_parts F data now iv = Ok t →
  Fernet.encrypt_from_parts F' data' now iv = Ok t' →
  firstn 32 t = firstn 32 t'.
Proof.
  unfold Fernet.encrypt_from_parts. 
  destruct (Nat.eqb_spec (List.length iv) 16) as [Hlen|]; [|discriminate].
  cbn [negb]. destruct (Fernet.to_bytes8 now) as [ts|] eqn:Hts; [|discriminate].
  cbn [mbind result_bind]. intros [= <-] [= <-].
  unfold Fernet.to_bytes8 in Hts.
  destruct ((0 <=? now) && (now <? 2 ^ 64)); [|discriminate].
  injection Hts as <-. cbn [SHA256.be_bytes].
  do 16 (destruct iv as [|? iv]; [discriminate Hlen|]).
  reflexivity.
Qed.

(** C9 as stated fails: a token made under one key is refused under the
    key that replaces it. *)
Lemma C9_counterexample :
  decrypt_one Sample.FERNET (VStr Sample.good_token) = Ok (VStr (py "Alice Smith"))
  ∧ decrypt_one Sample.OTHER (VStr Sample.good_token) = Raise InvalidToken.
Proof. split; vm_compute; reflexivity. Qed.

(** ** No validation of the policy *)

Lemma with_column_no_rows (name : string) (f : value → io value)
    (cols : list string) (n : nat) :
  with_column name f {| columns := cols; rows := [] |} n
  = Ok ({| columns := cols; rows := [] |}, n).
Proof. reflexivity. Qed.

Lemma for_each_no_rows (f : string → value → io value) (names : list string)
    (cols : list string) (n : nat) :
  for_each (fun d name =>
              if bool_decide (name ∈ columns d) then with_column name (f name) d
              else mret d) names {| columns := cols; rows := [] |} n
  = Ok ({| columns := cols; rows := [] |}, n).
Proof.
  induction names as [|name names IH]; [reflexivity|].
  cbn [for_each]. unfold mbind at 1, io_bind. cbn [columns].
  case_bool_decide; [rewrite with_column_no_rows|]; apply IH.
Qed.

Lemma encrypt_no_rows (FERNET : Fernet.t) (w : World) (names cols : list string)
    (n : nat) :
  for_each (encrypt_step FERNET w) names {| columns := cols; rows := [] |} n
  = Ok ({| columns := cols; rows := [] |}, n).
Proof. exact (for_each_no_rows (fun _ => encrypt_value FERNET w) names cols n). Qed.

Lemma hash_no_rows (names cols : list string) (n : nat) :
  for_each hash_step names {| columns := cols; rows := [] |} n
  = Ok ({| columns := cols; rows := [] |}, n).
Proof.
  exact (for_each_no_rows (fun _ v n => v' ← hash_value v; Ok (v', n)) names cols n).
Qed.

Lemma for_each_drop_returns (names : list string) :
  ∀ df n, ∃ df', for_each drop_step names df n = Ok (df', n).
Proof.
  induction names as [|name names IH]; intros df n; [eexists; reflexivity|].
  cbn [for_each]. unfold mbind, io_bind, drop_step.
  case_bool_decide; apply IH.
Qed.

Lemma apply_no_rows (enc hash drops : list string) (FERNET : Fernet.t) (w : World)
    (cols : list string) (n : nat) :
  apply_pii_policy_with enc hash drops FERNET w {| columns := cols; rows := [] |} n
  = Ok ({| columns := filter (fun c => c ∉ drops) cols; rows := [] |}, n).
Proof.
  unfold apply_pii_policy_with. unfold mbind at 1, io_bind.
  rewrite encrypt_no_rows. unfold mbind at 1, io_bind. rewrite hash_no_rows.
  destruct (for_each_drop_returns drops {| columns := cols; rows := [] |} n)
    as [df' H].
  rewrite H. destruct (for_each_drop _ _ _ _ _ H) as (_ & Hc & Hl & _).
  destruct df' as [cols' rows']. cbn [columns rows] in *.
  destruct rows'; [|discriminate]. rewrite Hc. reflexivity.
Qed.

(** C3 as stated fails: with [email] in both the encrypt and the hash
    list the policy is applied, not rejected. *)
Lemma C3_counterexample :
  ("email" ∈ ["full_name"; "email"; "phone"] ∧ "email" ∈ ["national_id"; "email"])%string
  ∧ is_ok (apply_pii_policy_with ["full_name"; "email"; "phone"]%string
             ["national_id"; "email"]%string [] Sample.FERNET Sample.world
             Sample.source_df 0%nat) = true.
Proof.
  split; [split; decide_elem|]. vm_compute. reflexivity.
Qed.

(** C3, amended. The notebook has no validation step.  The shipped table
    lists each column once.  For every choice of the three lists,
    overlapping or not, [apply_pii_policy] on a frame without rows returns
    that frame without the dropped columns: nothing is rejected before a
    record is processed.  Overlap is settled by the order of the loops: a
    column in the drop list is absent from every output, whatever other
    list names it. *)
Theorem C3_no_policy_validation :
  NoDup (ENCRYPT_COLUMNS ++ HASH_COLUMNS ++ DROP_COLUMNS)
  ∧ (∀ enc hash drops FERNET w cols n,
       apply_pii_policy_with enc hash drops FERNET w {| columns := cols; rows := [] |} n
       = Ok ({| columns := filter (fun c => c ∉ drops) cols; rows := [] |}, n))
  ∧ (∀ enc hash drops FERNET w df n df' n',
       apply_pii_policy_with enc hash drops FERNET w df n = Ok (df', n') →
       ∀ c, c ∈ drops → c ∉ columns df').
Proof.
  split; [|split].
  - apply (bool_decide_unpack _). vm_compute. exact I.
  - exact apply_no_rows.
  - intros enc hash drops FERNET w df n df' n' H c Hc Hin.
    destruct (apply_with_frame _ _ _ _ _ _ _ _ _ H) as (Hcols & _).
    rewrite Hcols in Hin. apply list_elem_of_filter in Hin as [Hn _]. auto.
Qed.

(** C3 on a policy that names [email] in all three lists. *)
Lemma C3_witness :
  apply_pii_policy_with ["email"]%string ["email"]%string ["email"]%string
    Sample.FERNET Sample.world
    {| columns := ["customer_id"; "email"]%string; rows := [] |} 0%nat
  = Ok ({| columns := ["customer_id"]%string; rows := [] |}, 0%nat)
  ∧ "email"%string ∉ ["customer_id"]%string.
Proof.
  pose proof (proj1 (proj2 C3_no_policy_validation) ["email"]%string ["email"]%string
                ["email"]%string Sample.FERNET Sample.world
                ["customer_id"; "email"]%string 0%nat) as H.
  split; [exact H|].
  exact (proj2 (proj2 C3_no_policy_validation) _ _ _ _ _ _ _ _ _ H "email"%string
           ltac:(decide_elem)).
Defined.

(** ** The key guard and [Fernet(key)] *)

Lemma encode_char_raises (c : Z) (e : exn) :
  Utf8.encode_char c = Raise e → e = UnicodeEncodeError.
Proof.
  unfold Utf8.encode_char. intros Hc.
  repeat match type of Hc with
  | (if ?b then _ else _) = _ => destruct b
  end; congruence.
Qed.

Lemma encode_raises (s : str) (e : exn) :
  Utf8.encode s = Raise e → e = UnicodeEncodeError.
Proof.
  revert e. induction s as [|c s IH]; intros e H; [discriminate|].
  cbn [Utf8.encode] in H. destruct (Utf8.encode_char c) as [b|e0] eqn:Hc.
  - cbn [mbind result_bind] in H. destruct (Utf8.encode s) as [r|e1]; [discriminate|].
    injection H as <-. apply (IH e1 eq_refl).
  - injection H as <-. exact (encode_char_raises c e0 Hc).
Qed.

(** Lines 86-93. The notebook builds [FERNET] only from a key string that
    is not the placeholder and whose url-safe base64 decoding has exactly
    32 bytes, the first sixteen being the signing key and the last sixteen
    the AES key; every other key string raises, the placeholder with
    [ValueError]. *)
Theorem make_FERNET_accepts_32_bytes :
  make_FERNET (py "CHANGE_ME_WITH_A_REAL_FERNET_KEY") = Raise ValueError
  ∧ Fernet.new (py "CHANGE_ME_WITH_A_REAL_FERNET_KEY") = Raise ValueError
  ∧ (∀ K F, make_FERNET K = Ok F ↔
       K ≠ py "CHANGE_ME_WITH_A_REAL_FERNET_KEY"
       ∧ ∃ key raw, Utf8.encode K = Ok key
           ∧ Base64.urlsafe_b64decode key = Ok raw
           ∧ List.length raw = 32%nat
           ∧ F = Fernet.Make (firstn 16 raw) (skipn 16 raw))
  ∧ (∀ K F, make_FERNET K = Ok F →
       block_ok (Fernet.signing_key F) = true
       ∧ block_ok (Fernet.encryption_key F) = true)
  ∧ (∀ K e, make_FERNET K = Raise e → e = ValueError ∨ e = UnicodeEncodeError).
Proof.
  split; [reflexivity|]. split; [vm_compute; reflexivity|]. split; [|split].
  - intros K F. unfold make_FERNET, Fernet.new. split.
    + case_bool_decide as Hp; [discriminate|]. intros H.
      apply result_bind_ok in H as (key & Hk & H). split; [assumption|].
      destruct (Base64.urlsafe_b64decode key) as [raw|] eqn:Hr; [|discriminate].
      destruct (Nat.eqb_spec (List.length raw) 32); [|discriminate].
      injection H as <-. eauto 10.
    + intros (Hne & key & raw & Hk & Hr & Hl & ->).
      rewrite bool_decide_eq_false_2 by assumption. rewrite Hk.
      cbn [mbind result_bind]. rewrite Hr, Hl. reflexivity.
  - intros K F. unfold make_FERNET. case_bool_decide as Hp; [discriminate|]. intros H.
    apply result_bind_ok in H as (key & _ & H). exact (fernet_new_ok key F H).
  - intros K e. unfold make_FERNET. case_bool_decide; [intros [= <-]; auto|].
    destruct (Utf8.encode K) as [key|e'] eqn:Hk; cbn [mbind result_bind].
    + unfold Fernet.new. destruct (Base64.urlsafe_b64decode key) as [raw|];
        [destruct (List.length raw =? 32)%nat|]; intros [= <-]; auto.
    + intros [= <-]. right. exact (encode_raises K e' Hk).
Qed.

(** The guard and the constructor on the sample key. *)
Lemma make_FERNET_witness :
  make_FERNET Sample.key = Ok Sample.FERNET
  ∧ block_ok (Fernet.signing_key Sample.FERNET) = true
  ∧ block_ok (Fernet.encryption_key Sample.FERNET) = true.
Proof.
  assert (make_FERNET Sample.key = Ok Sample.FERNET) as H by (vm_compute; reflexivity).
  split; [exact H|].
  exact (proj1 (proj2 (proj2 (proj2 make_FERNET_accepts_32_bytes))) _ _ H).
Defined.

(** ** The views on a table that lacks a column *)

Lemma col_raises (name : string) (df : DataFrame) (e : exn) :
  col name df = Raise e → e = AnalysisException.
Proof. unfold col. case_bool_decide; congruence. Qed.

Lemma col_missing (name : string) (df : DataFrame) :
  name ∉ columns df → col name df = Raise AnalysisException.
Proof. intros H. unfold col. rewrite bool_decide_eq_false_2; auto. Qed.

Lemma same_name_refl (name : string) : same_name name name = true.
Proof. apply String.eqb_refl. Qed.

(** Lines 219-227 and 238-249. Both views name [customer_id],
    [full_name], [email], [phone], [national_id] and [city]. On a table
    whose column names are seven-bit and none of which is one of these
    names, whatever the case of its letters, both views raise
    [AnalysisException], before any value is decrypted. *)
Theorem views_need_their_columns (FERNET : Fernet.t) (customers_bronze : DataFrame)
    (name : string) :
  name ∈ ["customer_id"; "full_name"; "email"; "phone"; "national_id"; "city"]%string →
  (∀ c, c ∈ columns customers_bronze → plain_name c = true ∧ same_name c name = false) →
  v_customers_clear FERNET customers_bronze = Raise AnalysisException
  ∧ v_customers_masked FERNET customers_bronze = Raise AnalysisException.
Proof.
  intros Hn Hcase.
  assert (name ∉ columns customers_bronze) as Hm.
  { intros Hin. destruct (Hcase name Hin) as [_ Hs].
    rewrite same_name_refl in Hs. discriminate. }
  clear Hcase. unfold v_customers_clear, v_customers_masked.
  rewrite !elem_of_cons in Hn.
  assert (∀ nm, nm = name → col nm customers_bronze = Raise AnalysisException) as Hc
    by (intros nm ->; apply col_missing, Hm).
  assert (∀ nm, ∀ e, col nm customers_bronze = Raise e → e = AnalysisException) as Hr
    by (intros nm e; apply col_raises).
  split;
    repeat match goal with
    | |- (col ?nm customers_bronze ≫= _) = _ =>
      let H := fresh "Hcol" in
      destruct (col nm customers_bronze) eqn:H;
        [ cbn [mbind result_bind]
        | apply Hr in H; subst; reflexivity ]
    end;
    exfalso;
    destruct Hn as [Hn|[Hn|[Hn|[Hn|[Hn|[Hn|Hn]]]]]]; try (inversion Hn; fail);
    symmetry in Hn; apply Hc in Hn; congruence.
Qed.

(** The views on the stored scenario table without its [city] column. *)
Lemma views_need_their_columns_witness :
  v_customers_clear Sample.FERNET (drop "city" Sample.customers_bronze)
  = Raise AnalysisException
  ∧ v_customers_masked Sample.FERNET (drop "city" Sample.customers_bronze)
    = Raise AnalysisException.
Proof.
  apply (views_need_their_columns Sample.FERNET (drop "city" Sample.customers_bronze)
           "city"%string).
  - decide_elem.
  - apply Forall_forall. apply (bool_decide_unpack _). vm_compute. exact I.
Defined.

(** ** Shape of a token *)

Lemma b64encode_length (l : bytes) :
  List.length (Base64.urlsafe_b64encode l) = (4 * ((List.length l + 2) / 3))%nat.
Proof.
  induction l as [|a|a b|a b c l IH] using list_ind3; try reflexivity.
  cbn [Base64.urlsafe_b64encode List.length]. rewrite IH.
  replace (S (S (S (List.length l))) + 2)%nat with (1 * 3 + (List.length l + 2))%nat by lia.
  rewrite Nat.div_add_l by lia. lia.
Qed.

Lemma encode_char_ok (c : Z) (b : bytes) :
  Utf8.encode_char c = Ok b → is_scalar c = true ∧ (1 <= List.length b)%nat.
Proof.
  unfold Utf8.encode_char. intros H. rewrite is_scalar_range.
  repeat match type of H with
  | (if ?t then _ else _) = _ => destruct t eqn:?
  end; try discriminate; injection H as <-;
  rewrite ?andb_false_iff, ?Z.ltb_lt, ?Z.ltb_ge, ?Z.leb_gt in *;
  (split; [lia | cbn; lia]).
Qed.

Lemma encode_ok_unicode (s : str) (b : bytes) :
  Utf8.encode s = Ok b →
  unicode_text s = true ∧ (List.length s <= List.length b)%nat.
Proof.
  revert b. induction s as [|c s IH]; intros b H.
  - injection H as <-. auto.
  - cbn [Utf8.encode] in H. apply result_bind_ok in H as (x & Hx & H).
    apply result_bind_ok in H as (r & Hr & H). injection H as <-.
    apply encode_char_ok in Hx as [Hc Hl]. destruct (IH r Hr) as [Hs Hlen].
    cbn [unicode_text forallb]. rewrite Hc. split; [exact Hs|].
    rewrite length_app. cbn [List.length]. lia.
Qed.

Lemma pad_length_exact (data : bytes) :
  List.length (CBC.pad data) = (16 * (List.length data / 16 + 1))%nat.
Proof.
  unfold CBC.pad, CBC.block_len. rewrite length_app, repeat_length.
  pose proof (Nat.div_mod_eq (List.length data) 16).
  pose proof (Nat.mod_upper_bound (List.length data) 16). lia.
Qed.

Lemma from_bytes_acc (l : bytes) (acc : Z) :
  fold_left (fun a x => a * 256 + x) l acc
  = acc * 256 ^ Z.of_nat (List.length l) + fold_left (fun a x => a * 256 + x) l 0.
Proof.
  revert acc. induction l as [|x l IH]; intros acc.
  - cbn. lia.
  - cbn [fold_left List.length]. rewrite IH, (IH (0 * 256 + x)).
    rewrite Nat2Z.inj_succ, Z.pow_succ_r by lia. lia.
Qed.

(** [int.from_bytes] reads back what [int.to_bytes] wrote. *)
Lemma from_bytes_be (n : nat) (x : Z) :
  0 <= x → Fernet.from_bytes (SHA256.be_bytes n x) = x mod 256 ^ Z.of_nat n.
Proof.
  intros Hx. unfold Fernet.from_bytes. induction n as [|n IH].
  - cbn. rewrite Z.mod_1_r. reflexivity.
  - cbn [SHA256.be_bytes fold_left]. rewrite from_bytes_acc, be_bytes_length, IH.
    rewrite Nat2Z.inj_succ, Z.pow_succ_r by lia.
    rewrite (Z.mul_comm 256), Z.rem_mul_r by lia. lia.
Qed.

(** What [_encrypt_from_parts] returns: the base64 text of version byte,
    timestamp, IV, ciphertext and HMAC, which [urlsafe_b64decode] gives
    back. *)
Lemma encrypt_parts_shape (F : Fernet.t) (data : bytes) (now : Z) (iv : bytes) :
  block_ok (Fernet.encryption_key F) = true →
  bytes_ok data = true → 0 <= now < 2 ^ 64 → block_ok iv = true →
  ∃ ct h,
    List.length ct = (16 * (List.length data / 16 + 1))%nat
    ∧ List.length h = 32%nat
    ∧ Fernet.encrypt_from_parts F data now iv
      = Ok (Base64.urlsafe_b64encode (128 :: SHA256.be_bytes 8 now ++ iv ++ ct ++ h))
    ∧ Base64.urlsafe_b64decode
        (Base64.urlsafe_b64encode (128 :: SHA256.be_bytes 8 now ++ iv ++ ct ++ h))
      = Ok (128 :: SHA256.be_bytes 8 now ++ iv ++ ct ++ h).
Proof.
  intros Hk Hd Hnow Hiv.
  pose proof (block_ok_length iv Hiv) as Hivlen.
  destruct (pad_length data) as [k Hpad].
  destruct (cbc_roundtrip (Fernet.encryption_key F) (S k) Hk (CBC.pad data) iv
              (List.length (CBC.pad data)) (List.length (CBC.pad data)))
    as (_ & Hctlen & Hctok);
    [assumption | apply pad_ok; assumption | assumption | lia | lia |].
  set (ct := CBC.encrypt (List.length (CBC.pad data)) (Fernet.encryption_key F) iv
               (CBC.pad data)) in *.
  set (h := HMAC.hmac_sha256 (Fernet.signing_key F)
              (128 :: SHA256.be_bytes 8 now ++ iv ++ ct)).
  exists ct, h. split; [rewrite Hctlen; apply pad_length_exact|].
  split; [apply hmac_length|]. split.
  - unfold Fernet.encrypt_from_parts, Fernet.to_bytes8.
    rewrite Hivlen. cbn [Nat.eqb negb]. ztest. cbn [andb mbind result_bind].
    fold ct. fold h. do 2 f_equal. cbn [app]. rewrite <- !app_assoc. reflexivity.
  - apply b64_roundtrip.
    rewrite bytes_ok_cons, !bytes_ok_app, be_bytes_ok, Hctok, (block_ok_bytes iv Hiv).
    unfold h. rewrite hmac_ok. reflexivity.
Qed.

Lemma Ok_inj {A} (a b : A) : Ok a = Ok b → a = b.
Proof. congruence. Qed.

Lemma app_inv_length {A} (a a' b b' : list A) :
  List.length a = List.length a' → a ++ b = a' ++ b' → a = a' ∧ b = b'.
Proof. intros Hl H. apply app_inj_1; assumption. Qed.

Lemma token_parts (F : Fernet.t) (data data' : bytes) (now now' : Z)
    (iv iv' token : bytes) :
  block_ok (Fernet.encryption_key F) = true →
  bytes_ok data = true → bytes_ok data' = true →
  0 <= now < 2 ^ 64 → 0 <= now' < 2 ^ 64 →
  block_ok iv = true → block_ok iv' = true →
  Fernet.encrypt_from_parts F data now iv = Ok token →
  Fernet.encrypt_from_parts F data' now' iv' = Ok token →
  data = data' ∧ now = now' ∧ iv = iv'
  ∧ ∃ decoded, Base64.urlsafe_b64decode token = Ok decoded
               ∧ Fernet.from_bytes (slice 1 9 decoded) = now.
Proof.
  intros Hk Hd Hd' Hn Hn' Hiv Hiv' He He'.
  destruct (fernet_roundtrip F data now iv Hk Hd Hn Hiv) as (t & Ht & _ & Hdec).
  destruct (fernet_roundtrip F data' now' iv' Hk Hd' Hn' Hiv') as (t' & Ht' & _ & Hdec').
  assert (t = token) as -> by congruence. assert (t' = token) as -> by congruence.
  split; [congruence|].
  destruct (encrypt_parts_shape F data now iv Hk Hd Hn Hiv) as (ct & h & _ & _ & Hs & Hb).
  destruct (encrypt_parts_shape F data' now' iv' Hk Hd' Hn' Hiv')
    as (ct' & h' & _ & _ & Hs' & Hb').
  rewrite He in Hs. apply Ok_inj in Hs. rewrite He' in Hs'. apply Ok_inj in Hs'.
  rewrite <- Hs in Hb. rewrite <- Hs' in Hb'. rewrite Hb' in Hb. apply Ok_inj in Hb.
  apply (f_equal (skipn 1)) in Hb. cbn [skipn] in Hb. symmetry in Hb.
  apply app_inv_length in Hb as [Hts Hb]; [|rewrite !be_bytes_length; reflexivity].
  apply app_inv_length in Hb as [Hivs _];
    [|rewrite (block_ok_length _ Hiv), (block_ok_length _ Hiv'); reflexivity].
  assert (now = now') as Hnow.
  { apply (f_equal Fernet.from_bytes) in Hts.
    rewrite !from_bytes_be in Hts by lia.
    change (256 ^ Z.of_nat 8) with (2 ^ 64) in Hts.
    rewrite !Z.mod_small in Hts by lia. congruence. }
  split; [exact Hnow|]. split; [congruence|].
  eexists. split; [exact Hb'|].
  unfold slice. cbn [skipn].
  pose proof (take_app_length (SHA256.be_bytes 8 now') (iv' ++ ct' ++ h')) as Htk.
  rewrite be_bytes_length in Htk. change (9 - 1)%nat with 8%nat. rewrite drop_0, Htk.
  rewrite from_bytes_be by lia.
  change (256 ^ Z.of_nat 8) with (2 ^ 64). rewrite Z.mod_small by lia. congruence.
Qed.

(** Lines 114-120 with [Fernet.encrypt]. A token determines what it was
    made from: two encryptions under one key that return the same token
    had the same data, the same time and the same IV, so encryptions with
    different IVs never coincide; and the timestamp [Fernet] reads from the
    token is the time of encryption. *)
Theorem token_determines_parts (F : Fernet.t) (data data' : bytes) (now now' : Z)
    (iv iv' token : bytes) :
  block_ok (Fernet.encryption_key F) = true →
  bytes_ok data = true → bytes_ok data' = true →
  0 <= now < 2 ^ 64 → 0 <= now' < 2 ^ 64 →
  block_ok iv = true → block_ok iv' = true →
  Fernet.encrypt_from_parts F data now iv = Ok token →
  Fernet.encrypt_from_parts F data' now' iv' = Ok token →
  data = data' ∧ now = now' ∧ iv = iv'
  ∧ ∃ decoded, Base64.urlsafe_b64decode token = Ok decoded
               ∧ Fernet.from_bytes (slice 1 9 decoded) = now.
Proof. exact (token_parts F data data' now now' iv iv' token). Qed.

(** Two encryptions of "Alice Smith" on the sample key. *)
Lemma token_determines_parts_witness :
  Fernet.encrypt_from_parts Sample.FERNET (py "Alice Smith") 499162800 Sample.iv
  = Ok Sample.good_token
  ∧ ∃ decoded, Base64.urlsafe_b64decode Sample.good_token = Ok decoded
               ∧ Fernet.from_bytes (slice 1 9 decoded) = 499162800.
Proof.
  assert (Fernet.encrypt_from_parts Sample.FERNET (py "Alice Smith") 499162800 Sample.iv
          = Ok Sample.good_token) as He by (vm_compute; reflexivity).
  split; [exact He|].
  exact (proj2 (proj2 (proj2
    (token_determines_parts Sample.FERNET (py "Alice Smith") (py "Alice Smith")
       499162800 499162800 Sample.iv Sample.iv Sample.good_token
       eq_refl eq_refl eq_refl ltac:(lia) ltac:(lia) eq_refl eq_refl He He)))).
Defined.

(** Lines 114-120. What [encrypt_value] stores for a string is text of
    seven-bit characters whose length depends only on the number of UTF-8
    bytes of the string, 4 * ((59 + 16 * (bytes / 16 + 1)) / 3), and is
    greater than the length of the string: the stored value is never the
    plaintext. *)
Theorem stored_token_shape (key : bytes) (FERNET : Fernet.t) (w : World) (s : str)
    (n n' : nat) (v : value) :
  Fernet.new key = Ok FERNET → world_ok w →
  encrypt_value FERNET w (VStr s) n = Ok (v, n') →
  ∃ token data,
    v = VStr token ∧ n' = S n ∧ Utf8.encode s = Ok data
    ∧ is_ascii token = true
    ∧ List.length token = (4 * ((59 + 16 * (List.length data / 16 + 1)) / 3))%nat
    ∧ (List.length s < List.length token)%nat
    ∧ token ≠ s.
Proof.
  intros Hkey Hw H. apply fernet_new_ok in Hkey as [_ Hk].
  destruct (Hw n) as (Hnow & Hlen & Hok).
  assert (block_ok (urandom w n) = true) as Hiv
    by (unfold block_ok; rewrite Hlen, Hok; reflexivity).
  unfold encrypt_value in H.
  destruct (encrypt_value_at FERNET (clock w n) (urandom w n) (VStr s)) as [v0|] eqn:He;
    [|discriminate].
  injection H as <- <-. unfold encrypt_value_at in He.
  apply result_bind_ok in He as (data & Hdata & He).
  apply result_bind_ok in He as (token & Ht & He).
  destruct (encode_ok_unicode s data Hdata) as [Hs Hsl].
  destruct (utf8_roundtrip s Hs) as (data0 & Hdata0 & Hdok & _).
  assert (data0 = data) as -> by congruence.
  destruct (encrypt_parts_shape FERNET data (clock w n) (urandom w n) Hk Hdok Hnow Hiv)
    as (ct & h & Hct & Hh & Hshape & _).
  destruct (fernet_roundtrip FERNET data (clock w n) (urandom w n) Hk Hdok Hnow Hiv)
    as (token0 & Ht0 & Hascii & _).
  assert (token0 = token) as -> by congruence.
  rewrite (ascii_decode token Hascii) in He. injection He as <-.
  assert (List.length token
          = (4 * ((59 + 16 * (List.length data / 16 + 1)) / 3))%nat) as Hl.
  { rewrite Ht in Hshape. apply Ok_inj in Hshape. rewrite Hshape.
    rewrite b64encode_length. cbn [List.length].
    rewrite !length_app, be_bytes_length, Hlen, Hct, Hh. do 2 f_equal. lia. }
  assert (List.length s < List.length token)%nat as Hlt.
  { rewrite Hl.
    pose proof (Nat.div_mod_eq (List.length data) 16).
    pose proof (Nat.mod_upper_bound (List.length data) 16).
    pose proof (Nat.div_mod_eq (59 + 16 * (List.length data / 16 + 1)) 3).
    pose proof (Nat.mod_upper_bound (59 + 16 * (List.length data / 16 + 1)) 3). lia. }
  exists token, data. repeat (split; [first [reflexivity | assumption]|]).
  intros ->. lia.
Qed.

(** The stored token of "Alice Smith": a hundred characters. *)
Lemma stored_token_shape_witness :
  encrypt_value Sample.FERNET Sample.world (VStr (py "Alice Smith")) 0%nat
  = Ok (VStr Sample.good_token, 1%nat)
  ∧ List.length Sample.good_token = 100%nat.
Proof.
  assert (Fernet.new Sample.key = Ok Sample.FERNET) as Hk by (vm_compute; reflexivity).
  assert (encrypt_value Sample.FERNET Sample.world (VStr (py "Alice Smith")) 0%nat
          = Ok (VStr Sample.good_token, 1%nat)) as H by (vm_compute; reflexivity).
  split; [exact H|].
  destruct (stored_token_shape Sample.key Sample.FERNET Sample.world (py "Alice Smith")
              0%nat 1%nat (VStr Sample.good_token) Hk sample_world_ok H)
    as (token & data & Hv & _ & _ & _ & _ & _ & _).
  reflexivity.
Defined.

(** ** What [apply_pii_policy] stores, column by column *)

Lemma update_row_applies (name : string) (f : value → io value) (cols : list string) :
  (∀ k, f VNull k = Ok (VNull, k)) →
  ∀ row n row' n',
    update_row name f cols row n = Ok (row', n') →
    ∃ n1 n2, f (cell name cols row) n1 = Ok (cell name cols row', n2).
Proof.
  intros Hnull. induction cols as [|c cols IH]; intros row n row' n' H.
  - exists 0%nat, 0%nat. destruct row, row'; apply Hnull.
  - destruct row as [|v row].
    { apply io_ret_ok in H as [-> _]. exists 0%nat, 0%nat. apply Hnull. }
    cbn [update_row] in H.
    apply io_bind_ok in H as (v' & n1 & Hv & H).
    apply io_bind_ok in H as (r & n2 & Hr & H).
    apply io_ret_ok in H as [-> ->]. cbn [cell].
    destruct (String.eqb c name); [eauto|]. apply (IH _ _ _ _ Hr).
Qed.

Lemma with_column_applies (name : string) (f : value → io value) (df df' : DataFrame)
    (n n' : nat) :
  (∀ k, f VNull k = Ok (VNull, k)) →
  with_column name f df n = Ok (df', n') →
  Forall2 (fun v v' => ∃ n1 n2, f v n1 = Ok (v', n2))
    (map (cell name (columns df)) (rows df)) (map (cell name (columns df')) (rows df')).
Proof.
  intros Hnull H. unfold with_column in H.
  apply io_bind_ok in H as (rows' & n1 & Hr & H). apply io_ret_ok in H as [-> ->].
  cbn [columns rows]. apply mapM_io_ok in Hr as [Hlen Hel].
  apply Forall2_same_length_lookup_2; [rewrite !length_map; auto|].
  intros i v v' Hv Hv'. rewrite list_lookup_fmap in Hv, Hv'.
  destruct (rows df !! i) as [r|] eqn:Hri; [|discriminate]. injection Hv as <-.
  destruct (Hel i r Hri) as (r' & n2 & n3 & Hu & Hr'). rewrite Hr' in Hv'.
  injection Hv' as <-. exact (update_row_applies name f (columns df) Hnull _ _ _ _ Hu).
Qed.

(** A loop of [withColumn] steps over distinct names applies the function
    of a name once to the column of that name. *)
Lemma for_each_applies (f : string → value → io value) (names : list string)
    (name : string) :
  (∀ nm k, f nm VNull k = Ok (VNull, k)) → NoDup names → name ∈ names →
  ∀ df n df' n',
    name ∈ columns df →
    for_each (fun d nm =>
                if bool_decide (nm ∈ columns d) then with_column nm (f nm) d
                else mret d) names df n = Ok (df', n') →
    Forall2 (fun v v' => ∃ n1 n2, f name v n1 = Ok (v', n2))
      (map (cell name (columns df)) (rows df)) (map (cell name (columns df')) (rows df')).
Proof.
  intros Hnull Hnd Hin. induction names as [|nm names IH]; [inversion Hin|].
  intros df n df' n' Hcol H. apply NoDup_cons in Hnd as [Hnm Hnd].
  cbn [for_each] in H. apply io_bind_ok in H as (d1 & n1 & H1 & H).
  destruct (decide (nm = name)) as [->|Hne].
  - rewrite bool_decide_eq_true_2 in H1 by assumption.
    destruct (for_each_with_column f names _ _ _ _ H) as (_ & _ & Hs).
    rewrite (Hs name Hnm). apply (with_column_applies name (f name) df d1 n n1);
      [apply Hnull | exact H1].
  - apply elem_of_cons in Hin as [Heq|Hin]; [congruence|].
    assert (columns d1 = columns df
            ∧ map (cell name (columns d1)) (rows d1)
              = map (cell name (columns df)) (rows df)) as [Hc1 Hs1].
    { case_bool_decide.
      - destruct (with_column_frame _ _ _ _ _ _ H1) as (Hc & _ & Hs). auto.
      - apply io_ret_ok in H1 as [-> _]. auto. }
    rewrite <- Hs1. apply (IH Hnd Hin d1 n1 df' n'); [rewrite Hc1; exact Hcol | exact H].
Qed.

Lemma encrypt_null (FERNET : Fernet.t) (w : World) (k : nat) :
  encrypt_value FERNET w VNull k = Ok (VNull, k).
Proof. reflexivity. Qed.

Lemma columns_of_policy (enc hash drops : list string) (FERNET : Fernet.t) (w : World)
    (df bronze : DataFrame) (n n' : nat) (name : string) :
  apply_pii_policy_with enc hash drops FERNET w df n = Ok (bronze, n') →
  name ∈ columns df → name ∉ drops →
  (NoDup enc → name ∈ enc → name ∉ hash →
   Forall2 (fun v v' => ∃ n1 n2, encrypt_value FERNET w v n1 = Ok (v', n2))
     (map (cell name (columns df)) (rows df))
     (map (cell name (columns bronze)) (rows bronze)))
  ∧ (NoDup hash → name ∉ enc → name ∈ hash →
     Forall2 (fun v v' => hash_value v = Ok v')
       (map (cell name (columns df)) (rows df))
       (map (cell name (columns bronze)) (rows bronze))).
Proof.
  intros H Hcol Hd. unfold apply_pii_policy_with in H.
  apply io_bind_ok in H as (r1 & n1 & H1 & H).
  apply io_bind_ok in H as (r2 & n2 & H2 & H3).
  destruct (for_each_with_column (fun _ => encrypt_value FERNET w) _ _ _ _ _ H1)
    as (Hc1 & _ & Hs1).
  destruct (for_each_with_column (fun _ v k => v' ← hash_value v; Ok (v', k)) _ _ _ _ _ H2)
    as (Hc2 & _ & Hs2).
  destruct (for_each_drop _ _ _ _ _ H3) as (_ & _ & _ & Hs3).
  split.
  - intros Hnd He Hh. rewrite (Hs3 name Hd), (Hs2 name Hh).
    apply (for_each_applies (fun _ => encrypt_value FERNET w) enc name
             (fun _ => encrypt_null FERNET w) Hnd He df n r1 n1 Hcol H1).
  - intros Hnd He Hh. rewrite (Hs3 name Hd), <- (Hs1 name He).
    assert (name ∈ columns r1) as Hcol1 by (rewrite Hc1; exact Hcol).
    pose proof (for_each_applies (fun _ v k => v' ← hash_value v; Ok (v', k)) hash name
                  (fun _ _ => eq_refl) Hnd Hh r1 n1 r2 n2 Hcol1 H2) as HF.
    eapply Forall2_impl; [exact HF|].
    intros v v' (k1 & k2 & Hv). cbv beta in Hv.
    destruct (hash_value v) as [x|]; [|discriminate]. cbn in Hv. congruence.
Qed.

(** Lines 126-148. What the policy stores: under lists without
    repetition, every cell of a column that is only in the encrypt list is
    what [encrypt_value] returned for the input cell of that row, and
    every cell of a column that is only in the hash list is the SHA-256 of
    the string cast of the input cell, row by row. *)
Theorem stored_columns (enc hash drops : list string) (FERNET : Fernet.t) (w : World)
    (df bronze : DataFrame) (n n' : nat) (name : string) :
  apply_pii_policy_with enc hash drops FERNET w df n = Ok (bronze, n') →
  name ∈ columns df → name ∉ drops →
  (NoDup enc → name ∈ enc → name ∉ hash →
   Forall2 (fun v v' => ∃ n1 n2, encrypt_value FERNET w v n1 = Ok (v', n2))
     (map (cell name (columns df)) (rows df))
     (map (cell name (columns bronze)) (rows bronze)))
  ∧ (NoDup hash → name ∉ enc → name ∈ hash →
     Forall2 (fun v v' => hash_value v = Ok v')
       (map (cell name (columns df)) (rows df))
       (map (cell name (columns bronze)) (rows bronze))).
Proof. exact (columns_of_policy enc hash drops FERNET w df bronze n n' name). Qed.

(** The stored scenario record: a digest for [national_id], a token for
    [email]. *)
Lemma stored_columns_witness :
  apply_pii_policy_with ENCRYPT_COLUMNS HASH_COLUMNS DROP_COLUMNS
    Sample.FERNET Sample.world Sample.source_df 0%nat
  = Ok (Sample.customers_bronze, 3%nat)
  ∧ Forall2 (fun v v' => hash_value v = Ok v')
      (map (cell "national_id" (columns Sample.source_df)) (rows Sample.source_df))
      (map (cell "national_id" (columns Sample.customers_bronze))
         (rows Sample.customers_bronze))
  ∧ Forall2 (fun v v' => ∃ n1 n2,
               encrypt_value Sample.FERNET Sample.world v n1 = Ok (v', n2))
      (map (cell "email" (columns Sample.source_df)) (rows Sample.source_df))
      (map (cell "email" (columns Sample.customers_bronze))
         (rows Sample.customers_bronze)).
Proof.
  assert (apply_pii_policy_with ENCRYPT_COLUMNS HASH_COLUMNS DROP_COLUMNS
            Sample.FERNET Sample.world Sample.source_df 0%nat
          = Ok (Sample.customers_bronze, 3%nat)) as H by (vm_compute; reflexivity).
  assert ("national_id"%string ∈ columns Sample.source_df) as Hn by decide_elem.
  assert ("email"%string ∈ columns Sample.source_df) as He by decide_elem.
  assert (∀ name : string, name ∉ DROP_COLUMNS) as Hd by (intros ?; apply not_elem_of_nil).
  assert (NoDup HASH_COLUMNS) as N1 by decide_elem.
  assert (NoDup ENCRYPT_COLUMNS) as N2 by decide_elem.
  assert ("national_id"%string ∉ ENCRYPT_COLUMNS) as N3 by decide_elem.
  assert ("national_id"%string ∈ HASH_COLUMNS) as N4 by decide_elem.
  assert ("email"%string ∈ ENCRYPT_COLUMNS) as N5 by decide_elem.
  assert ("email"%string ∉ HASH_COLUMNS) as N6 by decide_elem.
  split; [exact H|]. split.
  - exact (proj2 (stored_columns ENCRYPT_COLUMNS HASH_COLUMNS DROP_COLUMNS
                    Sample.FERNET Sample.world Sample.source_df Sample.customers_bronze
                    0%nat 3%nat "national_id"%string H Hn (Hd _)) N1 N3 N4).
  - exact (proj1 (stored_columns ENCRYPT_COLUMNS HASH_COLUMNS DROP_COLUMNS
                    Sample.FERNET Sample.world Sample.source_df Sample.customers_bronze
                    0%nat 3%nat "email"%string H He (Hd _)) N2 N5 N6).
Defined.

(** ** From the input frame to the clear view *)

Lemma encrypt_then_decrypt (FERNET : Fernet.t) (w : World) (v v' : value) (n n' : nat) :
  block_ok (Fernet.encryption_key FERNET) = true → world_ok w →
  encrypt_value FERNET w v n = Ok (v', n') → decrypt_one FERNET v' = Ok v.
Proof.
  intros Hk Hw H. destruct (Hw n) as (Hnow & Hlen & Hok).
  assert (block_ok (urandom w n) = true) as Hiv
    by (unfold block_ok; rewrite Hlen, Hok; reflexivity).
  destruct v as [|s|z|b]; cbn in H; try discriminate.
  - injection H as <- _. reflexivity.
  - destruct (Utf8.encode s) as [data|] eqn:Hd; [|discriminate].
    destruct (encode_ok_unicode s data Hd) as [Hs _].
    destruct (encrypt_at_decrypt FERNET (clock w n) (urandom w n) s Hk Hnow Hiv Hs)
      as (token & He & _ & Hdec).
    unfold encrypt_value_at in He. rewrite Hd in He. cbn [mbind result_bind] in He.
    cbn [mbind result_bind] in H. rewrite He in H. injection H as <- _. exact Hdec.
Qed.

Lemma mapM_Forall2 {A B} (g : A → result B) (l : list A) (k : list B) :
  Forall2 (fun x y => g x = Ok y) l k → mapM g l = Ok k.
Proof.
  induction 1 as [|x y l k Hxy _ IH]; [reflexivity|].
  cbn [mapM]. rewrite Hxy. cbn [mbind result_bind]. rewrite IH. reflexivity.
Qed.

(** What the views find in a frame [apply_pii_policy] stored. *)
Lemma stored_frame_facts (key : bytes) (FERNET : Fernet.t) (w : World)
    (df bronze : DataFrame) (n n' : nat) :
  Fernet.new key = Ok FERNET → world_ok w →
  apply_pii_policy FERNET w df n = Ok (bronze, n') →
  List.length (rows bronze) = List.length (rows df)
  ∧ (∀ name, name ∈ columns df →
       col name bronze = Ok (map (cell name (columns bronze)) (rows bronze)))
  ∧ (∀ name, name ∈ ENCRYPT_COLUMNS → name ∈ columns df →
       decrypt_value FERNET (map (cell name (columns bronze)) (rows bronze))
       = Ok (map (cell name (columns df)) (rows df)))
  ∧ (∀ name, name ∉ ENCRYPT_COLUMNS → name ∉ HASH_COLUMNS → name ∈ columns df →
       map (cell name (columns bronze)) (rows bronze)
       = map (cell name (columns df)) (rows df))
  ∧ (∀ name, name ∈ HASH_COLUMNS → name ∈ columns df →
       Forall2 (fun v d => hash_value v = Ok d)
         (map (cell name (columns df)) (rows df))
         (map (cell name (columns bronze)) (rows bronze))).
Proof.
  intros Hkey Hw H. apply fernet_new_ok in Hkey as [_ Hk].
  destruct (proj2 frame_of_policy _ _ _ _ _ _ H) as (Hc & Hl & Hframe).
  unfold apply_pii_policy in H.
  assert (∀ name : string, name ∉ DROP_COLUMNS) as Hd by (intros ?; apply not_elem_of_nil).
  assert (∀ name, name ∈ columns df →
            col name bronze = Ok (map (cell name (columns bronze)) (rows bronze))) as Hcol.
  { intros name Hin. unfold col. rewrite Hc, bool_decide_eq_true_2 by assumption.
    reflexivity. }
  split; [exact Hl|]. split; [exact Hcol|]. split; [|split].
  - intros name He Hin.
    assert (name ∉ HASH_COLUMNS) as Hh.
    { unfold ENCRYPT_COLUMNS, HASH_COLUMNS in *. rewrite !elem_of_cons in He.
      rewrite not_elem_of_cons. split; [|apply not_elem_of_nil].
      destruct He as [->|[->|[->|He]]]; [discriminate..|inversion He]. }
    pose proof (proj1 (columns_of_policy _ _ _ _ _ _ _ _ _ name H Hin (Hd _))
                  ltac:(decide_elem) He Hh) as HF.
    apply mapM_Forall2. apply Forall2_flip. eapply Forall2_impl; [exact HF|].
    intros v v' (k1 & k2 & Hv). exact (encrypt_then_decrypt _ _ _ _ _ _ Hk Hw Hv).
  - intros name He Hh Hin. specialize (Hframe name He Hh Hin).
    rewrite (Hcol name Hin) in Hframe. unfold col in Hframe.
    rewrite bool_decide_eq_true_2 in Hframe by assumption. congruence.
  - intros name Hh Hin.
    assert (name ∉ ENCRYPT_COLUMNS) as He.
    { unfold ENCRYPT_COLUMNS, HASH_COLUMNS in *. rewrite !elem_of_cons in Hh.
      rewrite !not_elem_of_cons.
      destruct Hh as [->|Hh]; [|inversion Hh].
      repeat split; try discriminate. apply not_elem_of_nil. }
    apply (proj2 (columns_of_policy _ _ _ _ _ _ _ _ _ name H Hin (Hd _))
             ltac:(decide_elem) He Hh).
Qed.

Lemma clear_view_of_stored (key : bytes) (FERNET : Fernet.t) (w : World)
    (df bronze : DataFrame) (n n' : nat) :
  Fernet.new key = Ok FERNET → world_ok w →
  (∀ name, name ∈ ["customer_id"; "full_name"; "email"; "phone"; "national_id";
                   "city"]%string → name ∈ columns df) →
  apply_pii_policy FERNET w df n = Ok (bronze, n') →
  ∃ digests,
    Forall2 (fun v d => hash_value v = Ok d)
      (map (cell "national_id" (columns df)) (rows df)) digests
    ∧ v_customers_clear FERNET bronze
      = Ok (select ["customer_id"; "full_name"; "email"; "phone"; "national_id";
                    "city"]%string
              [map (cell "customer_id" (columns df)) (rows df);
               map (cell "full_name" (columns df)) (rows df);
               map (cell "email" (columns df)) (rows df);
               map (cell "phone" (columns df)) (rows df);
               digests;
               map (cell "city" (columns df)) (rows df)]
              (List.length (rows df))).
Proof.
  intros Hkey Hw Hcols H.
  destruct (stored_frame_facts key FERNET w df bronze n n' Hkey Hw H)
    as (Hl & Hcol & Hdec & Hsame & Hdig).
  exists (map (cell "national_id" (columns bronze)) (rows bronze)). split.
  - apply Hdig; [decide_elem | apply Hcols; decide_elem].
  - unfold v_customers_clear.
    rewrite !Hcol by (apply Hcols; decide_elem). cbn [mbind result_bind].
    rewrite !Hdec by (first [decide_elem | apply Hcols; decide_elem]).
    cbn [mbind result_bind].
    rewrite !(Hsame "customer_id"%string), !(Hsame "city"%string), Hl
      by (first [decide_elem | apply Hcols; decide_elem]).
    reflexivity.
Qed.

(** Lines 126-148 with 219-227. The clear view undoes the policy: for a
    key [Fernet(key)] accepts, on a frame that has the six columns of the
    view, the clear view of what [apply_pii_policy] stored is the input's
    [customer_id], [full_name], [email], [phone] and [city], cell for
    cell, beside the digests of [national_id]. *)
Theorem clear_view_recovers (key : bytes) (FERNET : Fernet.t) (w : World)
    (df bronze : DataFrame) (n n' : nat) :
  Fernet.new key = Ok FERNET → world_ok w →
  (∀ name, name ∈ ["customer_id"; "full_name"; "email"; "phone"; "national_id";
                   "city"]%string → name ∈ columns df) →
  apply_pii_policy FERNET w df n = Ok (bronze, n') →
  ∃ digests,
    Forall2 (fun v d => hash_value v = Ok d)
      (map (cell "national_id" (columns df)) (rows df)) digests
    ∧ v_customers_clear FERNET bronze
      = Ok (select ["customer_id"; "full_name"; "email"; "phone"; "national_id";
                    "city"]%string
              [map (cell "customer_id" (columns df)) (rows df);
               map (cell "full_name" (columns df)) (rows df);
               map (cell "email" (columns df)) (rows df);
               map (cell "phone" (columns df)) (rows df);
               digests;
               map (cell "city" (columns df)) (rows df)]
              (List.length (rows df))).
Proof. exact (clear_view_of_stored key FERNET w df bronze n n'). Qed.

(** Lines 126-148 with 238-249. The masked view of what
    [apply_pii_policy] stored shows the input's [customer_id] and [city]
    as read, the digests of [national_id], and the masks of the input's
    [full_name], [email] and [phone]: nothing else of the plaintext. *)
Theorem masked_view_of_input (key : bytes) (FERNET : Fernet.t) (w : World)
    (df bronze : DataFrame) (n n' : nat) :
  Fernet.new key = Ok FERNET → world_ok w →
  (∀ name, name ∈ ["customer_id"; "full_name"; "email"; "phone"; "national_id";
                   "city"]%string → name ∈ columns df) →
  apply_pii_policy FERNET w df n = Ok (bronze, n') →
  ∃ digests,
    Forall2 (fun v d => hash_value v = Ok d)
      (map (cell "national_id" (columns df)) (rows df)) digests
    ∧ v_customers_masked FERNET bronze
      = Ok (select ["customer_id"; "full_name_masked"; "email_masked"; "phone_masked";
                    "national_id"; "city"]%string
              [map (cell "customer_id" (columns df)) (rows df);
               map full_name_masked (map (cell "full_name" (columns df)) (rows df));
               map email_masked (map (cell "email" (columns df)) (rows df));
               map phone_masked (map (cell "phone" (columns df)) (rows df));
               digests;
               map (cell "city" (columns df)) (rows df)]
              (List.length (rows df))).
Proof.
  intros Hkey Hw Hcols H.
  destruct (stored_frame_facts key FERNET w df bronze n n' Hkey Hw H)
    as (Hl & Hcol & Hdec & Hsame & Hdig).
  exists (map (cell "national_id" (columns bronze)) (rows bronze)). split.
  - apply Hdig; [decide_elem | apply Hcols; decide_elem].
  - unfold v_customers_masked.
    rewrite !Hcol by (apply Hcols; decide_elem). cbn [mbind result_bind].
    rewrite !Hdec by (first [decide_elem | apply Hcols; decide_elem]).
    cbn [mbind result_bind].
    rewrite !(Hsame "customer_id"%string), !(Hsame "city"%string), Hl
      by (first [decide_elem | apply Hcols; decide_elem]).
    reflexivity.
Qed.

(** The clear view of the stored scenario record. *)
Lemma clear_view_recovers_witness :
  apply_pii_policy Sample.FERNET Sample.world Sample.source_df 0%nat
  = Ok (Sample.customers_bronze, 3%nat)
  ∧ ∃ digests,
      Forall2 (fun v d => hash_value v = Ok d)
        (map (cell "national_id" (columns Sample.source_df)) (rows Sample.source_df))
        digests
      ∧ v_customers_clear Sample.FERNET Sample.customers_bronze
        = Ok (select ["customer_id"; "full_name"; "email"; "phone"; "national_id";
                      "city"]%string
                [map (cell "customer_id" (columns Sample.source_df)) (rows Sample.source_df);
                 map (cell "full_name" (columns Sample.source_df)) (rows Sample.source_df);
                 map (cell "email" (columns Sample.source_df)) (rows Sample.source_df);
                 map (cell "phone" (columns Sample.source_df)) (rows Sample.source_df);
                 digests;
                 map (cell "city" (columns Sample.source_df)) (rows Sample.source_df)]
                (List.length (rows Sample.source_df))).
Proof.
  assert (Fernet.new Sample.key = Ok Sample.FERNET) as Hk by (vm_compute; reflexivity).
  assert (apply_pii_policy Sample.FERNET Sample.world Sample.source_df 0%nat
          = Ok (Sample.customers_bronze, 3%nat)) as H by (vm_compute; reflexivity).
  split; [exact H|].
  exact (clear_view_recovers Sample.key Sample.FERNET Sample.world Sample.source_df
           Sample.customers_bronze 0%nat 3%nat Hk sample_world_ok
           (fun name Hn => Hn) H).
Defined.

(** ** Cells that are not text *)

Lemma update_row_raises (name : string) (f : value → io value) (v : value) (e : exn)
    (cols : list string) :
  v ≠ VNull → (∀ k, f v k = Raise e) →
  ∀ row n, cell name cols row = v → update_row name f cols row n = Raise e.
Proof.
  intros Hv Hf. induction cols as [|c cols IH]; intros row n Hc.
  - destruct row; cbn in Hc; congruence.
  - destruct row as [|v0 row]; [cbn in Hc; congruence|].
    cbn [cell] in Hc. cbn [update_row]. unfold mbind, io_bind.
    destruct (String.eqb c name).
    + subst v0. rewrite Hf. reflexivity.
    + cbn. rewrite (IH row n Hc). reflexivity.
Qed.

Lemma mapM_io_raises {A B} (g : A → io B) (l : list A) (i : nat) (x : A) (e : exn) :
  l !! i = Some x → (∀ n, g x n = Raise e) → ∀ n, is_ok (mapM g l n) = false.
Proof.
  intros Hx Hg. revert i Hx. induction l as [|a l IH]; intros i Hx n.
  - destruct i; discriminate.
  - cbn [mapM]. unfold mbind at 1, io_bind. destruct i as [|i]; cbn in Hx.
    + injection Hx as ->. rewrite Hg. reflexivity.
    + destruct (g a n) as [[y n1]|]; [|reflexivity].
      unfold mbind at 1, io_bind. specialize (IH i Hx n1).
      destruct (mapM g l n1) as [[k n2]|]; [discriminate | reflexivity].
Qed.

Lemma with_column_raises (name : string) (f : value → io value) (df : DataFrame)
    (i : nat) (r : list value) (e : exn) :
  rows df !! i = Some r → cell name (columns df) r ≠ VNull →
  (∀ k, f (cell name (columns df) r) k = Raise e) →
  ∀ n, is_ok (with_column name f df n) = false.
Proof.
  intros Hr Hv Hf n. unfold with_column. unfold mbind, io_bind.
  pose proof (mapM_io_raises (update_row name f (columns df)) (rows df) i r e Hr
                (fun k => update_row_raises name f _ e (columns df) Hv Hf r k eq_refl) n)
    as Hm.
  destruct (mapM (update_row name f (columns df)) (rows df) n) as [[k n1]|];
    [discriminate | reflexivity].
Qed.

Lemma for_each_raises (f : string → value → io value) (names : list string)
    (name : string) (v : value) (e : exn) :
  v ≠ VNull → (∀ k, f name v k = Raise e) → name ∈ names →
  ∀ df n, name ∈ columns df → v ∈ map (cell name (columns df)) (rows df) →
    is_ok (for_each (fun d nm =>
                       if bool_decide (nm ∈ columns d) then with_column nm (f nm) d
                       else mret d) names df n) = false.
Proof.
  intros Hv Hf Hin. induction names as [|nm names IH]; [inversion Hin|].
  intros df n Hcol Hcell. cbn [for_each]. unfold mbind, io_bind.
  destruct (decide (nm = name)) as [->|Hne].
  - rewrite bool_decide_eq_true_2 by assumption.
    apply list_elem_of_fmap in Hcell as (r & Hr & Hrin).
    apply list_elem_of_lookup in Hrin as [i Hi].
    pose proof (with_column_raises name (f name) df i r e Hi
                  ltac:(congruence) ltac:(rewrite <- Hr; exact Hf) n) as Hw.
    destruct (with_column name (f name) df n) as [[d1 n1]|]; [discriminate | reflexivity].
  - apply elem_of_cons in Hin as [Heq|Hin]; [congruence|].
    destruct ((if bool_decide (nm ∈ columns df) then with_column nm (f nm) df
               else mret df) n) as [[d1 n1]|] eqn:H1; [|reflexivity].
    assert (columns d1 = columns df
            ∧ map (cell name (columns d1)) (rows d1)
              = map (cell name (columns df)) (rows df)) as [Hc1 Hs1].
    { case_bool_decide.
      - destruct (with_column_frame _ _ _ _ _ _ H1) as (Hc & _ & Hs). auto.
      - apply io_ret_ok in H1 as [-> _]. auto. }
    apply (IH Hin d1 n1); [rewrite Hc1; exact Hcol | rewrite Hs1; exact Hcell].
Qed.

Lemma policy_raises_on_non_text (enc hash drops : list string) (FERNET : Fernet.t)
    (w : World) (df : DataFrame) (n : nat) (name : string) (i : nat) (r : list value) :
  name ∈ enc → name ∈ columns df → rows df !! i = Some r →
  (∃ z, cell name (columns df) r = VInt z)
  ∨ (∃ b, cell name (columns df) r = VBool b) →
  is_ok (apply_pii_policy_with enc hash drops FERNET w df n) = false.
Proof.
  intros He Hcol Hr Hv.
  unfold apply_pii_policy_with. unfold mbind at 1, io_bind.
  assert (cell name (columns df) r ∈ map (cell name (columns df)) (rows df)) as Hin.
  { apply list_elem_of_fmap. exists r. split; [reflexivity|].
    apply list_elem_of_lookup. eauto. }
  assert (is_ok (for_each (encrypt_step FERNET w) enc df n) = false) as Hf.
  { destruct Hv as [[z Hz]|[b Hb]].
    - rewrite Hz in Hin.
      exact (for_each_raises (fun _ => encrypt_value FERNET w) enc name (VInt z)
               AttributeError ltac:(discriminate) (fun _ => eq_refl) He df n Hcol Hin).
    - rewrite Hb in Hin.
      exact (for_each_raises (fun _ => encrypt_value FERNET w) enc name (VBool b)
               AttributeError ltac:(discriminate) (fun _ => eq_refl) He df n Hcol Hin). }
  destruct (for_each (encrypt_step FERNET w) enc df n) as [[d1 n1]|];
    [discriminate | reflexivity].
Qed.

(** Lines 114-120, 178-184 and 186-193. The stream reads its files with
    inferred column types, and [encrypt_value] calls [encode] on whatever
    it is given: when one row of a micro-batch holds a number or a boolean
    in a column of [ENCRYPT_COLUMNS] (a phone column read as integer), the
    write of that micro-batch fails, whatever the other rows and the
    table hold, and so does every sequence of attempts that starts with
    it: nothing of the batch is appended. *)
Theorem non_text_cell_stops_the_write (FERNET : Fernet.t) (w : World)
    (customers_bronze source_df : DataFrame) (n : nat) (name : string) (i : nat)
    (r : list value) :
  name ∈ ENCRYPT_COLUMNS → name ∈ columns source_df → rows source_df !! i = Some r →
  (∃ z, cell name (columns source_df) r = VInt z)
  ∨ (∃ b, cell name (columns source_df) r = VBool b) →
  is_ok (query FERNET w customers_bronze source_df n) = false
  ∧ ∀ k, is_ok (attempts FERNET w (S k) customers_bronze source_df n) = false.
Proof.
  intros He Hcol Hr Hv.
  pose proof (policy_raises_on_non_text ENCRYPT_COLUMNS HASH_COLUMNS DROP_COLUMNS
                FERNET w source_df n name i r He Hcol Hr Hv) as Hp.
  assert (is_ok (query FERNET w customers_bronze source_df n) = false) as Hq.
  { unfold query. unfold mbind at 1, io_bind. fold (apply_pii_policy FERNET w source_df n) in Hp.
    destruct (apply_pii_policy FERNET w source_df n) as [[d n1]|];
      [discriminate | reflexivity]. }
  split; [exact Hq|]. intros k. cbn [attempts]. unfold mbind at 1, io_bind.
  destruct (query FERNET w customers_bronze source_df n) as [[t n1]|];
    [discriminate | reflexivity].
Qed.

(** A batch whose phone is the number 5551234, written to the empty
    table. *)
Lemma non_text_cell_stops_the_write_witness :
  is_ok (query Sample.FERNET Sample.world Sample.empty_table
           {| columns := ["customer_id"; "phone"]%string;
              rows := [[VInt 1; VInt 5551234]] |} 0%nat) = false.
Proof.
  apply (non_text_cell_stops_the_write Sample.FERNET Sample.world Sample.empty_table
           {| columns := ["customer_id"; "phone"]%string;
              rows := [[VInt 1; VInt 5551234]] |} 0%nat "phone"%string 0%nat
           [VInt 1; VInt 5551234]).
  - decide_elem.
  - decide_elem.
  - reflexivity.
  - left. exists 5551234. reflexivity.
Defined.

(** ** Frames the policy accepts *)

Lemma hex_unicode (l : bytes) : bytes_ok l = true → unicode_text (SHA256.hex l) = true.
Proof.
  intros H. apply hex_digits in H. unfold unicode_text.
  rewrite forallb_forall in *. intros c Hc. specialize (H c Hc).
  unfold is_hex_digit in H. apply is_scalar_range.
  rewrite orb_true_iff, !andb_true_iff, !Z.leb_le in H. lia.
Qed.

(** A cell that is both encryptable and hashable is ready in any column. *)
Lemma cell_ready_both (enc hash : list string) (c : string) (v : value) :
  encryptable v = true → hashable v = true → cell_ready enc hash c v = true.
Proof. intros He Hh. unfold cell_ready. rewrite He, Hh. repeat case_match; reflexivity. Qed.

Lemma encrypt_value_ready (FERNET : Fernet.t) (w : World) (v : value) (n : nat) :
  block_ok (Fernet.encryption_key FERNET) = true → world_ok w →
  encryptable v = true →
  ∃ v' n', encrypt_value FERNET w v n = Ok (v', n')
           ∧ encryptable v' = true ∧ hashable v' = true.
Proof.
  intros Hk Hw Hv. destruct v as [|s|z|b]; try discriminate.
  - exists VNull, n. auto.
  - destruct (Hw n) as (Hnow & Hlen & Hok).
    assert (block_ok (urandom w n) = true) as Hiv
      by (unfold block_ok; rewrite Hlen, Hok; reflexivity).
    destruct (encrypt_at_decrypt FERNET (clock w n) (urandom w n) s Hk Hnow Hiv Hv)
      as (token & He & Hascii & _).
    exists (VStr token), (S n). unfold encrypt_value. rewrite He.
    cbn [encryptable hashable]. rewrite (is_ascii_unicode token Hascii). auto.
Qed.

Lemma hash_value_ready (v : value) :
  hashable v = true →
  ∃ v', hash_value v = Ok v' ∧ encryptable v' = true ∧ hashable v' = true.
Proof.
  intros Hv. unfold hash_value, sha2_256.
  assert (∀ s, unicode_text s = true →
            ∃ v', (b ← Utf8.encode s; Ok (VStr (SHA256.hex (SHA256.sha256 b)))) = Ok v'
                  ∧ encryptable v' = true ∧ hashable v' = true) as Hs.
  { intros s Hu. destruct (utf8_roundtrip s Hu) as (b & -> & _).
    eexists. split; [reflexivity|]. cbn [encryptable hashable].
    rewrite hex_unicode by apply sha256_ok. auto. }
  destruct v as [|s|z|b]; cbn [cast_string]; [eauto | auto | |]; apply Hs, py_unicode.
Qed.

Lemma update_row_ready (enc hash : list string) (name : string) (f : value → io value)
    (pre : value → bool) (cols : list string) :
  (∀ v k, pre v = true →
     ∃ v' k', f v k = Ok (v', k') ∧ encryptable v' = true ∧ hashable v' = true) →
  (∀ v, cell_ready enc hash name v = true → pre v = true) →
  ∀ row n, row_ready enc hash cols row = true →
    ∃ row' n', update_row name f cols row n = Ok (row', n')
               ∧ row_ready enc hash cols row' = true.
Proof.
  intros Hf Hpre. induction cols as [|c cols IH]; intros row n Hr.
  - exists row, n. destruct row; auto.
  - destruct row as [|v row]; [exists [], n; auto|].
    cbn [row_ready] in Hr. apply andb_true_iff in Hr as [Hc Hr].
    cbn [update_row]. unfold mbind, io_bind.
    destruct (String.eqb_spec c name) as [Heq|Hne].
    + subst c. destruct (Hf v n (Hpre v Hc)) as (v' & k' & -> & He & Hh).
      destruct (IH row k' Hr) as (row' & n' & -> & Hr').
      exists (v' :: row'), n'. split; [reflexivity|].
      cbn [row_ready]. rewrite Hr', (cell_ready_both enc hash name v' He Hh). reflexivity.
    + cbn. destruct (IH row n Hr) as (row' & n' & -> & Hr').
      exists (v :: row'), n'. split; [reflexivity|].
      cbn [row_ready]. rewrite Hr', Hc. reflexivity.
Qed.

Lemma mapM_io_ready {A} (g : A → io A) (ok : A → bool) (l : list A) :
  (∀ x n, ok x = true → ∃ y n', g x n = Ok (y, n') ∧ ok y = true) →
  ∀ n, forallb ok l = true →
    ∃ l' n', mapM g l n = Ok (l', n') ∧ forallb ok l' = true.
Proof.
  intros Hg. induction l as [|x l IH]; intros n Hl.
  - exists [], n. auto.
  - cbn [forallb] in Hl. apply andb_true_iff in Hl as [Hx Hl].
    destruct (Hg x n Hx) as (y & n1 & Hy & Hoy).
    destruct (IH n1 Hl) as (l' & n2 & Hl' & Hol).
    exists (y :: l'), n2. cbn [mapM]. unfold mbind, io_bind.
    rewrite Hy. unfold mbind, io_bind in Hl'. rewrite Hl'.
    split; [reflexivity|]. cbn [forallb]. rewrite Hoy, Hol. reflexivity.
Qed.

Lemma for_each_ready (enc hash : list string) (f : string → value → io value)
    (pre : string → value → bool) (names : list string) :
  (∀ nm v k, nm ∈ names → pre nm v = true →
     ∃ v' k', f nm v k = Ok (v', k') ∧ encryptable v' = true ∧ hashable v' = true) →
  (∀ nm v, nm ∈ names → cell_ready enc hash nm v = true → pre nm v = true) →
  ∀ df n, frame_ready enc hash df = true →
    ∃ df' n',
      for_each (fun d nm =>
                  if bool_decide (nm ∈ columns d) then with_column nm (f nm) d
                  else mret d) names df n = Ok (df', n')
      ∧ frame_ready enc hash df' = true.
Proof.
  induction names as [|nm names IH]; intros Hf Hpre df n Hr.
  - exists df, n. auto.
  - cbn [for_each]. unfold mbind, io_bind.
    assert (∃ d1 n1,
              (if bool_decide (nm ∈ columns df) then with_column nm (f nm) df
               else mret df) n = Ok (d1, n1)
              ∧ frame_ready enc hash d1 = true) as (d1 & n1 & -> & Hr1).
    { case_bool_decide; [|exists df, n; auto].
      unfold with_column, frame_ready in *.
      destruct (mapM_io_ready (update_row nm (f nm) (columns df))
                  (row_ready enc hash (columns df)) (rows df)) with (n := n)
        as (rows' & n1 & Hm & Hok); [|assumption|].
      - intros row k Hrow.
        apply (update_row_ready enc hash nm (f nm) (pre nm) (columns df)); auto.
        + intros v k0. apply Hf. apply list_elem_of_here.
        + intros v. apply Hpre. apply list_elem_of_here.
      - exists {| columns := columns df; rows := rows' |}, n1.
        unfold mbind at 1. unfold io_bind at 1. rewrite Hm. auto. }
    apply IH; [| |exact Hr1].
    + intros nm' v k Hin. apply Hf. apply list_elem_of_further, Hin.
    + intros nm' v Hin. apply Hpre. apply list_elem_of_further, Hin.
Qed.

Lemma row_ready_no_row (enc hash cols : list string) : row_ready enc hash cols [] = true.
Proof. destruct cols; reflexivity. Qed.

Lemma drop_cells_ready (enc hash : list string) (nm : string) (cols : list string) :
  ∀ row, row_ready enc hash cols row = true →
    row_ready enc hash (filter (fun c => c ≠ nm) cols) (drop_cells nm cols row) = true.
Proof.
  induction cols as [|c cols IHc]; intros row Hr.
  - destruct row; reflexivity.
  - destruct row as [|v row].
    + cbn [drop_cells]. apply row_ready_no_row.
    + cbn [row_ready] in Hr. apply andb_true_iff in Hr as [Hc Hr].
      cbn [drop_cells]. rewrite filter_cons.
      destruct (String.eqb_spec c nm) as [Heq|Hne].
      * subst c. rewrite decide_False by auto. apply IHc, Hr.
      * rewrite decide_True by auto. cbn [row_ready]. rewrite Hc. apply IHc, Hr.
Qed.

Lemma for_each_drop_ready (enc hash drops : list string) :
  ∀ df n df' n',
    for_each drop_step drops df n = Ok (df', n') →
    frame_ready enc hash df = true → frame_ready enc hash df' = true.
Proof.
  induction drops as [|nm drops IH]; intros df n df' n' H Hr.
  - apply io_ret_ok in H as [-> _]. exact Hr.
  - cbn [for_each] in H. apply io_bind_ok in H as (d1 & k1 & Hd & H).
    apply (IH _ _ _ _ H). unfold drop_step in Hd.
    case_bool_decide; apply io_ret_ok in Hd as [-> _]; [|exact Hr].
    unfold frame_ready, drop in *. cbn [columns rows].
    rewrite forallb_forall in *. intros row Hrow.
    apply in_map_iff in Hrow as (row0 & <- & Hin).
    apply drop_cells_ready, Hr, Hin.
Qed.

(** Lines 126-148. [apply_pii_policy] returns a frame, for a key
    [Fernet(key)] accepts, whenever the cells of the encrypt columns are
    null or Unicode text and the text cells of the hash columns are
    Unicode: no other cell is read by a function that can raise. *)
Theorem apply_returns_on_ready (key : bytes) (FERNET : Fernet.t) (w : World)
    (enc hash drops : list string) (df : DataFrame) (n : nat) :
  Fernet.new key = Ok FERNET → world_ok w → frame_ready enc hash df = true →
  ∃ bronze n',
    apply_pii_policy_with enc hash drops FERNET w df n = Ok (bronze, n')
    ∧ frame_ready enc hash bronze = true.
Proof.
  intros Hkey Hw Hr. apply fernet_new_ok in Hkey as [_ Hk].
  unfold apply_pii_policy_with. unfold mbind at 1, io_bind.
  destruct (for_each_ready enc hash (fun _ => encrypt_value FERNET w)
              (fun _ => encryptable) enc) with (df := df) (n := n)
    as (r1 & n1 & H1 & Hr1); [| |exact Hr|].
  { intros nm v k _ Hv. apply encrypt_value_ready; assumption. }
  { intros nm v Hin Hc. unfold cell_ready in Hc.
    rewrite bool_decide_eq_true_2 in Hc by assumption.
    apply andb_true_iff in Hc as [Hc _]. exact Hc. }
  change (for_each (encrypt_step FERNET w) enc df n = Ok (r1, n1)) in H1. rewrite H1.
  unfold mbind at 1, io_bind.
  destruct (for_each_ready enc hash (fun _ v k => v' ← hash_value v; Ok (v', k))
              (fun _ => hashable) hash) with (df := r1) (n := n1)
    as (r2 & n2 & H2 & Hr2); [| |exact Hr1|].
  { intros nm v k _ Hv. destruct (hash_value_ready v Hv) as (v' & -> & He & Hh).
    exists v', k. auto. }
  { intros nm v Hin Hc. unfold cell_ready in Hc.
    rewrite (bool_decide_eq_true_2 (nm ∈ hash)) in Hc by assumption.
    apply andb_true_iff in Hc as [_ Hc]. exact Hc. }
  change (for_each hash_step hash r1 n1 = Ok (r2, n2)) in H2. rewrite H2.
  destruct (for_each_drop_returns drops r2 n2) as [df' H3].
  exists df', n2. split; [exact H3|].
  exact (for_each_drop_ready enc hash drops r2 n2 df' n2 H3 Hr2).
Qed.

(** The scenario record is ready for the shipped policy. *)
Lemma apply_returns_on_ready_witness :
  frame_ready ENCRYPT_COLUMNS HASH_COLUMNS Sample.source_df = true
  ∧ ∃ bronze n',
      apply_pii_policy_with ENCRYPT_COLUMNS HASH_COLUMNS DROP_COLUMNS
        Sample.FERNET Sample.world Sample.source_df 0%nat = Ok (bronze, n')
      ∧ frame_ready ENCRYPT_COLUMNS HASH_COLUMNS bronze = true.
Proof.
  assert (Fernet.new Sample.key = Ok Sample.FERNET) as Hk by (vm_compute; reflexivity).
  assert (frame_ready ENCRYPT_COLUMNS HASH_COLUMNS Sample.source_df = true) as Hr
    by (vm_compute; reflexivity).
  split; [exact Hr|].
  exact (apply_returns_on_ready Sample.key Sample.FERNET Sample.world ENCRYPT_COLUMNS
           HASH_COLUMNS DROP_COLUMNS Sample.source_df 0%nat Hk sample_world_ok Hr).
Defined.

(** The masked view of the stored scenario record. *)
Lemma masked_view_of_input_witness :
  apply_pii_policy Sample.FERNET Sample.world Sample.source_df 0%nat
  = Ok (Sample.customers_bronze, 3%nat)
  ∧ ∃ digests,
      Forall2 (fun v d => hash_value v = Ok d)
        (map (cell "national_id" (columns Sample.source_df)) (rows Sample.source_df))
        digests
      ∧ v_customers_masked Sample.FERNET Sample.customers_bronze
        = Ok (select ["customer_id"; "full_name_masked"; "email_masked"; "phone_masked";
                      "national_id"; "city"]%string
                [map (cell "customer_id" (columns Sample.source_df)) (rows Sample.source_df);
                 map full_name_masked
                   (map (cell "full_name" (columns Sample.source_df)) (rows Sample.source_df));
                 map email_masked
                   (map (cell "email" (columns Sample.source_df)) (rows Sample.source_df));
                 map phone_masked
                   (map (cell "phone" (columns Sample.source_df)) (rows Sample.source_df));
                 digests;
                 map (cell "city" (columns Sample.source_df)) (rows Sample.source_df)]
                (List.length (rows Sample.source_df))).
Proof.
  assert (Fernet.new Sample.key = Ok Sample.FERNET) as Hk by (vm_compute; reflexivity).
  assert (apply_pii_policy Sample.FERNET Sample.world Sample.source_df 0%nat
          = Ok (Sample.customers_bronze, 3%nat)) as H by (vm_compute; reflexivity).
  split; [exact H|].
  exact (masked_view_of_input Sample.key Sample.FERNET Sample.world Sample.source_df
           Sample.customers_bronze 0%nat 3%nat Hk sample_world_ok
           (fun name Hn => Hn) H).
Defined.

(** ** Strings [encrypt_value] refuses *)

Lemma encode_not_unicode (s : str) :
  unicode_text s = false → Utf8.encode s = Raise UnicodeEncodeError.
Proof.
  intros H. destruct (Utf8.encode s) as [b|e] eqn:He.
  - apply encode_ok_unicode in He as [Hu _]. congruence.
  - apply encode_raises in He. congruence.
Qed.

(** Lines 114-120. On a string, [encrypt_value] under an accepted key
    returns a token exactly when the string is made of Unicode scalar
    values; on a string with a lone surrogate [value.encode] raises
    [UnicodeEncodeError] and nothing is encrypted. *)
Theorem encrypt_value_raises_iff (key : bytes) (FERNET : Fernet.t) (w : World)
    (s : str) (n : nat) :
  Fernet.new key = Ok FERNET → world_ok w →
  is_ok (encrypt_value FERNET w (VStr s) n) = unicode_text s
  ∧ (unicode_text s = false →
     encrypt_value FERNET w (VStr s) n = Raise UnicodeEncodeError).
Proof.
  intros Hkey Hw.
  assert (unicode_text s = false →
          encrypt_value FERNET w (VStr s) n = Raise UnicodeEncodeError) as Hr.
  { intros Hs. unfold encrypt_value, encrypt_value_at.
    rewrite (encode_not_unicode s Hs). reflexivity. }
  split; [|exact Hr].
  destruct (unicode_text s) eqn:Hs.
  - apply fernet_new_ok in Hkey as [_ Hk].
    destruct (encrypt_value_ready FERNET w (VStr s) n Hk Hw Hs) as (v' & n' & -> & _).
    reflexivity.
  - rewrite (Hr eq_refl). reflexivity.
Qed.

(** [encrypt_value] on a lone surrogate. *)
Lemma encrypt_value_raises_iff_witness :
  unicode_text [0xD800] = false
  ∧ encrypt_value Sample.FERNET Sample.world (VStr [0xD800]) 0%nat
    = Raise UnicodeEncodeError.
Proof.
  assert (Fernet.new Sample.key = Ok Sample.FERNET) as Hk by (vm_compute; reflexivity).
  split; [reflexivity|].
  exact (proj2 (encrypt_value_raises_iff Sample.key Sample.FERNET Sample.world [0xD800]
                  0%nat Hk sample_world_ok) eq_refl).
Defined.

(** ** The views on a table that grows *)

Lemma mapM_app {A B} (g : A → result B) (l1 l2 : list A) (k : list B) :
  mapM g (l1 ++ l2) = Ok k ↔
  ∃ k1 k2, mapM g l1 = Ok k1 ∧ mapM g l2 = Ok k2 ∧ k = k1 ++ k2.
Proof.
  revert k. induction l1 as [|a l1 IH]; intros k.
  - cbn [app]. split.
    + intros H. exists [], k. auto.
    + intros (k1 & k2 & [= <-] & H2 & ->). exact H2.
  - cbn [app mapM]. split.
    + intros H. apply result_bind_ok in H as (y & Hy & H).
      apply result_bind_ok in H as (r & Hr & H). injection H as <-.
      apply IH in Hr as (k1 & k2 & H1 & H2 & ->).
      exists (y :: k1), k2. rewrite Hy, H1. auto.
    + intros (k1 & k2 & H1 & H2 & ->).
      apply result_bind_ok in H1 as (y & Hy & H1).
      apply result_bind_ok in H1 as (r & Hr & H1). injection H1 as <-.
      rewrite Hy. cbn [mbind result_bind].
      rewrite (proj2 (IH (r ++ k2)) (ex_intro _ r (ex_intro _ k2 (conj Hr (conj H2 eq_refl))))).
      reflexivity.
Qed.

Lemma select_app (names : list string) (ss1 ss2 : list (list value)) (n1 n2 : nat) :
  Forall (fun s => List.length s = n1) ss1 → List.length ss1 = List.length ss2 →
  select names (zip_with app ss1 ss2) (n1 + n2)
  = {| columns := names;
       rows := rows (select names ss1 n1) ++ rows (select names ss2 n2) |}.
Proof.
  intros Hl Hlen. unfold select. cbn [rows]. f_equal.
  rewrite seq_app, map_app. f_equal.
  - apply map_ext_in. intros i Hi. apply in_seq in Hi.
    revert ss2 Hlen. induction Hl as [|s ss1 Hs _ IH]; intros [|t ss2] Hlen;
      try discriminate; [reflexivity|].
    cbn [zip_with map]. f_equal; [|apply IH; cbn in Hlen; lia].
    apply app_nth1. lia.
  - cbn [Nat.add]. rewrite <- (Nat.add_0_r n1) at 1. rewrite <- fmap_add_seq.
    change (map ?f (?g <$> ?l)) with (map f (map g l)). rewrite map_map.
    apply map_ext. intros j.
    revert ss2 Hlen. induction Hl as [|s ss1 Hs _ IH]; intros [|t ss2] Hlen;
      try discriminate; [reflexivity|].
    cbn [zip_with map]. f_equal; [|apply IH; cbn in Hlen; lia].
    rewrite <- Hs. apply app_nth2_plus.
Qed.

Lemma col_append (name : string) (table batch : DataFrame) :
  columns batch = columns table →
  col name (append_batch table batch)
  = (a ← col name table; b ← col name batch; Ok (a ++ b)).
Proof.
  intros Hc. unfold col, append_batch. cbn [columns rows]. rewrite Hc.
  case_bool_decide; [|reflexivity]. cbn [mbind result_bind]. rewrite map_app. reflexivity.
Qed.

Lemma clear_view_append (FERNET : Fernet.t) (table batch view : DataFrame) :
  columns batch = columns table →
  v_customers_clear FERNET (append_batch table batch) = Ok view ↔
  ∃ v1 v2, v_customers_clear FERNET table = Ok v1
           ∧ v_customers_clear FERNET batch = Ok v2
           ∧ view = append_batch v1 v2.
Proof.
  intros Hc. unfold v_customers_clear. rewrite !(col_append _ table batch Hc).
  unfold col. rewrite Hc.
  repeat match goal with
  | |- context [bool_decide (?nm ∈ columns table)] =>
    destruct (bool_decide (nm ∈ columns table));
      [ cbn [mbind result_bind]
      | split; [discriminate | intros (v1 & v2 & ? & _); discriminate] ]
  end.
  unfold decrypt_value.
  set (c := fun nm df => map (cell nm (columns table)) (rows df)).
  change (map (cell ?nm (columns table)) (rows ?df)) with (c nm df).
  assert (select_ok : ∀ a1 b1 c1 a2 b2 c2,
            List.length a1 = List.length (rows table) →
            List.length b1 = List.length (rows table) →
            List.length c1 = List.length (rows table) →
            select ["customer_id"; "full_name"; "email"; "phone"; "national_id"; "city"]%string
              [c "customer_id"%string table ++ c "customer_id"%string batch;
               a1 ++ a2; b1 ++ b2; c1 ++ c2;
               c "national_id"%string table ++ c "national_id"%string batch;
               c "city"%string table ++ c "city"%string batch]
              (List.length (rows (append_batch table batch)))
            = append_batch
                (select ["customer_id"; "full_name"; "email"; "phone"; "national_id"; "city"]%string
                   [c "customer_id"%string table; a1; b1; c1;
                    c "national_id"%string table; c "city"%string table]
                   (List.length (rows table)))
                (select ["customer_id"; "full_name"; "email"; "phone"; "national_id"; "city"]%string
                   [c "customer_id"%string batch; a2; b2; c2;
                    c "national_id"%string batch; c "city"%string batch]
                   (List.length (rows batch)))).
  { intros a1 b1 c1 a2 b2 c2 La Lb Lc. unfold append_batch at 1. cbn [rows].
    rewrite length_app.
    assert (Forall (fun s => List.length s = List.length (rows table))
              [c "customer_id"%string table; a1; b1; c1;
               c "national_id"%string table; c "city"%string table]) as HF
      by (repeat constructor; unfold c; rewrite ?length_map; auto).
    exact (select_app _ _
             [c "customer_id"%string batch; a2; b2; c2;
              c "national_id"%string batch; c "city"%string batch]
             (List.length (rows table)) (List.length (rows batch)) HF eq_refl). }
  split.
  - intros H.
    apply result_bind_ok in H as (fn & Hfn & H).
    apply result_bind_ok in H as (em & Hem & H).
    apply result_bind_ok in H as (ph & Hph & H). apply Ok_inj in H.
    apply mapM_app in Hfn as (fn1 & fn2 & F1 & F2 & ->).
    apply mapM_app in Hem as (em1 & em2 & E1 & E2 & ->).
    apply mapM_app in Hph as (ph1 & ph2 & P1 & P2 & ->).
    rewrite F1, F2, E1, E2, P1, P2. cbn [mbind result_bind].
    eexists _, _. split; [reflexivity|]. split; [reflexivity|].
    rewrite <- H. apply select_ok.
    + apply mapM_ok in F1 as [L _]. unfold c in L. rewrite length_map in L. exact L.
    + apply mapM_ok in E1 as [L _]. unfold c in L. rewrite length_map in L. exact L.
    + apply mapM_ok in P1 as [L _]. unfold c in L. rewrite length_map in L. exact L.
  - intros (v1 & v2 & H1 & H2 & ->).
    apply result_bind_ok in H1 as (fn1 & F1 & H1).
    apply result_bind_ok in H1 as (em1 & E1 & H1).
    apply result_bind_ok in H1 as (ph1 & P1 & H1). apply Ok_inj in H1.
    apply result_bind_ok in H2 as (fn2 & F2 & H2).
    apply result_bind_ok in H2 as (em2 & E2 & H2).
    apply result_bind_ok in H2 as (ph2 & P2 & H2). apply Ok_inj in H2.
    rewrite (proj2 (mapM_app (decrypt_one FERNET) (c "full_name"%string table)
                      (c "full_name"%string batch) (fn1 ++ fn2)))
      by (exists fn1, fn2; repeat split; assumption).
    rewrite (proj2 (mapM_app (decrypt_one FERNET) (c "email"%string table)
                      (c "email"%string batch) (em1 ++ em2)))
      by (exists em1, em2; repeat split; assumption).
    rewrite (proj2 (mapM_app (decrypt_one FERNET) (c "phone"%string table)
                      (c "phone"%string batch) (ph1 ++ ph2)))
      by (exists ph1, ph2; repeat split; assumption).
    cbn [mbind result_bind]. f_equal. rewrite <- H1, <- H2. apply select_ok.
    + apply mapM_ok in F1 as [L _]. unfold c in L. rewrite length_map in L. exact L.
    + apply mapM_ok in E1 as [L _]. unfold c in L. rewrite length_map in L. exact L.
    + apply mapM_ok in P1 as [L _]. unfold c in L. rewrite length_map in L. exact L.
Qed.

(** Lines 188-193 with 219-227. The clear view is computed row by row:
    after the stream appends a batch with the table's columns, the view
    of the table evaluates exactly when the view of the old table and the
    view of the batch do, and is then the old view followed by the rows
    of the batch's view. *)
Theorem clear_view_of_appended (FERNET : Fernet.t) (table batch view : DataFrame) :
  columns batch = columns table →
  v_customers_clear FERNET (append_batch table batch) = Ok view ↔
  ∃ v1 v2, v_customers_clear FERNET table = Ok v1
           ∧ v_customers_clear FERNET batch = Ok v2
           ∧ view = append_batch v1 v2.
Proof. exact (clear_view_append FERNET table batch view). Qed.

(** The clear view of the stored scenario table after the same batch is
    appended once more. *)
Lemma clear_view_of_appended_witness :
  columns Sample.customers_bronze = columns Sample.customers_bronze
  ∧ v_customers_clear Sample.FERNET
      (append_batch Sample.customers_bronze Sample.customers_bronze)
    = Ok (append_batch Sample.clear_view Sample.clear_view).
Proof.
  assert (v_customers_clear Sample.FERNET Sample.customers_bronze = Ok Sample.clear_view)
    as H by (vm_compute; reflexivity).
  split; [reflexivity|].
  apply (proj2 (clear_view_of_appended Sample.FERNET Sample.customers_bronze
                  Sample.customers_bronze
                  (append_batch Sample.clear_view Sample.clear_view) eq_refl)).
  exists Sample.clear_view, Sample.clear_view. auto.
Defined.

(** ** Digests and tokens across runs *)

Lemma Forall2_functional {A B} (R : A → B → Prop) (l : list A) (k k' : list B) :
  (∀ x y y', R x y → R x y' → y = y') →
  Forall2 R l k → Forall2 R l k' → k = k'.
Proof.
  intros HR H. revert k'. induction H as [|x y l k Hxy _ IH]; intros k' H'.
  - inversion H'. reflexivity.
  - inversion H' as [|x' y' l' k'' Hxy' Hrest]; subst. f_equal; eauto.
Qed.

(** Lines 135-141. The digests do not depend on the key, the clock or the
    random source: two runs of [apply_pii_policy] on the same frame, under
    any keys and at any times, store the same [national_id] column. *)
Theorem digests_are_reproducible (F1 F2 : Fernet.t) (w1 w2 : World) (df b1 b2 : DataFrame)
    (n1 n1' n2 n2' : nat) :
  "national_id"%string ∈ columns df →
  apply_pii_policy F1 w1 df n1 = Ok (b1, n1') →
  apply_pii_policy F2 w2 df n2 = Ok (b2, n2') →
  col "national_id" b1 = col "national_id" b2.
Proof.
  intros Hin H1 H2.
  destruct (proj2 frame_of_policy _ _ _ _ _ _ H1) as (Hc1 & _ & _).
  destruct (proj2 frame_of_policy _ _ _ _ _ _ H2) as (Hc2 & _ & _).
  unfold apply_pii_policy in H1, H2.
  assert (∀ name : string, name ∉ DROP_COLUMNS) as Hd by (intros ?; apply not_elem_of_nil).
  pose proof (proj2 (columns_of_policy _ _ _ _ _ _ _ _ _ "national_id"%string H1 Hin (Hd _))
                ltac:(decide_elem) ltac:(decide_elem) ltac:(decide_elem)) as HF1.
  pose proof (proj2 (columns_of_policy _ _ _ _ _ _ _ _ _ "national_id"%string H2 Hin (Hd _))
                ltac:(decide_elem) ltac:(decide_elem) ltac:(decide_elem)) as HF2.
  unfold col. rewrite Hc1, Hc2. case_bool_decide; [|reflexivity]. f_equal.
  rewrite <- Hc1 at 1. rewrite <- Hc2.
  eapply Forall2_functional; [|exact HF1|exact HF2].
  intros x y y' Hx Hy. cbv beta in Hx, Hy. congruence.
Qed.

(** The scenario record stored under the two sample keys. *)
Lemma digests_are_reproducible_witness :
  apply_pii_policy Sample.FERNET Sample.world Sample.source_df 0%nat
  = Ok (Sample.customers_bronze, 3%nat)
  ∧ is_ok (apply_pii_policy Sample.OTHER Sample.world Sample.source_df 7%nat) = true
  ∧ ∀ b2 n2',
      apply_pii_policy Sample.OTHER Sample.world Sample.source_df 7%nat = Ok (b2, n2') →
      col "national_id" Sample.customers_bronze = col "national_id" b2.
Proof.
  assert (apply_pii_policy Sample.FERNET Sample.world Sample.source_df 0%nat
          = Ok (Sample.customers_bronze, 3%nat)) as H by (vm_compute; reflexivity).
  split; [exact H|]. split; [vm_compute; reflexivity|].
  intros b2 n2' H2.
  exact (digests_are_reproducible Sample.FERNET Sample.OTHER Sample.world Sample.world
           Sample.source_df Sample.customers_bronze b2 0%nat 3%nat 7%nat n2'
           ltac:(decide_elem) H H2).
Defined.

(** Lines 114-120 with [os.urandom]. Two calls of [encrypt_value] on the
    same string that drew different IVs return different tokens, and
    [_decrypt_one] maps both back to the string: the same value is stored
    as a different token each time, so an equality test on the stored
    column does not match equal values. *)
Theorem fresh_iv_fresh_token (key : bytes) (FERNET : Fernet.t) (w : World) (s : str)
    (n m n' m' : nat) (t1 t2 : value) :
  Fernet.new key = Ok FERNET → world_ok w →
  urandom w n ≠ urandom w m →
  encrypt_value FERNET w (VStr s) n = Ok (t1, n') →
  encrypt_value FERNET w (VStr s) m = Ok (t2, m') →
  t1 ≠ t2
  ∧ decrypt_one FERNET t1 = Ok (VStr s)
  ∧ decrypt_one FERNET t2 = Ok (VStr s).
Proof.
  intros Hkey Hw Hiv H1 H2. apply fernet_new_ok in Hkey as [_ Hk].
  split; [|split; [exact (encrypt_then_decrypt _ _ _ _ _ _ Hk Hw H1)
                  |exact (encrypt_then_decrypt _ _ _ _ _ _ Hk Hw H2)]].
  intros Heq. subst t2.
  destruct (Hw n) as (Hn & Hln & Hon). destruct (Hw m) as (Hm & Hlm & Hom).
  assert (block_ok (urandom w n) = true) as Bn
    by (unfold block_ok; rewrite Hln, Hon; reflexivity).
  assert (block_ok (urandom w m) = true) as Bm
    by (unfold block_ok; rewrite Hlm, Hom; reflexivity).
  unfold encrypt_value in H1, H2.
  destruct (encrypt_value_at FERNET (clock w n) (urandom w n) (VStr s)) as [v1|] eqn:E1;
    [|discriminate].
  destruct (encrypt_value_at FERNET (clock w m) (urandom w m) (VStr s)) as [v2|] eqn:E2;
    [|discriminate].
  apply Ok_inj in H1, H2.
  assert (v1 = v2) as <- by congruence. clear H1 H2.
  unfold encrypt_value_at in E1, E2.
  apply result_bind_ok in E1 as (data & Hd & E1).
  rewrite Hd in E2. cbn [mbind result_bind] in E2.
  apply result_bind_ok in E1 as (tok1 & T1 & E1).
  apply result_bind_ok in E2 as (tok2 & T2 & E2).
  destruct (encode_ok_unicode s data Hd) as [Hs _].
  destruct (utf8_roundtrip s Hs) as (data0 & Hd0 & Hdok & _).
  assert (data0 = data) as -> by congruence.
  destruct (fernet_roundtrip FERNET data _ _ Hk Hdok Hn Bn) as (x1 & X1 & A1 & _).
  destruct (fernet_roundtrip FERNET data _ _ Hk Hdok Hm Bm) as (x2 & X2 & A2 & _).
  assert (x1 = tok1) as -> by congruence. assert (x2 = tok2) as -> by congruence.
  rewrite (ascii_decode tok1 A1) in E1. rewrite (ascii_decode tok2 A2) in E2.
  cbn [mbind result_bind] in E1, E2.
  assert (tok1 = tok2) as <- by congruence.
  destruct (token_parts FERNET data data _ _ _ _ tok1 Hk Hdok Hdok Hn Hm Bn Bm
              T1 T2) as (_ & _ & Hivs & _).
  contradiction.
Qed.

Lemma counting_world_ok : world_ok Sample.counting_world.
Proof.
  intros n. cbn [Sample.counting_world clock urandom].
  split; [lia|]. split; [apply repeat_length|].
  assert (is_byte (Z.of_nat n mod 256) = true) as Hb by (unfold is_byte; ztest; zlia).
  cbn [repeat bytes_ok forallb]. unfold bytes_ok. cbn [forallb]. rewrite Hb. reflexivity.
Qed.

(** The same name encrypted at the first two draws of the counting
    source. *)
Lemma fresh_iv_fresh_token_witness :
  Fernet.new Sample.key = Ok Sample.FERNET
  ∧ urandom Sample.counting_world 0%nat ≠ urandom Sample.counting_world 1%nat
  ∧ is_ok (encrypt_value Sample.FERNET Sample.counting_world (VStr (py "Alice Smith")) 0%nat) = true
  ∧ is_ok (encrypt_value Sample.FERNET Sample.counting_world (VStr (py "Alice Smith")) 1%nat) = true
  ∧ ∀ t1 t2 n' m',
      encrypt_value Sample.FERNET Sample.counting_world (VStr (py "Alice Smith")) 0%nat
      = Ok (t1, n') →
      encrypt_value Sample.FERNET Sample.counting_world (VStr (py "Alice Smith")) 1%nat
      = Ok (t2, m') →
      t1 ≠ t2.
Proof.
  assert (Fernet.new Sample.key = Ok Sample.FERNET) as Hk by (vm_compute; reflexivity).
  assert (urandom Sample.counting_world 0%nat ≠ urandom Sample.counting_world 1%nat) as Hiv
    by (vm_compute; discriminate).
  split; [exact Hk|]. split; [exact Hiv|].
  split; [vm_compute; reflexivity|]. split; [vm_compute; reflexivity|].
  intros t1 t2 n' m' H1 H2.
  exact (proj1 (fresh_iv_fresh_token Sample.key Sample.FERNET Sample.counting_world
                  (py "Alice Smith") 0%nat 1%nat n' m' t1 t2 Hk counting_world_ok Hiv
                  H1 H2)).
Defined.

(** ** What [_decrypt_one] raises, and on which strings *)

Lemma decode_raises (b : bytes) (e : exn) :
  Utf8.decode b = Raise e → e = UnicodeDecodeError.
Proof.
  remember (List.length b) as n eqn:Hn. revert b Hn e.
  induction n as [n IH] using lt_wf_ind. intros b Hn e H.
  assert (∀ r, (List.length r < n)%nat → ∀ e, Utf8.decode r = Raise e → e = UnicodeDecodeError)
    as IH' by (intros r Hr e'; exact (IH _ Hr r eq_refl e')).
  clear IH. destruct b as [|b1 r1]; [discriminate|].
  rewrite decode_cons in H. cbn [List.length] in Hn.
  repeat match type of H with
  | (if ?c then _ else _) = _ => destruct c
  | match ?l with [] => _ | _ :: _ => _ end = _ => destruct l; cbn [List.length] in Hn
  | (?m ≫= _) = _ =>
    let E := fresh "E" in
    destruct m eqn:E;
    [cbn [mbind result_bind] in H; discriminate
    |cbn [mbind result_bind] in H; apply IH' in E; [congruence | lia]]
  | Raise _ = Raise _ => congruence
  | (let c := _ in _) = _ => cbv zeta in H
  end.
Qed.

Lemma cbc_decrypt_length (key : bytes) (fuel : nat) :
  ∀ (prev data : bytes) (k : nat),
    List.length data = (16 * k)%nat → (List.length prev <= 16)%nat →
    (List.length (CBC.decrypt fuel key prev data) <= List.length data)%nat.
Proof.
  induction fuel as [|f IH]; intros prev data k Hd Hp; [cbn; lia|].
  destruct data as [|x data]; [cbn; lia|].
  cbn [CBC.decrypt]. unfold CBC.block_len.
  assert (1 <= k)%nat as Hk by (cbn [List.length] in Hd; lia).
  rewrite length_app, xor_bytes_length.
  pose proof (IH (firstn 16 (x :: data)) (skipn 16 (x :: data)) (k - 1)%nat) as Hrec.
  rewrite length_skipn, length_firstn in Hrec.
  specialize (Hrec ltac:(lia) ltac:(lia)). lia.
Qed.

Lemma unpad_length (padded p : bytes) :
  CBC.unpad padded = Some p →
  (16 * (List.length p / 16 + 1) <= List.length padded)%nat.
Proof.
  unfold CBC.unpad, CBC.block_len. intros H.
  destruct (List.length padded =? 0)%nat eqn:H0; [discriminate|].
  destruct (List.length padded mod 16 =? 0)%nat eqn:H16; [|discriminate].
  cbn [negb orb] in H.
  destruct ((1 <=? List.last padded 0) && (List.last padded 0 <=? Z.of_nat 16)) eqn:Hn;
    [|discriminate].
  cbn [andb] in H.
  destruct (forallb _ _); [|discriminate]. injection H as <-.
  apply Nat.eqb_neq in H0. apply Nat.eqb_eq in H16.
  apply andb_true_iff in Hn as [Hn1 Hn2]. apply Z.leb_le in Hn1, Hn2.
  unfold drop_last. rewrite length_firstn.
  pose proof (Nat.div_mod_eq (List.length padded) 16) as Hdm. rewrite H16 in Hdm.
  set (m := (List.length padded / 16)%nat) in *.
  assert (Nat.min (List.length padded - Z.to_nat (List.last padded 0%Z)) (List.length padded)
          < 16 * m)%nat as Hlt by lia.
  apply Nat.Div0.div_lt_upper_bound in Hlt. lia.
Qed.

Lemma verified_length (F : Fernet.t) (data : bytes) :
  Fernet.verify_signature F data = true → (32 <= List.length data)%nat.
Proof.
  unfold Fernet.verify_signature, bytes_eqb. intros H. apply bool_decide_eq_true in H.
  apply (f_equal (@List.length Z)) in H. rewrite hmac_length in H.
  unfold take_last in H. rewrite length_skipn in H. lia.
Qed.

Lemma fernet_decrypt_raises (F : Fernet.t) (token : bytes) (e : exn) :
  Fernet.decrypt F token = Raise e → e = InvalidToken.
Proof.
  unfold Fernet.decrypt. intros H.
  destruct (Fernet.get_unverified_token_data token) as [data|e0] eqn:Hg.
  - cbn [mbind result_bind] in H. unfold Fernet.decrypt_data in H.
    destruct (Fernet.verify_signature F data) eqn:Hv; cbn [negb] in H; [|congruence].
    apply verified_length in Hv.
    assert (List.length (slice 9 25 data) = 16%nat) as Hiv
      by (unfold slice; rewrite length_firstn, length_skipn; lia).
    rewrite Hiv in H. cbn [Nat.eqb negb] in H.
    destruct (negb _); [congruence|].
    destruct (CBC.unpad _); congruence.
  - cbn [mbind result_bind] in H. injection H as <-.
    exact (get_unverified_raises token e0 Hg).
Qed.

(** Lines 151-161. [_decrypt_one] raises on a string only with the codec's
    two errors or with [InvalidToken], and on a value that is no string
    with [AttributeError]; the [ValueError] of a short IV cannot occur,
    because a verified token holds at least 32 bytes. *)
Theorem decrypt_one_raises (FERNET : Fernet.t) (v : value) (e : exn) :
  decrypt_one FERNET v = Raise e →
  match v with
  | VNull => False
  | VStr s =>
    (e = UnicodeEncodeError ∧ unicode_text s = false)
    ∨ (unicode_text s = true ∧ (e = InvalidToken ∨ e = UnicodeDecodeError))
  | _ => e = AttributeError
  end.
Proof.
  destruct v as [|s|z|b]; cbn [decrypt_one]; intros H; try congruence.
  destruct (Utf8.encode s) as [token|e0] eqn:Hs; cbn [mbind result_bind] in H.
  - right. split; [exact (proj1 (encode_ok_unicode s token Hs))|].
    destruct (Fernet.decrypt FERNET token) as [data|e1] eqn:Hd; cbn [mbind result_bind] in H.
    + destruct (Utf8.decode data) as [t|e2] eqn:Ht; cbn [mbind result_bind] in H;
        [discriminate|].
      right. injection H as <-. exact (decode_raises data e2 Ht).
    + left. injection H as <-. exact (fernet_decrypt_raises FERNET token e1 Hd).
  - left. injection H as <-. split; [exact (encode_raises s e0 Hs)|].
    destruct (unicode_text s) eqn:Hu; [|reflexivity].
    destruct (utf8_roundtrip s Hu) as (d & Hd & _). congruence.
Qed.

(** The tampered token of the scenario. *)
Lemma decrypt_one_raises_witness :
  decrypt_one Sample.FERNET (VStr Sample.tampered_token) = Raise InvalidToken
  ∧ ((InvalidToken = UnicodeEncodeError ∧ unicode_text Sample.tampered_token = false)
     ∨ (unicode_text Sample.tampered_token = true
        ∧ (InvalidToken = InvalidToken ∨ InvalidToken = UnicodeDecodeError))).
Proof.
  assert (decrypt_one Sample.FERNET (VStr Sample.tampered_token) = Raise InvalidToken)
    as H by (vm_compute; reflexivity).
  split; [exact H|].
  exact (decrypt_one_raises Sample.FERNET (VStr Sample.tampered_token) InvalidToken H).
Defined.

Ltac a2b_close :=
  eexists; split; [rewrite ?length_app; cbn [List.length]; eassumption || reflexivity|].

Lemma a2b_loop_length (l : bytes) :
  ∀ q lc p out res,
    0 <= q <= 3 → 0 <= p →
    Base64.a2b_loop q lc p out l = Ok res →
    ∃ d : Z,
      Z.of_nat (List.length res) = Z.of_nat (List.length out) + d ∧ 0 <= d ∧
      ((q = 0 ∧ d <= 3 * (Z.of_nat (List.length l) / 4))
       ∨ (q = 1 ∧ 3 <= Z.of_nat (List.length l)
          ∧ d <= 3 * ((Z.of_nat (List.length l) + 1) / 4))
       ∨ (q = 2 ∧ ((2 <= Z.of_nat (List.length l)
                    ∧ d <= 2 + 3 * ((Z.of_nat (List.length l) - 2) / 4))
                   ∨ (1 <= p ∧ 1 <= Z.of_nat (List.length l) ∧ d = 0)))
       ∨ (q = 3 ∧ 1 <= Z.of_nat (List.length l)
          ∧ d <= 1 + 3 * ((Z.of_nat (List.length l) - 1) / 4))).
Proof.
  induction l as [|c r IH]; intros q lc p out res Hq Hp H; cbn [Base64.a2b_loop] in H.
  - destruct (q =? 0) eqn:E; [|discriminate]. apply Z.eqb_eq in E. injection H as <-.
    exists 0. cbn [List.length]. split; [lia|]. split; [lia|]. left. split; [lia|].
    change (Z.of_nat 0 / 4) with 0. lia.
  - assert (Z.of_nat (List.length (c :: r)) = Z.of_nat (List.length r) + 1) as Hlen
      by (cbn [List.length]; lia).
    rewrite Hlen. clear Hlen. set (n := Z.of_nat (List.length r)) in *.
    assert (0 <= n) as Hn by (subst n; lia).
    assert (q = 0 ∨ q = 1 ∨ q = 2 ∨ q = 3) as Hcase by lia.
    destruct (c =? Base64.PAD).
    + destruct ((2 <=? q) && (4 <=? q + (p + 1))) eqn:Et.
      * injection H as <-. apply andb_true_iff in Et as [E2 E4].
        apply Z.leb_le in E2, E4. exists 0. split; [lia|]. split; [lia|].
        destruct Hcase as [-> | [-> | [-> | ->]]]; [lia|lia| |].
        -- right. right. left. split; [reflexivity|]. right. lia.
        -- right. right. right. split; [reflexivity|]. zlia.
      * apply IH in H; [|lia|destruct (2 <=? q); lia].
        destruct H as (d & Hd & Hd0 & Hc). exists d. split; [exact Hd|]. split; [exact Hd0|].
        destruct Hcase as [-> | [-> | [-> | ->]]].
        -- left. split; [reflexivity|]. zlia.
        -- right. left. split; [reflexivity|]. zlia.
        -- right. right. left. split; [reflexivity|]. left.
           change (2 <=? 2) with true in Hc. zlia.
        -- cbn in Et. assert ((4 <=? 3 + (p + 1)) = true) by (apply Z.leb_le; lia).
           congruence.
    + destruct (Base64.table_a2b c) as [v|].
      * destruct Hcase as [-> | [-> | [-> | ->]]]; apply IH in H; try lia;
          destruct H as (d & Hd & Hd0 & Hc); rewrite ?length_app in Hd;
          cbn [List.length] in Hd.
        -- exists d. split; [lia|]. split; [lia|]. left. split; [reflexivity|]. zlia.
        -- exists (d + 1). split; [lia|]. split; [lia|]. right. left.
           split; [reflexivity|]. zlia.
        -- exists (d + 1). split; [lia|]. split; [lia|]. right. right. left.
           split; [reflexivity|]. left. zlia.
        -- exists (d + 1). split; [lia|]. split; [lia|]. right. right. right.
           split; [reflexivity|]. zlia.
      * apply IH in H; [|lia|lia].
        destruct H as (d & Hd & Hd0 & Hc). exists d. split; [exact Hd|]. split; [exact Hd0|].
        destruct Hcase as [-> | [-> | [-> | ->]]].
        -- left. split; [reflexivity|]. zlia.
        -- right. left. split; [reflexivity|]. zlia.
        -- right. right. left. split; [reflexivity|]. zlia.
        -- right. right. right. split; [reflexivity|]. zlia.
Qed.

Lemma b64decode_length (token data : bytes) :
  Base64.urlsafe_b64decode token = Ok data →
  (List.length data <= 3 * (List.length token / 4))%nat.
Proof.
  unfold Base64.urlsafe_b64decode. intros H.
  apply a2b_loop_length in H; [|lia|lia].
  destruct H as (d & Hd & _ & [[_ Hb]|[[? _]|[[? _]|[? _]]]]); try discriminate.
  rewrite length_map in Hb. cbn [List.length] in Hd.
  apply Nat2Z.inj_le. rewrite Nat2Z.inj_mul, Nat2Z.inj_div. cbn [Z.of_nat]. lia.
Qed.

Lemma fernet_decrypt_length (F : Fernet.t) (token p : bytes) :
  Fernet.decrypt F token = Ok p →
  (57 + 16 * (List.length p / 16 + 1) <= 3 * (List.length token / 4))%nat.
Proof.
  unfold Fernet.decrypt. intros H. apply result_bind_ok in H as (data & Hg & H).
  assert (Base64.urlsafe_b64decode token = Ok data) as Hb.
  { unfold Fernet.get_unverified_token_data in Hg.
    destruct (Base64.urlsafe_b64decode token) as [[|v d]|]; try discriminate.
    destruct (negb (v =? 128)); [discriminate|].
    destruct (List.length (v :: d) <? 9)%nat; [discriminate|]. exact Hg. }
  apply b64decode_length in Hb.
  unfold Fernet.decrypt_data in H.
  destruct (Fernet.verify_signature F data) eqn:Hv; cbn [negb] in H; [|discriminate].
  apply verified_length in Hv.
  destruct (negb (List.length (slice 9 25 data) =? 16)%nat) eqn:Hiv; [discriminate|].
  destruct (List.length (skipn 25 (drop_last 32 data)) mod 16 =? 0)%nat eqn:Hm;
    cbn [negb] in H; [|discriminate].
  destruct (CBC.unpad _) as [u|] eqn:Hu; [|discriminate]. injection H as ->.
  apply unpad_length in Hu. apply Nat.eqb_eq in Hm.
  apply negb_false_iff, Nat.eqb_eq in Hiv.
  pose proof (Nat.div_mod_eq (List.length (skipn 25 (drop_last 32 data))) 16) as Hdm.
  rewrite Hm, Nat.add_0_r in Hdm.
  pose proof (cbc_decrypt_length (Fernet.encryption_key F)
                (List.length (skipn 25 (drop_last 32 data))) (slice 9 25 data)
                (skipn 25 (drop_last 32 data)) _ Hdm ltac:(lia)) as Hc.
  assert (List.length (skipn 25 (drop_last 32 data)) = List.length data - 32 - 25)%nat as Hl.
  { rewrite length_skipn. unfold drop_last. rewrite length_firstn. lia. }
  lia.
Qed.

(** Lines 151-161. A string whose UTF-8 form has fewer than 100 bytes is
    no token under any key: [_decrypt_one] raises [InvalidToken] on it, so
    a value that reached the table unencrypted stops the clear view. *)
Theorem short_strings_are_not_tokens (FERNET : Fernet.t) (s : str) (token : bytes) :
  Utf8.encode s = Ok token → (List.length token < 100)%nat →
  decrypt_one FERNET (VStr s) = Raise InvalidToken.
Proof.
  intros Hs Hlen. cbn [decrypt_one]. rewrite Hs. cbn [mbind result_bind].
  destruct (Fernet.decrypt FERNET token) as [p|e] eqn:Hd.
  - apply fernet_decrypt_length in Hd.
    assert (List.length token / 4 < 25)%nat
      by (apply Nat.Div0.div_lt_upper_bound; lia).
    lia.
  - apply fernet_decrypt_raises in Hd. subst e. reflexivity.
Qed.

(** A plain name in place of a token. *)
Lemma short_strings_are_not_tokens_witness :
  Utf8.encode (py "Alice Smith") = Ok (py "Alice Smith")
  ∧ (List.length (py "Alice Smith") < 100)%nat
  ∧ decrypt_one Sample.FERNET (VStr (py "Alice Smith")) = Raise InvalidToken.
Proof.
  assert (Utf8.encode (py "Alice Smith") = Ok (py "Alice Smith")) as H
    by (vm_compute; reflexivity).
  assert (List.length (py "Alice Smith") < 100)%nat as Hl by (vm_compute; lia).
  split; [exact H|]. split; [exact Hl|].
  exact (short_strings_are_not_tokens Sample.FERNET (py "Alice Smith") (py "Alice Smith")
           H Hl).
Defined.

(** ** A token under a key that did not make it *)

(** What [_encrypt_from_parts] returns under one key, and what [decrypt]
    does with it under another: the signature is recomputed with the
    signing half of the key in use, and the ciphertext is decrypted with
    its AES half. *)
Lemma decrypt_under (F F' : Fernet.t) (data : bytes) (now : Z) (iv : bytes) :
  block_ok (Fernet.encryption_key F) = true →
  bytes_ok data = true → 0 <= now < 2 ^ 64 → block_ok iv = true →
  let ct := CBC.encrypt (List.length (CBC.pad data)) (Fernet.encryption_key F) iv
              (CBC.pad data) in
  let body := 128 :: SHA256.be_bytes 8 now ++ iv ++ ct in
  let token :=
    Base64.urlsafe_b64encode (body ++ HMAC.hmac_sha256 (Fernet.signing_key F) body) in
  Fernet.encrypt_from_parts F data now iv = Ok token
  ∧ is_ascii token = true
  ∧ Base64.urlsafe_b64decode token
    = Ok (body ++ HMAC.hmac_sha256 (Fernet.signing_key F) body)
  ∧ Fernet.decrypt F' token
    = if bool_decide (HMAC.hmac_sha256 (Fernet.signing_key F') body
                      = HMAC.hmac_sha256 (Fernet.signing_key F) body)
      then match CBC.unpad (CBC.decrypt (List.length ct) (Fernet.encryption_key F') iv ct) with
           | Some p => Ok p
           | None => Raise InvalidToken
           end
      else Raise InvalidToken.
Proof.
  intros Hk Hd Hnow Hiv. cbv zeta.
  pose proof (block_ok_length iv Hiv) as Hivlen.
  destruct (pad_length data) as [k Hpad].
  destruct (cbc_roundtrip (Fernet.encryption_key F) (S k) Hk (CBC.pad data) iv
              (List.length (CBC.pad data)) (List.length (CBC.pad data)))
    as (_ & Hctlen & Hctok);
    [assumption | apply pad_ok; assumption | assumption | lia | lia |].
  set (ct := CBC.encrypt (List.length (CBC.pad data)) (Fernet.encryption_key F) iv
               (CBC.pad data)) in *.
  set (hd := 128 :: SHA256.be_bytes 8 now).
  change (128 :: SHA256.be_bytes 8 now ++ iv ++ ct) with (hd ++ iv ++ ct).
  set (basic := hd ++ iv ++ ct).
  set (h := HMAC.hmac_sha256 (Fernet.signing_key F) basic).
  assert (List.length hd = 9%nat) as Hhd.
  { unfold hd. cbn [List.length]. rewrite be_bytes_length. reflexivity. }
  assert (List.length h = 32%nat) as Hh by apply hmac_length.
  assert (bytes_ok (basic ++ h) = true) as Hok.
  { unfold basic, hd. rewrite !bytes_ok_app, bytes_ok_cons, be_bytes_ok, Hctok.
    rewrite (block_ok_bytes iv Hiv). unfold h. rewrite hmac_ok. reflexivity. }
  split.
  { unfold Fernet.encrypt_from_parts, Fernet.to_bytes8.
    rewrite Hivlen. cbn [Nat.eqb negb]. ztest. cbn [andb mbind result_bind].
    reflexivity. }
  split; [apply b64encode_ascii; assumption|].
  split; [exact (b64_roundtrip _ Hok)|].
  assert (Fernet.get_unverified_token_data
            (Base64.urlsafe_b64encode (basic ++ h)) = Ok (basic ++ h)) as Hg.
  { apply (get_unverified_ok _ ((SHA256.be_bytes 8 now ++ iv ++ ct) ++ h)).
    - exact (b64_roundtrip _ Hok).
    - rewrite !length_app, be_bytes_length. lia. }
  unfold Fernet.decrypt. rewrite Hg. cbn [mbind result_bind].
  unfold Fernet.decrypt_data, Fernet.verify_signature, drop_last, take_last.
  rewrite length_app, Hh.
  replace (List.length basic + 32 - 32)%nat with (List.length basic) by lia.
  rewrite take_app_length, drop_app_length.
  unfold bytes_eqb. fold h.
  destruct (bool_decide (HMAC.hmac_sha256 (Fernet.signing_key F') basic = h));
    cbn [negb]; [|reflexivity].
  assert (slice 9 25 (basic ++ h) = iv) as ->.
  { unfold slice, basic. rewrite <- !app_assoc.
    pose proof (drop_app_length hd (iv ++ ct ++ h)) as Hdr. rewrite Hhd in Hdr.
    rewrite Hdr. change (25 - 9)%nat with 16%nat. rewrite <- Hivlen.
    apply take_app_length. }
  assert (skipn 25 basic = ct) as ->.
  { unfold basic. rewrite app_assoc.
    replace 25%nat with (List.length (hd ++ iv)) by (rewrite length_app; lia).
    apply drop_app_length. }
  rewrite Hivlen. cbn [Nat.eqb negb]. rewrite Hctlen, Hpad.
  replace ((16 * S k) mod 16)%nat with 0%nat
    by (symmetry; rewrite Nat.mul_comm; apply Nat.Div0.mod_mul).
  cbn [Nat.eqb negb]. reflexivity.
Qed.

(** C9, amended. The token [encrypt_value] returns is the base64 text of
    the format version byte 0x80, the time, the IV, the AES-CBC
    ciphertext and the HMAC of these: it holds no key version, and its
    first 32 characters are the same under every key. [_decrypt_one]
    works with the one key it is given and selects nothing from the
    token: under the key that made the token it returns the string;
    under any other key it raises [InvalidToken] unless the HMAC of the
    token's body under the signing half in use equals the stored one, and
    then it decrypts the ciphertext with the AES half in use. *)
Theorem C9_single_key_tokens (key key' : bytes) (FERNET FERNET' : Fernet.t) (w : World)
    (s : str) (n n' : nat) (v : value) :
  Fernet.new key = Ok FERNET → Fernet.new key' = Ok FERNET' → world_ok w →
  encrypt_value FERNET w (VStr s) n = Ok (v, n') →
  ∃ token data,
    v = VStr token ∧ Utf8.encode s = Ok data ∧
    let ct := CBC.encrypt (List.length (CBC.pad data)) (Fernet.encryption_key FERNET)
                (urandom w n) (CBC.pad data) in
    let body := 128 :: SHA256.be_bytes 8 (clock w n) ++ urandom w n ++ ct in
    (Utf8.encode token ≫= Base64.urlsafe_b64decode)
    = Ok (body ++ HMAC.hmac_sha256 (Fernet.signing_key FERNET) body)
    ∧ (∀ s' v' m, encrypt_value FERNET' w (VStr s') n = Ok (v', m) →
         ∃ token', v' = VStr token' ∧ firstn 32 token' = firstn 32 token)
    ∧ decrypt_one FERNET v = Ok (VStr s)
    ∧ decrypt_one FERNET' v
      = if bool_decide (HMAC.hmac_sha256 (Fernet.signing_key FERNET') body
                        = HMAC.hmac_sha256 (Fernet.signing_key FERNET) body)
        then match CBC.unpad (CBC.decrypt (List.length ct)
                                (Fernet.encryption_key FERNET') (urandom w n) ct) with
             | Some p => t ← Utf8.decode p; Ok (VStr t)
             | None => Raise InvalidToken
             end
        else Raise InvalidToken.
Proof.
  intros Hkey Hkey' Hw H. apply fernet_new_ok in Hkey as [_ Hk].
  apply fernet_new_ok in Hkey' as [_ Hk'].
  destruct (Hw n) as (Hnow & Hlen & Hok).
  assert (block_ok (urandom w n) = true) as Hiv
    by (unfold block_ok; rewrite Hlen, Hok; reflexivity).
  pose proof (encrypt_then_decrypt FERNET w (VStr s) v n n' Hk Hw H) as Hback.
  unfold encrypt_value in H.
  destruct (encrypt_value_at FERNET (clock w n) (urandom w n) (VStr s)) as [v0|] eqn:E;
    [|discriminate].
  apply Ok_inj in H. assert (v0 = v) as -> by congruence. clear H.
  unfold encrypt_value_at in E.
  apply result_bind_ok in E as (data & Hd & E).
  apply result_bind_ok in E as (tok & Ht & E).
  destruct (encode_ok_unicode s data Hd) as [Hs _].
  destruct (utf8_roundtrip s Hs) as (data0 & Hd0 & Hdok & Hdec).
  assert (data0 = data) as -> by congruence.
  destruct (decrypt_under FERNET FERNET' data (clock w n) (urandom w n) Hk Hdok Hnow Hiv)
    as (Henc & Hascii & Hb64 & Hother).
  cbv zeta in Henc, Hascii, Hb64, Hother.
  set (ct := CBC.encrypt (List.length (CBC.pad data)) (Fernet.encryption_key FERNET)
               (urandom w n) (CBC.pad data)) in *.
  set (body := 128 :: SHA256.be_bytes 8 (clock w n) ++ urandom w n ++ ct) in *.
  set (token := Base64.urlsafe_b64encode
                  (body ++ HMAC.hmac_sha256 (Fernet.signing_key FERNET) body)) in *.
  assert (tok = token) as -> by congruence.
  rewrite (ascii_decode token Hascii) in E. cbn [mbind result_bind] in E.
  injection E as <-.
  exists token, data. split; [reflexivity|]. split; [exact Hd|]. cbv zeta.
  fold ct. fold body.
  split; [rewrite (ascii_encode token Hascii); cbn [mbind result_bind]; exact Hb64|].
  split.
  { intros s' v' m H'. unfold encrypt_value in H'.
    destruct (encrypt_value_at FERNET' (clock w n) (urandom w n) (VStr s')) as [v1|] eqn:E';
      [|discriminate].
    apply Ok_inj in H'. assert (v1 = v') as -> by congruence. clear H'.
    unfold encrypt_value_at in E'.
    apply result_bind_ok in E' as (data' & Hd' & E').
    apply result_bind_ok in E' as (tok' & Ht' & E').
    apply result_bind_ok in E' as (t' & Hdec' & E'). injection E' as <-.
    exists t'. split; [reflexivity|].
    destruct (encode_ok_unicode s' data' Hd') as [Hs' _].
    destruct (utf8_roundtrip s' Hs') as (data1 & Hd1 & Hdok' & _).
    assert (data1 = data') as -> by congruence.
    destruct (decrypt_under FERNET' FERNET' data' (clock w n) (urandom w n) Hk' Hdok' Hnow Hiv)
      as (Henc' & Hascii' & _).
    cbv zeta in Henc', Hascii'. rewrite Ht' in Henc'. apply Ok_inj in Henc'.
    rewrite <- Henc' in Hascii'. rewrite (ascii_decode tok' Hascii') in Hdec'.
    apply Ok_inj in Hdec'. subst t'.
    exact (token_header FERNET' FERNET data' data (clock w n) (urandom w n) tok' token
             Ht' Henc). }
  split; [exact Hback|].
  cbn [decrypt_one]. rewrite (ascii_encode token Hascii). cbn [mbind result_bind].
  rewrite Hother. case_bool_decide as Hsig; [|reflexivity].
  destruct (CBC.unpad _); reflexivity.
Qed.

(** C9 on the sample keys: the token of "Alice Smith" made under one key,
    read under that key and under the other. *)
Lemma C9_witness :
  Fernet.new Sample.key = Ok Sample.FERNET
  ∧ Fernet.new Sample.other_key = Ok Sample.OTHER
  ∧ encrypt_value Sample.FERNET Sample.world (VStr (py "Alice Smith")) 0%nat
    = Ok (VStr Sample.good_token, 1%nat)
  ∧ ∃ token data,
      VStr Sample.good_token = VStr token
      ∧ Utf8.encode (py "Alice Smith") = Ok data
      ∧ decrypt_one Sample.FERNET (VStr Sample.good_token) = Ok (VStr (py "Alice Smith")).
Proof.
  assert (Fernet.new Sample.key = Ok Sample.FERNET) as Hk by (vm_compute; reflexivity).
  assert (Fernet.new Sample.other_key = Ok Sample.OTHER) as Hk'
    by (vm_compute; reflexivity).
  assert (encrypt_value Sample.FERNET Sample.world (VStr (py "Alice Smith")) 0%nat
          = Ok (VStr Sample.good_token, 1%nat)) as He by (vm_compute; reflexivity).
  split; [exact Hk|]. split; [exact Hk'|]. split; [exact He|].
  destruct (C9_single_key_tokens Sample.key Sample.other_key Sample.FERNET Sample.OTHER
              Sample.world (py "Alice Smith") 0%nat 1%nat (VStr Sample.good_token)
              Hk Hk' sample_world_ok He) as (token & data & Hv & Hd & _ & _ & Hback & _).
  exists token, data. split; [exact Hv|]. split; [exact Hd|]. exact Hback.
Defined.

(** A key that keeps the signing half: the signature of the sample token
    verifies under it, and the token is then decrypted with the new AES
    half, which does not give the plaintext back. *)
Lemma resigned_key_verifies :
  Fernet.new Sample.resigned_key = Ok Sample.RESIGNED
  ∧ (∃ decoded,
       Fernet.get_unverified_token_data Sample.good_token = Ok decoded
       ∧ Fernet.verify_signature Sample.RESIGNED decoded = true
       ∧ Fernet.verify_signature Sample.OTHER decoded = false)
  ∧ decrypt_one Sample.RESIGNED (VStr Sample.good_token) = Raise InvalidToken.
Proof.
  split; [vm_compute; reflexivity|]. split; [|vm_compute; reflexivity].
  eexists. split; [vm_compute; reflexivity|].
  split; [vm_compute; reflexivity | vm_compute; reflexivity].
Qed.

(** ** The write of a batch, once and again *)









(** ** The order of the steps *)

Lemma Forall2_compose {A B C} (R : A → B → Prop) (S : B → C → Prop)
    (l : list A) (m : list B) (k : list C) :
  Forall2 R l m → Forall2 S m k → Forall2 (fun a c => ∃ b, R a b ∧ S b c) l k.
Proof.
  intros H. revert k. induction H as [|a b l m Hab _ IH]; intros k Hk.
  - inversion Hk. constructor.
  - inversion Hk as [|b' c m' k' Hbc Hrest]; subst. constructor; eauto.
Qed.

(** Lines 130-141. The hash loop runs on what the encrypt loop returned:
    a column named in both lists is stored as the SHA-256 of its token,
    not as a token of its digest nor as the digest of its plaintext. *)
Theorem hash_follows_encrypt (enc hash drops : list string) (FERNET : Fernet.t)
    (w : World) (df bronze : DataFrame) (n n' : nat) (name : string) :
  apply_pii_policy_with enc hash drops FERNET w df n = Ok (bronze, n') →
  name ∈ columns df → name ∉ drops →
  NoDup enc → NoDup hash → name ∈ enc → name ∈ hash →
  Forall2 (fun v v' => ∃ token, (∃ n1 n2, encrypt_value FERNET w v n1 = Ok (token, n2))
                                ∧ hash_value token = Ok v')
    (map (cell name (columns df)) (rows df))
    (map (cell name (columns bronze)) (rows bronze)).
Proof.
  intros H Hcol Hd Hne Hnh He Hh. unfold apply_pii_policy_with in H.
  apply io_bind_ok in H as (r1 & n1 & H1 & H).
  apply io_bind_ok in H as (r2 & n2 & H2 & H3).
  destruct (for_each_with_column (fun _ => encrypt_value FERNET w) _ _ _ _ _ H1)
    as (Hc1 & _ & _).
  destruct (for_each_drop _ _ _ _ _ H3) as (_ & _ & _ & Hs3).
  rewrite (Hs3 name Hd).
  assert (name ∈ columns r1) as Hcol1 by (rewrite Hc1; exact Hcol).
  pose proof (for_each_applies (fun _ => encrypt_value FERNET w) enc name
                (fun _ => encrypt_null FERNET w) Hne He df n r1 n1 Hcol H1) as HE.
  pose proof (for_each_applies (fun _ v k => v' ← hash_value v; Ok (v', k)) hash name
                (fun _ _ => eq_refl) Hnh Hh r1 n1 r2 n2 Hcol1 H2) as HH.
  eapply Forall2_impl; [exact (Forall2_compose _ _ _ _ _ HE HH)|].
  intros v v' (t & Ht & k1 & k2 & Hv). cbv beta in Hv. exists t. split; [exact Ht|].
  destruct (hash_value t) as [x|]; [|discriminate]. cbn in Hv. congruence.
Qed.

(** The scenario record with [email] in both lists: the stored cell is
    the digest of the token. *)
Lemma hash_follows_encrypt_witness :
  apply_pii_policy_with ["full_name"; "email"; "phone"]%string
    ["national_id"; "email"]%string [] Sample.FERNET Sample.world Sample.source_df 0%nat
  = Ok (Sample.hashed_tokens, 3%nat)
  ∧ Forall2 (fun v v' => ∃ token,
               (∃ n1 n2, encrypt_value Sample.FERNET Sample.world v n1 = Ok (token, n2))
               ∧ hash_value token = Ok v')
      (map (cell "email" (columns Sample.source_df)) (rows Sample.source_df))
      (map (cell "email" (columns Sample.hashed_tokens)) (rows Sample.hashed_tokens)).
Proof.
  assert (apply_pii_policy_with ["full_name"; "email"; "phone"]%string
            ["national_id"; "email"]%string [] Sample.FERNET Sample.world
            Sample.source_df 0%nat
          = Ok (Sample.hashed_tokens, 3%nat)) as H by (vm_compute; reflexivity).
  assert ("email"%string ∈ columns Sample.source_df) as He by decide_elem.
  assert ("email"%string ∉ ([] : list string)) as Hd by apply not_elem_of_nil.
  assert (NoDup ["full_name"; "email"; "phone"]%string) as N1 by decide_elem.
  assert (NoDup ["national_id"; "email"]%string) as N2 by decide_elem.
  assert ("email"%string ∈ ["full_name"; "email"; "phone"]%string) as N3 by decide_elem.
  assert ("email"%string ∈ ["national_id"; "email"]%string) as N4 by decide_elem.
  split; [exact H|].
  exact (hash_follows_encrypt ["full_name"; "email"; "phone"]%string
           ["national_id"; "email"]%string [] Sample.FERNET Sample.world Sample.source_df
           Sample.hashed_tokens 0%nat 3%nat "email"%string H He Hd N1 N2 N3 N4).
Defined.
